(** * lab-orchestrator: a shallow embedding of the command lifecycle helpers

  The development follows the Python sources module by module:

  - [Py]          the few Python notions the modules share (values of
                  [Dict[str, Any]], truthiness, raised exceptions);
  - [Float]       Python's [float]: IEEE 754 binary64 values, each
                  operation rounded to nearest, ties to even;
  - [Dedup]       [deduplication.py]: the request deduplication cache;
  - [Db]          [db.py]: the persistence gateway over the SQL tables;
  - [DeadLetter]  [dead_letter.py]: the dead letter queue;
  - [Retry]       [retry.py]: the backoff computation and the retry
                  loops;
  - [Schema]      [schema.py]: validation of the command envelope, with
                  [Projector], [DeviceMeta] and [Schedule] for its
                  parameter, device metadata and schedule models.

  Definitions come first; the facts about them are in the modules whose
  names end in [Facts].  Clock readings ([time.time()],
  [datetime.utcnow()]), fresh UUIDs and random samples are inputs of the
  functions that consume them. *)

From Stdlib Require Import ZArith QArith Qminmax Qabs Qpower Qround String Ascii List Sorted Bool Lia Lqa.
From stdpp Require Import gmap strings list pretty.
Import ListNotations.

Set Warnings "-register-all".

(** ** Python notions shared by the modules *)

Module Py.

(** Values found in the [Dict[str, Any]] payloads. [VFloat] carries the
    text [float.__repr__] prints; [VObject] stands for any object that
    [json] cannot serialise (a set, bytes, a class instance). *)
Inductive value : Type :=
| VNone
| VBool (b : bool)
| VInt (n : Z)
| VFloat (repr : string)
| VStr (s : string)
| VList (items : list value)
| VDict (items : list (string * value))
| VObject (type_name : string).

Definition dict : Type := list (string * value).

(** [bool(d)] for a dict: empty is false. *)
Definition truthy (d : dict) : bool :=
  match d with
  | [] => false
  | _ :: _ => true
  end.

(** [bool(x)] for [Optional[Dict]]: [None] and [{}] are false. *)
Definition truthy_opt (x : option dict) : bool :=
  match x with
  | None => false
  | Some d => truthy d
  end.

(** [x or {}] *)
Definition or_empty (x : option dict) : dict :=
  if truthy_opt x then default [] x else [].

(** The outcome of a call: a returned value or a raised exception,
    identified by the name of its class. *)
Inductive outcome (A : Type) : Type :=
| Returned (a : A)
| Raised (exc : string).
Arguments Returned {A} a.
Arguments Raised {A} exc.

(** [bool(v)] for a value.  Objects of other classes are true. *)
Definition truthy_value (v : value) : bool :=
  match v with
  | VNone => false
  | VBool b => b
  | VInt n => negb (n =? 0)%Z
  | VFloat repr => negb (String.eqb repr "0.0" || String.eqb repr "-0.0")
  | VStr s => negb (String.eqb s "")
  | VList items => match items with [] => false | _ :: _ => true end
  | VDict items => match items with [] => false | _ :: _ => true end
  | VObject _ => true
  end.

(** [d.get(k)] *)
Fixpoint dict_get (k : string) (d : dict) : option value :=
  match d with
  | [] => None
  | (k', v) :: d' => if String.eqb k' k then Some v else dict_get k d'
  end.

(** [d[k] = v] *)
Fixpoint dict_set (k : string) (v : value) (d : dict) : dict :=
  match d with
  | [] => [(k, v)]
  | (k', v') :: d' =>
      if String.eqb k' k then (k, v) :: d' else (k', v') :: dict_set k v d'
  end.

(** An optional string as a value, [None] for a missing one. *)
Definition opt_str (s : option string) : value :=
  match s with
  | Some s => VStr s
  | None => VNone
  end.

End Py.

(** ** Floats *)

Module Float.
Local Open Scope Q_scope.

(** A Python [float] is an IEEE 754 binary64 number: a finite value,
    which is a rational number, an infinity or a NaN.  The sign of a
    zero is not kept. *)
Inductive float : Type :=
| Finite (q : Q)
| Infinity (negative : bool)
| NaN.

(** The integer [l] with 2^l <= q < 2^(l+1), for a positive [q]. *)
Definition floor_log2 (q : Q) : Z :=
  let l := (Z.log2 (Qnum q) - Z.log2 (Zpos (Qden q)))%Z in
  if Qle_bool (2 ^ l) q then l else (l - 1)%Z.

(** The nearest integer, the even one of two that are equally near. *)
Definition round_half_even (x : Q) : Z :=
  let f := Qfloor x in
  match Qcompare (x - inject_Z f) (1 # 2) with
  | Lt => f
  | Gt => (f + 1)%Z
  | Eq => if Z.even f then f else (f + 1)%Z
  end.

(** The exponent of the last place of a positive [q]: 53 significant
    bits, and no exponent below that of the subnormal numbers. *)
Definition exponent (q : Q) : Z := Z.max (floor_log2 q - 52) (-1074).

(** The multiple of 2^exponent nearest to a positive [q]. *)
Definition nearest (q : Q) : Q :=
  let e := exponent q in
  inject_Z (round_half_even (q / 2 ^ e)) * 2 ^ e.

(** The float an exact result is rounded to: to nearest, ties to even,
    and to an infinity from 2^1024 on. *)
Definition round (q : Q) : float :=
  match Qnum q with
  | Z0 => Finite 0
  | Zpos _ =>
      let v := nearest q in
      if Qle_bool (2 ^ 1024) v then Infinity false else Finite (Qred v)
  | Zneg _ =>
      let v := nearest (- q) in
      if Qle_bool (2 ^ 1024) v then Infinity true else Finite (Qred (- v))
  end.

Definition is_zero (q : Q) : bool := Qeq_bool q 0.
Definition is_negative (q : Q) : bool := negb (Qle_bool 0 q).

(** [a * b] *)
Definition mul (a b : float) : float :=
  match a, b with
  | NaN, _ | _, NaN => NaN
  | Finite x, Finite y => round (x * y)
  | Infinity s, Infinity t => Infinity (xorb s t)
  | Infinity s, Finite y | Finite y, Infinity s =>
      if is_zero y then NaN else Infinity (xorb s (is_negative y))
  end.

(** [a + b] *)
Definition add (a b : float) : float :=
  match a, b with
  | NaN, _ | _, NaN => NaN
  | Finite x, Finite y => round (x + y)
  | Infinity s, Infinity t => if Bool.eqb s t then Infinity s else NaN
  | Infinity s, Finite _ | Finite _, Infinity s => Infinity s
  end.

(** [- a] *)
Definition neg (a : float) : float :=
  match a with
  | Finite x => Finite (- x)
  | Infinity s => Infinity (negb s)
  | NaN => NaN
  end.

(** [a - b] *)
Definition sub (a b : float) : float := add a (neg b).

(** [a < b] *)
Definition lt (a b : float) : bool :=
  match a, b with
  | NaN, _ | _, NaN => false
  | Finite x, Finite y => negb (Qle_bool y x)
  | Finite _, Infinity s => negb s
  | Infinity s, Finite _ => s
  | Infinity s, Infinity t => s && negb t
  end.

(** [min(a, b)] and [max(a, b)] of the builtins: the second argument is
    taken only when it is strictly smaller, or greater. *)
Definition min (a b : float) : float := if lt b a then b else a.
Definition max (a b : float) : float := if lt a b then b else a.

(** The order of the statements: [a <= b], which no NaN satisfies. *)
Definition le (a b : float) : Prop :=
  match a, b with
  | NaN, _ | _, NaN => False
  | Finite x, Finite y => x <= y
  | Finite _, Infinity s => s = false
  | Infinity s, Finite _ => s = true
  | Infinity s, Infinity t => s = true \/ t = false
  end.

(** Floats with the same value. *)
Definition same (a b : float) : Prop :=
  match a, b with
  | Finite x, Finite y => x == y
  | Infinity s, Infinity t => s = t
  | NaN, NaN => True
  | _, _ => False
  end.


(** The numbers with 53 significant bits, subnormal ones included *)
Definition has_53_bits (v : Q) : Prop :=
  exists (n e : Z), (1 <= n <= 2 ^ 53)%Z /\ (-1074 <= e)%Z
                    /\ v == inject_Z n * 2 ^ e.

(** The cases of [round] *)
Inductive rounding (q : Q) : float -> Prop :=
| rounds_zero : q == 0 -> rounding q (Finite 0)
| rounds_up_to (v : Q) :
    0 < q -> v == nearest q -> v < 2 ^ 1024 -> rounding q (Finite v)
| rounds_to_infinity :
    0 < q -> 2 ^ 1024 <= nearest q -> rounding q (Infinity false)
| rounds_down_to (v : Q) :
    q < 0 -> v == - nearest (- q) -> - 2 ^ 1024 < v -> rounding q (Finite v)
| rounds_to_minus_infinity :
    q < 0 -> 2 ^ 1024 <= nearest (- q) -> rounding q (Infinity true).

(** The floats among the rationals: the values that rounding does not
    change *)
Definition representable (v : Q) : Prop := same (round v) (Finite v).

End Float.

(** ** deduplication.py *)

Module Dedup.
Import Py.
Local Open Scope Z_scope.

(** Readings of [time.time()] and the time to live are integers in one
    unit (seconds in the examples); the methods only subtract and compare
    them. *)
Record RequestRecord : Type := mkRequestRecord {
  req_id : string;
  timestamp : Z;
  device_id : string;
  action : string;
  result : option dict;
  processing : bool
}.

(** [OrderedDict[str, RequestRecord]]: the items in iteration order.
    Keys are unique, as in any dict ([wf] below). *)
Definition ordered_dict : Type := list (string * RequestRecord).

(** [d.get(k)] / [k in d] *)
Fixpoint od_get (k : string) (c : ordered_dict) : option RequestRecord :=
  match c with
  | [] => None
  | (k', r) :: c' => if String.eqb k' k then Some r else od_get k c'
  end.

(** [d.pop(k, None)] *)
Fixpoint od_pop (k : string) (c : ordered_dict) : ordered_dict :=
  match c with
  | [] => []
  | (k', r) :: c' => if String.eqb k' k then c' else (k', r) :: od_pop k c'
  end.

(** [d.move_to_end(k)], for a key that is present *)
Definition od_move_to_end (k : string) (c : ordered_dict) : ordered_dict :=
  match od_get k c with
  | Some r => od_pop k c ++ [(k, r)]
  | None => c
  end.

(** [d[k] = r]: a present key keeps its position, a new key goes last. *)
Fixpoint od_set (k : string) (r : RequestRecord) (c : ordered_dict)
  : ordered_dict :=
  match c with
  | [] => [(k, r)]
  | (k', r') :: c' =>
      if String.eqb k' k then (k, r) :: c' else (k', r') :: od_set k r c'
  end.

(** The object state of [RequestDeduplicator] ([_lock] guards every
    method, so each method is one atomic step). *)
Record RequestDeduplicator : Type := mkDedup {
  ttl_seconds : Z;
  max_size : Z;
  _cache : ordered_dict;
  _processing : gset string
}.

(** [RequestDeduplicator(ttl_seconds, max_size)] *)
Definition init (ttl max : Z) : RequestDeduplicator :=
  mkDedup ttl max [] ∅.

Definition set_cache (c : ordered_dict) (d : RequestDeduplicator) :=
  mkDedup (ttl_seconds d) (max_size d) c (_processing d).

Definition set_processing (p : gset string) (d : RequestDeduplicator) :=
  mkDedup (ttl_seconds d) (max_size d) (_cache d) p.

(** The first loop of [_cleanup_expired]: collect keys from the front
    and stop at the first entry that has not expired. *)
Fixpoint expired_keys (ttl now : Z) (c : ordered_dict) : list string :=
  match c with
  | [] => []
  | (k, record) :: c' =>
      if now - timestamp record >? ttl
      then k :: expired_keys ttl now c'
      else []
  end.

(** The body of its second loop. *)
Definition drop_key (d : RequestDeduplicator) (key : string) :=
  mkDedup (ttl_seconds d) (max_size d)
          (od_pop key (_cache d)) (_processing d ∖ {[ key ]}).

Definition _cleanup_expired (now : Z) (d : RequestDeduplicator)
  : RequestDeduplicator :=
  fold_left drop_key (expired_keys (ttl_seconds d) now (_cache d)) d.

(** The [while] loop of [_enforce_max_size].  The oldest key is the key
    of the first item and popping it removes that item ([od_pop_head]
    in [DedupFacts]), so the loop walks down the list.  On an empty
    cache [next(iter(...))] raises [StopIteration]. *)
Fixpoint enforce_loop (max : Z) (c : ordered_dict) (p : gset string)
  : outcome unit * (ordered_dict * gset string) :=
  match c with
  | [] =>
      if 0 >? max then (Raised "StopIteration", ([], p))
      else (Returned tt, ([], p))
  | (oldest_key, _) :: rest =>
      if Z.of_nat (length c) >? max
      then enforce_loop max rest (p ∖ {[ oldest_key ]})
      else (Returned tt, (c, p))
  end.

Definition _enforce_max_size (d : RequestDeduplicator)
  : outcome unit * RequestDeduplicator :=
  let '(o, (c, p)) := enforce_loop (max_size d) (_cache d) (_processing d) in
  (o, mkDedup (ttl_seconds d) (max_size d) c p).

(** [is_duplicate]; [now] is what [time.time()] returns in
    [_cleanup_expired]. *)
Definition is_duplicate (now : Z) (rid dev act : string)
           (d : RequestDeduplicator)
  : (bool * option RequestRecord) * RequestDeduplicator :=
  let d := _cleanup_expired now d in
  match od_get rid (_cache d) with
  | Some record =>
      let d := set_cache (od_move_to_end rid (_cache d)) d in
      if String.eqb (device_id record) dev && String.eqb (action record) act
      then ((true, Some record), d)
      else ((false, None), d)
  | None => ((false, None), d)
  end.

Definition mark_processing (now : Z) (rid dev act : string)
           (d : RequestDeduplicator)
  : outcome bool * RequestDeduplicator :=
  if bool_decide (rid ∈ _processing d) then (Returned false, d)
  else
    let d := set_processing (_processing d ∪ {[ rid ]}) d in
    let record := mkRequestRecord rid now dev act None true in
    let d := set_cache (od_set rid record (_cache d)) d in
    match _enforce_max_size d with
    | (Returned _, d) => (Returned true, d)
    | (Raised e, d) => (Raised e, d)
    end.

(** The update shared by [mark_completed] and [mark_failed]: the record
    is changed in place and then moved to the end. *)
Definition finish (now : Z) (rid : string) (res : dict)
           (d : RequestDeduplicator) : RequestDeduplicator :=
  let d := set_processing (_processing d ∖ {[ rid ]}) d in
  match od_get rid (_cache d) with
  | Some record =>
      let record :=
        mkRequestRecord (req_id record) now (device_id record)
                        (action record) (Some res) false in
      set_cache (od_move_to_end rid (od_set rid record (_cache d))) d
  | None => d
  end.

Definition mark_completed (now : Z) (rid : string) (res : option dict)
           (d : RequestDeduplicator) : RequestDeduplicator :=
  finish now rid (or_empty res) d.

Definition mark_failed (now : Z) (rid : string) (error : string)
           (d : RequestDeduplicator) : RequestDeduplicator :=
  finish now rid [("error", VStr error); ("success", VBool false)]%string d.

Definition get_result (rid : string) (d : RequestDeduplicator)
  : option dict * RequestDeduplicator :=
  match od_get rid (_cache d) with
  | Some record =>
      match processing record, result record with
      | false, Some res =>
          (Some res, set_cache (od_move_to_end rid (_cache d)) d)
      | _, _ => (None, d)
      end
  | None => (None, d)
  end.

Definition processing_response : dict :=
  [("status", VStr "processing");
   ("message", VStr "Request is currently being processed")]%string.

(** The module level [is_duplicate_request], with the global
    deduplicator passed explicitly. *)
Definition is_duplicate_request (now : Z) (rid dev act : string)
           (d : RequestDeduplicator)
  : (bool * option dict) * RequestDeduplicator :=
  let '((is_dup, record), d) := is_duplicate now rid dev act d in
  match is_dup, record with
  | true, Some record =>
      if processing record then ((true, Some processing_response), d)
      else if truthy_opt (result record) then ((true, result record), d)
      else ((false, None), d)
  | _, _ => ((false, None), d)
  end.

(** A call of one of the four state changing methods, with the clock
    reading it makes. *)
Inductive call : Type :=
| IsDuplicate (now : Z) (rid dev act : string)
| MarkProcessing (now : Z) (rid dev act : string)
| MarkCompleted (now : Z) (rid : string) (res : option dict)
| MarkFailed (now : Z) (rid : string) (error : string).

(** One call: the state it leaves, or the exception it raised. *)
Definition step (c : call) (d : RequestDeduplicator)
  : outcome RequestDeduplicator :=
  match c with
  | IsDuplicate now rid dev act =>
      Returned (snd (is_duplicate now rid dev act d))
  | MarkProcessing now rid dev act =>
      match mark_processing now rid dev act d with
      | (Returned _, d) => Returned d
      | (Raised e, _) => Raised e
      end
  | MarkCompleted now rid res => Returned (mark_completed now rid res d)
  | MarkFailed now rid error => Returned (mark_failed now rid error d)
  end.

Fixpoint run (cs : list call) (d : RequestDeduplicator)
  : outcome RequestDeduplicator :=
  match cs with
  | [] => Returned d
  | c :: cs' =>
      match step c d with
      | Returned d' => run cs' d'
      | Raised e => Raised e
      end
  end.

(** Keys of a dict are unique: the invariant of the list representation. *)
Definition wf (d : RequestDeduplicator) : Prop :=
  NoDup (List.map fst (_cache d)).

(** The size bound of the cache. *)
Definition within_capacity (d : RequestDeduplicator) : Prop :=
  Z.of_nat (length (_cache d)) <= max_size d.

(** *** States used in the examples

    A deduplicator with the default settings in which request [r1] for
    device [D1], action [start], is being processed. *)
Definition r1_processing : RequestDeduplicator :=
  snd (mark_processing 0 "r1" "D1" "start" (init 300 10000)).

(** [r1] completed with an empty result, one second later. *)
Definition r1_completed_empty : RequestDeduplicator :=
  mark_completed 1 "r1" (Some []) r1_processing.

(** Requests [A] (at time 0) and [B] (at time 10) are being processed and
    [A] has been checked again at time 20, which moved it behind [B]. *)
Definition a_behind_b : RequestDeduplicator :=
  snd (is_duplicate 20 "A" "D1" "start"
         (snd (mark_processing 10 "B" "D1" "start"
                 (snd (mark_processing 0 "A" "D1" "start" (init 300 10000)))))).

(** *** The other methods *)

(** [is_processing] *)
Definition is_processing (rid : string) (d : RequestDeduplicator) : bool :=
  bool_decide (rid ∈ _processing d).

(** [clear] *)
Definition clear (d : RequestDeduplicator) : RequestDeduplicator :=
  mkDedup (ttl_seconds d) (max_size d) [] ∅.

(** The counts that [stats] reports. *)
Record cache_stats : Type := mkCacheStats {
  stat_total_cached : nat;
  stat_processing : nat;
  stat_completed : nat;
  stat_expired : nat
}.

(** [stats]; [now] is its [time.time()] reading. *)
Definition stats (now : Z) (d : RequestDeduplicator) : cache_stats :=
  mkCacheStats
    (length (_cache d))
    (size (_processing d))
    (length (List.filter (fun kr => negb (processing (snd kr))) (_cache d)))
    (length (List.filter
               (fun kr => now - timestamp (snd kr) >? ttl_seconds d)
               (_cache d))).

(** The states the methods lead to from a new deduplicator.  A raising
    [mark_processing] leaves a state too. *)
Inductive reachable (ttl max : Z) : RequestDeduplicator -> Prop :=
| reach_init : reachable ttl max (init ttl max)
| reach_is_duplicate now rid dev act d :
    reachable ttl max d ->
    reachable ttl max (snd (is_duplicate now rid dev act d))
| reach_mark_processing now rid dev act d :
    reachable ttl max d ->
    reachable ttl max (snd (mark_processing now rid dev act d))
| reach_mark_completed now rid res d :
    reachable ttl max d ->
    reachable ttl max (mark_completed now rid res d)
| reach_mark_failed now rid error d :
    reachable ttl max d ->
    reachable ttl max (mark_failed now rid error d)
| reach_get_result rid d :
    reachable ttl max d ->
    reachable ttl max (snd (get_result rid d))
| reach_clear d :
    reachable ttl max d ->
    reachable ttl max (clear d).

(** The processing set holds the keys of the records flagged as
    processing. *)
Definition agree (c : ordered_dict) (p : gset string) : Prop :=
  forall rid : string,
    rid ∈ p <-> exists r, od_get rid c = Some r /\ processing r = true.

(** Every record is stored under its own request id. *)
Definition keyed_by_req_id (c : ordered_dict) : Prop :=
  forall (k : string) (r : RequestRecord), od_get k c = Some r -> req_id r = k.

Definition consistent (d : RequestDeduplicator) : Prop :=
  wf d /\ keyed_by_req_id (_cache d) /\ agree (_cache d) (_processing d).

(** What a decorated function does when it is called: it returns a
    result or raises an exception (a subclass of [Exception]) with a
    message. *)
Inductive behaviour : Type :=
| Gives (res : option dict)
| Throws (exc_class message : string).

(** The [wrapper] of [deduplicate_requests], for a call whose request
    information was extracted.  [t_check], [t_mark] and [t_done] are the
    clock readings of the check, of [mark_processing] and of
    [mark_completed] or [mark_failed].  The function itself does not use
    the deduplicator. *)
Definition wrapper (t_check t_mark t_done : Z) (rid dev act : string)
           (func : behaviour) (d : RequestDeduplicator)
  : outcome (option dict) * RequestDeduplicator :=
  let '((is_dup, cached_result), d) :=
    is_duplicate_request t_check rid dev act d in
  if is_dup && truthy_opt cached_result then (Returned cached_result, d)
  else
    match mark_processing t_mark rid dev act d with
    | (Raised e, d) => (Raised e, d)
    | (Returned false, d) => (Returned (Some processing_response), d)
    | (Returned true, d) =>
        match func with
        | Gives res => (Returned res, mark_completed t_done rid res d)
        | Throws exc_class message =>
            (Raised exc_class, mark_failed t_done rid message d)
        end
    end.

End Dedup.

(** ** db.py *)

Module Db.
Import Py.
Local Open Scope Z_scope.

(** A [DateTime] column value: microseconds since the epoch, UTC.  A
    [timedelta] is a number of microseconds. *)
Definition datetime : Type := Z.

Definition microseconds_per_day : Z := 86400000000.

(** [dt.replace(hour=0, minute=0, second=0, microsecond=0)] *)
Definition start_of_day (dt : datetime) : datetime :=
  dt - dt mod microseconds_per_day.

Record ModuleStatus : Type := mkModuleStatus {
  ms_id : string;
  ms_device_id : string;
  ms_module_name : string;
  ms_state : option string;
  ms_fields : option dict;
  ms_online : option bool;
  ms_timestamp : datetime
}.

Record Heartbeat : Type := mkHeartbeat {
  hb_id : string;
  hb_device_id : string;
  hb_online : option bool;
  hb_timestamp : datetime;
  hb_metadata : option dict
}.

Record Command : Type := mkCommand {
  id : string;
  req_id : string;
  device_id : string;
  module_name : option string;
  actor : option string;
  action : string;
  params : option dict;
  status : string;
  dispatched_at : option datetime;
  acked_at : option datetime;
  success : option bool;
  error_message : option string;
  response_details : option dict;
  duration_ms : option Z
}.

Record Event : Type := mkEvent {
  ev_id : string;
  ev_event_type : string;
  ev_device_id : option string;
  ev_module_name : option string;
  ev_actor : option string;
  ev_description : option string;
  ev_metadata : option dict;
  ev_timestamp : datetime
}.

(** The tables the modelled operations read or write, rows in insertion
    order. *)
Record Database : Type := mkDatabase {
  module_status : list ModuleStatus;
  heartbeats : list Heartbeat;
  commands : list Command;
  events : list Event
}.

Definition set_commands (cs : list Command) (db : Database) : Database :=
  mkDatabase (module_status db) (heartbeats db) cs (events db).

(** [session.query(Command).filter_by(req_id=req_id).first()] *)
Fixpoint first_by_req_id (rid : string) (rows : list Command)
  : option Command :=
  match rows with
  | [] => None
  | c :: rows' =>
      if String.eqb (req_id c) rid then Some c else first_by_req_id rid rows'
  end.

(** The UPDATE that [session.commit()] issues for the object [first()]
    returned. *)
Fixpoint update_first (rid : string) (c' : Command) (rows : list Command)
  : list Command :=
  match rows with
  | [] => []
  | c :: rows' =>
      if String.eqb (req_id c) rid then c' :: rows'
      else c :: update_first rid c' rows'
  end.

(** [record_command_dispatch].  [new_id] is the [uuid.uuid4()] default of
    the [id] column and [now] the [datetime.utcnow()] default of
    [dispatched_at]; the unique index on [req_id] rejects a second row
    for the same request. *)
Definition record_command_dispatch (new_id : string) (now : datetime)
           (rid dev module act_or act : string) (ps : dict) (db : Database)
  : outcome Command * Database :=
  match first_by_req_id rid (commands db) with
  | Some _ => (Raised "IntegrityError", db)
  | None =>
      let command :=
        mkCommand new_id rid dev (Some module) (Some act_or) act (Some ps)
                  "dispatched" (Some now) None None None (Some []) None in
      (Returned command, set_commands (commands db ++ [command]) db)
  end.

Section Gateway.

(** [int(timedelta(microseconds=d).total_seconds() * 1000)]: the
    conversion goes through floats and is a parameter of the gateway;
    [whole_ms] below computes it. *)
Variable ms_of_micros : Z -> Z.

(** The assignments of [record_command_ack] to the fetched row.
    [now_acked] and [now_duration] are its two [datetime.utcnow()]
    readings. *)
Definition acknowledge (ok : bool) (err : option string)
           (details : option dict) (now_acked now_duration : datetime)
           (c : Command) : Command :=
  mkCommand (id c) (req_id c) (device_id c) (module_name c) (actor c)
            (action c) (params c)
            (if ok then "acked" else "failed")
            (dispatched_at c)
            (Some now_acked)
            (Some ok)
            err
            (Some (or_empty details))
            (match dispatched_at c with
             | Some t => Some (ms_of_micros (now_duration - t))
             | None => duration_ms c
             end).

Definition record_command_ack (rid : string) (ok : bool)
           (err : option string) (details : option dict)
           (now_acked now_duration : datetime) (db : Database)
  : option Command * Database :=
  match first_by_req_id rid (commands db) with
  | None => (None, db)
  | Some command =>
      let command :=
        acknowledge ok err details now_acked now_duration command in
      (Some command, set_commands (update_first rid command (commands db)) db)
  end.

End Gateway.

(** The conversion as the code computes it: [total_seconds()] divides
    the microseconds by 10**6, a division of integers that is rounded
    once to a float; the product with 1000 is rounded again, and [int]
    drops the fraction.  A [timedelta] is bounded, and the product is
    finite. *)
Definition whole_ms (micros : Z) : Z :=
  match Float.mul (Float.round (inject_Z micros / 1000000))
                  (Float.Finite 1000) with
  | Float.Finite ms => Z.quot (Qnum ms) (Z.pos (Qden ms))
  | _ => 0
  end.

(** [datetime.timedelta] in db.py, where [datetime] is the class that
    [from datetime import datetime] (line 4) binds: the class has no
    attribute [timedelta], and the access raises [AttributeError]. *)
Definition datetime_timedelta : option (Z -> Z) := None.

(** The three DELETE statements and the commit. *)
Definition delete_older (cutoff : datetime) (db : Database) : Database :=
  mkDatabase
    (List.filter (fun s => negb (ms_timestamp s <? cutoff)) (module_status db))
    (List.filter (fun h => negb (hb_timestamp h <? cutoff)) (heartbeats db))
    (commands db)
    (List.filter (fun e => negb (ev_timestamp e <? cutoff)) (events db)).

(** [cleanup_old_records]: the second line raises before the session is
    opened. *)
Definition cleanup_old_records (now : datetime) (days : Z) (db : Database)
  : outcome unit * Database :=
  let cutoff := start_of_day now in
  match datetime_timedelta with
  | None => (Raised "AttributeError", db)
  | Some timedelta =>
      let cutoff := cutoff - timedelta days in
      (Returned tt, delete_older cutoff db)
  end.

(** The cutoff the specification asks for: the start of today (UTC)
    minus [days] days. *)
Definition spec_cutoff (now : datetime) (days : Z) : datetime :=
  start_of_day now - days * microseconds_per_day.

(** *** Rows used in the examples *)

Definition empty_database : Database := mkDatabase [] [] [] [].

(** The tables after request [r1] was dispatched at time 0. *)
Definition r1_dispatched : Database :=
  snd (record_command_dispatch "c-1" 0 "r1" "D1" "m" "api" "start" []
                               empty_database).

(** The tables after request [r2] was dispatched as well, at time 50. *)
Definition r1_r2_dispatched : Database :=
  snd (record_command_dispatch "c-2" 50 "r2" "D2" "m" "api" "start" []
                               r1_dispatched).

(** A heartbeat recorded at time 0, and a clock reading 100 days later. *)
Definition old_heartbeat : Heartbeat :=
  mkHeartbeat "h-1" "D1" (Some true) 0 (Some []).

Definition with_old_heartbeat : Database :=
  mkDatabase [] [old_heartbeat] (commands r1_dispatched) [].

Definition hundred_days_later : datetime := 100 * microseconds_per_day + 5.

(** *** Module status *)

(** The newest row of a list: the first row whose timestamp no other row
    exceeds. *)
Fixpoint newest (rows : list ModuleStatus) : option ModuleStatus :=
  match rows with
  | [] => None
  | s :: rows' =>
      match newest rows' with
      | Some s' => Some (if ms_timestamp s <? ms_timestamp s' then s' else s)
      | None => Some s
      end
  end.

(** [get_latest_module_status]: the rows of the device and module,
    ordered by timestamp with the newest first, and the first of them.
    Among rows with equal timestamps the database decides; the model
    takes the one stored first. *)
Definition get_latest_module_status (dev module : string) (db : Database)
  : option ModuleStatus :=
  newest (List.filter
            (fun s => String.eqb (ms_device_id s) dev
                      && String.eqb (ms_module_name s) module)
            (module_status db)).

End Db.

(** ** dead_letter.py *)

Module DeadLetter.
Import Py.
Local Open Scope Z_scope.

Inductive FailureReason : Type :=
| VALIDATION_ERROR
| DEVICE_UNREACHABLE
| MODULE_ERROR
| TIMEOUT
| PROCESSING_ERROR
| RETRY_EXHAUSTED
| SCHEMA_VIOLATION
| RESOURCE_LOCKED
| UNKNOWN_DEVICE
| UNKNOWN_MODULE.

Record DeadLetterMessage : Type := mkDeadLetterMessage {
  id : string;
  original_topic : string;
  payload : dict;
  failure_reason : FailureReason;
  error_message : string;
  device_id : option string;
  module_name : option string;
  req_id : option string;
  retry_count : Z;
  first_failed_at : string;
  last_failed_at : string;
  metadata : dict
}.

(** A call of [SharedMQTT.publish_json(topic, payload, qos, retain)]. *)
Record publication : Type := mkPublication {
  topic : string;
  body : dict;
  qos : Z;
  retain : bool
}.

(** [DeadLetterQueue.__init__(mqtt_client, max_retries=3)] *)
Definition default_max_retries : Z := 3.

(** [_get_dlq_message]: the body is a placeholder that returns [None]. *)
Definition _get_dlq_message (dlq_id : string) : option DeadLetterMessage :=
  None.

Section Queue.

(** [SharedMQTT] is not part of the sources at hand: whether its
    [publish_json] raises for a message is a parameter. *)
Variable publish_raises : string -> dict -> bool.

(** The lookup [retry_message] goes through, [self._get_dlq_message]. *)
Variable lookup : string -> option DeadLetterMessage.

(** The assignments to [retry_count] and [last_failed_at]. *)
Definition bump (now_iso : string) (m : DeadLetterMessage)
  : DeadLetterMessage :=
  mkDeadLetterMessage (id m) (original_topic m) (payload m)
    (failure_reason m) (error_message m) (device_id m) (module_name m)
    (req_id m) (retry_count m + 1) (first_failed_at m) now_iso (metadata m).

(** The body of [retry_message].  It gives the returned flag, the
    [publish_json] calls made and the record handed to
    [_update_dlq_message], if that call is reached.  [now_iso] is
    [datetime.utcnow().isoformat() + 'Z'].  An exception raised in the
    [try] block is caught and turned into [False]. *)
Definition retry_message_with (max_retries : Z) (dlq_id now_iso : string)
  : bool * list publication * option DeadLetterMessage :=
  match lookup dlq_id with
  | None => (false, [], None)
  | Some dlq_message =>
      if retry_count dlq_message >=? max_retries then (false, [], None)
      else
        let p := mkPublication (original_topic dlq_message)
                               (payload dlq_message) 1 false in
        if publish_raises (original_topic dlq_message) (payload dlq_message)
        then (false, [p], None)
        else (true, [p], Some (bump now_iso dlq_message))
  end.

End Queue.

(** [retry_message] as the class has it: the lookup is
    [_get_dlq_message], and [_update_dlq_message] is a placeholder that
    stores nothing, so the flag and the publications are all that can be
    observed. *)
Definition retry_message (publish_raises : string -> dict -> bool)
           (max_retries : Z) (dlq_id now_iso : string)
  : bool * list publication :=
  fst (retry_message_with publish_raises _get_dlq_message
                          max_retries dlq_id now_iso).

(** *** Records used in the examples *)

(** A command that timed out, never retried. *)
Definition timed_out_command : DeadLetterMessage :=
  mkDeadLetterMessage "dlq-1" "/lab/device/D1/m/cmd"
    [("req_id", VStr "r2"); ("action", VStr "start")]%string
    TIMEOUT "Command timed out after 30 seconds"
    (Some "D1") (Some "m") (Some "r2") 0
    "2024-01-01T00:00:00Z" "2024-01-01T00:00:00Z" [].

(** A client whose [publish_json] never raises. *)
Definition never_raises (topic : string) (body : dict) : bool := false.

(** A lookup that finds one stored record by its id. *)
Definition stored (m : DeadLetterMessage) (dlq_id : string)
  : option DeadLetterMessage :=
  if String.eqb dlq_id (id m) then Some m else None.

(** *** Sending to the queue *)

(** [bool(s)] for an optional string: [None] and the empty string are
    false. *)
Definition given (s : option string) : bool :=
  match s with
  | Some s => negb (String.eqb s "")
  | None => false
  end.

(** The topic [send_to_dlq] publishes on. *)
Definition dlq_topic (device_id module_name : option string) : string :=
  if given device_id && given module_name
  then "/lab/dlq/" ++ default "" device_id ++ "/" ++ default "" module_name
  else if given device_id
  then "/lab/dlq/" ++ default "" device_id ++ "/device"
  else "/lab/dlq/orchestrator".

(** The value of a member of the [FailureReason] enumeration. *)
Definition reason_value (r : FailureReason) : string :=
  match r with
  | VALIDATION_ERROR => "validation_error"
  | DEVICE_UNREACHABLE => "device_unreachable"
  | MODULE_ERROR => "module_error"
  | TIMEOUT => "timeout"
  | PROCESSING_ERROR => "processing_error"
  | RETRY_EXHAUSTED => "retry_exhausted"
  | SCHEMA_VIOLATION => "schema_violation"
  | RESOURCE_LOCKED => "resource_locked"
  | UNKNOWN_DEVICE => "unknown_device"
  | UNKNOWN_MODULE => "unknown_module"
  end.

(** The [publish_json] call of [send_to_dlq]: the topic and
    [asdict(dlq_message)].  [new_id] is the [uuid.uuid4()] and [first]
    and [last] are the two timestamps.  The record takes the given
    [req_id], or the one of the payload when none is given. *)
Definition send_to_dlq (new_id first last : string)
           (original_topic : string) (payload : dict)
           (failure_reason : FailureReason) (error_message : string)
           (device_id module_name req_id : option string)
           (retry_count : Z) (metadata : option dict) : publication :=
  mkPublication
    (dlq_topic device_id module_name)
    [("id", VStr new_id);
     ("original_topic", VStr original_topic);
     ("payload", VDict payload);
     ("failure_reason", VStr (reason_value failure_reason));
     ("error_message", VStr error_message);
     ("device_id", opt_str device_id);
     ("module_name", opt_str module_name);
     ("req_id", if given req_id then opt_str req_id
                else default VNone (dict_get "req_id" payload));
     ("retry_count", VInt retry_count);
     ("first_failed_at", VStr first);
     ("last_failed_at", VStr last);
     ("metadata", VDict (or_empty metadata))]
    1 false.

(** A string without a slash. *)
Fixpoint slash_free (s : string) : bool :=
  match s with
  | EmptyString => true
  | String c s' => negb (Ascii.eqb c "/") && slash_free s'
  end.

(** *** Operator commands *)

(** [get_dlq_stats] *)
Definition get_dlq_stats : dict :=
  [("total_messages", VInt 0);
   ("by_failure_reason", VDict []);
   ("by_device", VDict []);
   ("by_module", VDict []);
   ("oldest_message", VNone);
   ("newest_message", VNone)].

(** Whether [get_dlq_messages] can be called with [filters] unpacked
    into keyword arguments: [filters] has to be a mapping whose keys are
    parameters of the method.  The call raises [TypeError] otherwise; it
    returns the empty list when it goes through. *)
Definition filters_accepted (filters : value) : bool :=
  match filters with
  | VDict items =>
      forallb (fun kv =>
                 String.eqb (fst kv) "device_id"
                 || String.eqb (fst kv) "module_name"
                 || String.eqb (fst kv) "failure_reason"
                 || String.eqb (fst kv) "limit") items
  | _ => false
  end.

Section Handler.

(** What [publish_json] does with a message: [None] when it goes
    through, the class and the text of the exception when it raises. *)
Variable publish_error : string -> dict -> option (string * string).

Definition refuses (topic : string) (body : dict) : bool :=
  match publish_error topic body with
  | Some _ => true
  | None => false
  end.

(** [str(e)] for the [TypeError] of a refused [filters] value. *)
Variable type_error_text : value -> string.

(** [str(v)], the text an f-string puts for a value *)
Variable py_str : value -> string.

Variable max_retries : Z.

(** The [retry_message] call of the [retry] action.  The lookup ignores
    its argument, which need not be a string. *)
Definition retry_of (dlq_id : value) (now_iso : string)
  : bool * list publication :=
  match dlq_id with
  | VStr s => retry_message refuses max_retries s now_iso
  | _ => (false, [])
  end.

(** [action == text], for the value [payload.get("action")] gave *)
Definition is_text (action : option value) (text : string) : bool :=
  match action with
  | Some (VStr a) => String.eqb a text
  | _ => false
  end.

(** The response the [try] block builds, before [req_id] and [ts] are
    added, with the publications made on the way; [inr] is the
    [TypeError] of the [list] action. *)
Definition response_for (payload : dict) (now_iso : string)
  : list publication * (dict + string) :=
  let action := dict_get "action" payload in
  if is_text action "retry" then
    let dlq_id := default VNone (dict_get "dlq_id" payload) in
    if truthy_value dlq_id then
      let '(success, published) := retry_of dlq_id now_iso in
      (published,
       inl [("action", VStr "retry"); ("dlq_id", dlq_id);
            ("success", VBool success)])
    else
      ([], inl [("action", VStr "retry"); ("error", VStr "Missing dlq_id")])
  else if is_text action "purge" then
    ([], inl [("action", VStr "purge"); ("success", VBool true)])
  else if is_text action "stats" then
    ([], inl [("action", VStr "stats"); ("stats", VDict get_dlq_stats)])
  else if is_text action "list" then
    let filters := default (VDict []) (dict_get "filters" payload) in
    if filters_accepted filters
    then ([], inl [("action", VStr "list"); ("messages", VList []);
                   ("count", VInt 0)])
    else ([], inr (type_error_text filters))
  else
    ([], inl [("error",
               VStr ("Unknown action: " ++ py_str (default VNone action)))]).

(** The response of the [except] block. *)
Definition error_response (payload : dict) (text now_iso : string) : dict :=
  [("error", VStr text);
   ("req_id", default (VStr "") (dict_get "req_id" payload));
   ("ts", VStr now_iso)].

(** The [except] block: it publishes the error response, and an
    exception of that publication escapes. *)
Definition report_error (payload : dict) (text later_iso : string)
  : list publication * outcome unit :=
  let r := error_response payload text later_iso in
  ([mkPublication "/lab/dlq/response" r 1 false],
   match publish_error "/lab/dlq/response" r with
   | Some (exc_class, _) => Raised exc_class
   | None => Returned tt
   end).

(** [_handle_dlq_command]: the [publish_json] calls it makes, in order,
    and how it ends.  [now_iso] and [later_iso] are the timestamps of the
    [try] and of the [except] block. *)
Definition _handle_dlq_command (payload : dict) (now_iso later_iso : string)
  : list publication * outcome unit :=
  let '(published, built) := response_for payload now_iso in
  match built with
  | inl response =>
      let response :=
        dict_set "ts" (VStr now_iso)
          (dict_set "req_id" (default (VStr "") (dict_get "req_id" payload))
                    response) in
      let p := mkPublication "/lab/dlq/response" response 1 false in
      match publish_error "/lab/dlq/response" response with
      | Some (_, text) =>
          let '(ps, o) := report_error payload text later_iso in
          (published ++ p :: ps, o)
      | None => (published ++ [p], Returned tt)
      end
  | inr text =>
      let '(ps, o) := report_error payload text later_iso in
      (published ++ ps, o)
  end.

End Handler.

(** A client whose publications all go through, and stand-ins for the
    texts of [str]. *)
Definition always_published (topic : string) (body : dict)
  : option (string * string) := None.

Definition some_text (v : value) : string := "...".

End DeadLetter.

(** ** retry.py *)

Module Retry.
Import Py Float.
Local Open Scope Q_scope.

(** The numeric fields of [RetryConfig].  The delays and the factors
    are floats, as declared and as every configuration of retry.py
    gives them. *)
Record RetryConfig : Type := mkRetryConfig {
  max_attempts : Z;
  base_delay : float;
  max_delay : float;
  exponential_base : float;
  jitter : bool;
  jitter_factor : float
}.

(** The float the literal [0.1] denotes *)
Definition one_tenth : float :=
  Finite (3602879701896397 # 36028797018963968).

(** [RetryConfig()] *)
Definition default_config : RetryConfig :=
  mkRetryConfig 3 (Finite 1) (Finite 60) (Finite 2) true one_tenth.

(** [random.uniform(a, b)] is [a + (b - a) * self.random()]; [sample]
    is the value of [random()], a float in [[0, 1)]. *)
Definition uniform (a b sample : float) : float :=
  add a (mul (sub b a) sample).

Section Power.

(** [x ** k] for a float and an int: the float, or the exception the
    operator raises, [OverflowError] when the result leaves the range
    of the floats and [ZeroDivisionError] for zero to a negative power.
    The last bit of the result is that of the [pow] of the platform: a
    parameter here; [pow_rounded] below is an instance. *)
Variable float_pow : float -> Z -> outcome float.

(** [calculate_delay].  [max(0, x)] keeps the 0 unless [x] is greater,
    and [min(delay, max_delay)] the delay unless [max_delay] is
    smaller. *)
Definition calculate_delay (cfg : RetryConfig) (attempt : Z) (sample : float)
  : outcome float :=
  match float_pow (exponential_base cfg) (attempt - 1) with
  | Raised exc => Raised exc
  | Returned power =>
      let delay := mul (base_delay cfg) power in
      let delay := min delay (max_delay cfg) in
      if jitter cfg then
        let jitter_range := mul delay (jitter_factor cfg) in
        let jitter := uniform (neg jitter_range) jitter_range sample in
        Returned (max (Finite 0) (add delay jitter))
      else Returned delay
  end.

End Power.

(** An instance of [**]: the exponent is converted to a float, and the
    power is rounded once. *)
Definition pow_rounded (x : float) (k : Z) : outcome float :=
  match round (inject_Z k) with
  | Finite exponent =>
      let k := Qfloor exponent in
      if (k =? 0)%Z then Returned (Finite 1)
      else
        match x with
        | NaN => Returned NaN
        | Infinity negative =>
            Returned (if (k <? 0)%Z then Finite 0
                      else Infinity (negative && Z.odd k))
        | Finite q =>
            if is_zero q then
              if (k <? 0)%Z then Raised "ZeroDivisionError"
              else Returned (Finite 0)
            else
              match round (q ^ k) with
              | Infinity _ => Raised "OverflowError"
              | power => Returned power
              end
        end
  | _ => Raised "OverflowError"
  end.


(** *** The retry loops *)

(** How a retried call ends: with the result of the function, with the
    exception of the function raised again, with a [RetryError] that
    carries the last exception and [max_attempts], with an exception of
    [calculate_delay] or of [time.sleep], or, for [execute] only, by
    falling out of the loop and returning [None]. *)
Inductive ending (A E : Type) : Type :=
| Result (a : A)
| Reraised (e : E)
| Exhausted (last_exception : option E) (attempt_count : Z)
| DelayRaised (exc : string)
| SleepRaised (exc : string) (delay : float)
| ReturnedNone.
Arguments Result {A E} a.
Arguments Reraised {A E} e.
Arguments Exhausted {A E} last_exception attempt_count.
Arguments DelayRaised {A E} exc.
Arguments SleepRaised {A E} exc delay.
Arguments ReturnedNone {A E}.

(** What a retried call did: the attempts at which the function was
    called, the delays slept, and the ending. *)
Record trace (A E : Type) : Type := mkTrace {
  calls : list Z;
  sleeps : list float;
  final : ending A E
}.
Arguments mkTrace {A E} calls sleeps final.
Arguments calls {A E} t.
Arguments sleeps {A E} t.
Arguments final {A E} t.

Section Loops.

(** Results of the function and the exceptions it raises (subclasses of
    [Exception]). *)
Variables A E : Type.

Variable cfg : RetryConfig.

(** [isinstance(e, cfg.non_retriable_exceptions)] and
    [isinstance(e, cfg.retriable_exceptions)] *)
Variables non_retriable retriable : E -> bool.

(** What the function does when it is called at a given attempt, and the
    sample [random.random()] gives for the delay after that attempt. *)
Variable func : Z -> A + E.
Variable sample : Z -> float.

Variable float_pow : float -> Z -> outcome float.

(** [time.sleep(delay)]: the class of the exception it raises, if any
    ([ValueError] for a negative delay or a NaN, [OverflowError] for a
    delay beyond what the platform can wait for).  Standard library, a
    parameter here; [sleep_error_of] below is an instance. *)
Variable sleep_error : float -> option string.

Definition is_retriable_exception (e : E) : bool :=
  if non_retriable e then false else retriable e.

(** The delay after an attempt, and an attempt that fails with a
    retriable exception. *)
Definition delay_at (i : Z) : outcome float :=
  calculate_delay float_pow cfg i (sample i).

Definition retriable_failure (i : Z) : Prop :=
  exists e, func i = inr e /\ is_retriable_exception e = true.

(** The delay after attempt [i] is computed and slept. *)
Definition waits (i : Z) (delay : float) : Prop :=
  delay_at i = Returned delay /\ sleep_error delay = None.

Definition called (attempt : Z) (t : trace A E) : trace A E :=
  mkTrace (attempt :: calls t) (sleeps t) (final t).

Definition slept (delay : float) (t : trace A E) : trace A E :=
  mkTrace (calls t) (delay :: sleeps t) (final t).

(** The [for] loop of the [wrapper] of [retry_sync], from [attempt] on
    with [remaining] iterations to go; [last] is [last_exception].  No
    logger is configured.  An exception of [calculate_delay] or of
    [time.sleep] is raised inside the [except] clause and leaves the
    wrapper. *)
Fixpoint sync_from (remaining : nat) (attempt : Z) (last : option E)
  : trace A E :=
  match remaining with
  | O => mkTrace [] [] (Exhausted last (max_attempts cfg))
  | S remaining' =>
      match func attempt with
      | inl a => mkTrace [attempt] [] (Result a)
      | inr e =>
          if negb (is_retriable_exception e)
          then mkTrace [attempt] [] (Reraised e)
          else if (attempt <? max_attempts cfg)%Z
          then
            match calculate_delay float_pow cfg attempt (sample attempt) with
            | Raised exc => mkTrace [attempt] [] (DelayRaised exc)
            | Returned delay =>
                match sleep_error delay with
                | Some exc => mkTrace [attempt] [] (SleepRaised exc delay)
                | None =>
                    called attempt
                      (slept delay
                         (sync_from remaining' (attempt + 1)%Z (Some e)))
                end
            end
          else called attempt (sync_from remaining' (attempt + 1)%Z (Some e))
      end
  end.

(** [range(1, max_attempts + 1)] has [max_attempts] elements, none when
    [max_attempts] is not positive. *)
Definition retry_sync : trace A E :=
  sync_from (Z.to_nat (max_attempts cfg)) 1%Z None.

(** The loop of [RetryableOperation.execute]: each iteration calls the
    function inside [with self], and [__exit__] decides. *)
Fixpoint execute_from (remaining : nat) (attempt : Z) : trace A E :=
  match remaining with
  | O => mkTrace [] [] ReturnedNone
  | S remaining' =>
      match func attempt with
      | inl a => mkTrace [attempt] [] (Result a)
      | inr e =>
          if negb (is_retriable_exception e)
          then mkTrace [attempt] [] (Reraised e)
          else if (attempt <? max_attempts cfg)%Z
          then
            match calculate_delay float_pow cfg attempt (sample attempt) with
            | Raised exc => mkTrace [attempt] [] (DelayRaised exc)
            | Returned delay =>
                match sleep_error delay with
                | Some exc => mkTrace [attempt] [] (SleepRaised exc delay)
                | None =>
                    called attempt
                      (slept delay (execute_from remaining' (attempt + 1)%Z))
                end
            end
          else mkTrace [attempt] [] (Exhausted (Some e) (max_attempts cfg))
      end
  end.

Definition execute : trace A E :=
  execute_from (Z.to_nat (max_attempts cfg)) 1%Z.

End Loops.

(** An instance of [time.sleep], as CPython 3.11 on Linux behaves: a NaN
    and a negative delay are refused with [ValueError], and a delay whose
    nanoseconds do not fit 64 bits with [OverflowError], which is looked
    at first.  Within a microsecond of the limit of 2^63 nanoseconds the
    platform answers with other exceptions; the facts about the loops
    hold for any [sleep_error] and use this instance in examples only. *)
Definition sleep_error_of (delay : float) : option string :=
  match delay with
  | NaN => Some "ValueError"%string
  | Infinity _ => Some "OverflowError"%string
  | Finite seconds =>
      match mul delay (Finite 1000000000) with
      | Finite nanoseconds =>
          if Qle_bool (2 ^ 63) nanoseconds
             || negb (Qle_bool (- 2 ^ 63) nanoseconds)
          then Some "OverflowError"%string
          else if is_negative seconds then Some "ValueError"%string
          else None
      | _ => Some "OverflowError"%string
      end
  end.

(** The value of a finite float, and the time a retried call spends
    asleep: the sum of its delays. *)
Definition value (a : float) : Q :=
  match a with
  | Finite q => q
  | _ => 0
  end.

Definition total_wait (delays : list float) : Q :=
  fold_right (fun delay total => value delay + total) 0 delays.

(** A function that fails twice with a timeout and then succeeds, every
    exception being retriable, with the sample one half. *)
Definition third_time_lucky (attempt : Z) : string + string :=
  if (attempt <? 3)%Z then inr "TimeoutError"%string else inl "ok"%string.

(** Every exception is retriable and none is excluded, as with
    [RetryConfig()]; the sample is always one half. *)
Definition nothing_excluded (e : string) : bool := false.
Definition everything_retriable (e : string) : bool := true.
Definition half (attempt : Z) : float := Finite (1 # 2).
Definition quarter (attempt : Z) : float := Finite (1 # 4).

(** The delays of the default configuration with the sample a quarter. *)
Definition default_delays (attempt : Z) : float :=
  match calculate_delay pow_rounded default_config attempt
                        (quarter attempt) with
  | Returned delay => delay
  | Raised _ => NaN
  end.

(** A configuration that allows no attempt. *)
Definition no_attempts : RetryConfig :=
  mkRetryConfig 0 (Finite 1) (Finite 60) (Finite 2) true one_tenth.

(** A function that times out at every attempt. *)
Definition always_times_out (attempt : Z) : string + string :=
  inr "TimeoutError"%string.

(** The default configuration without jitter. *)
Definition without_jitter : RetryConfig :=
  mkRetryConfig 3 (Finite 1) (Finite 60) (Finite 2) false one_tenth.

End Retry.

(** ** schema.py *)

Module Schema.
Import Py.
Local Open Scope Z_scope.

(** A Python [str] is a Rocq string with one character per code point;
    the model covers the code points below 256. *)

(** [len(s.encode('utf-8'))]: a code point below 128 takes one byte, one
    from 128 to 255 takes two. *)
Fixpoint utf8_length (s : string) : Z :=
  match s with
  | EmptyString => 0
  | String c s' =>
      (if (N_of_ascii c <? 128)%N then 1 else 2) + utf8_length s'
  end.

(** [c.isspace()] on these code points *)
Definition isspace (c : ascii) : bool :=
  let n := N_of_ascii c in
  ((9 <=? n) && (n <=? 13) || (28 <=? n) && (n <=? 32)
   || (n =? 133) || (n =? 160))%N.

Fixpoint lstrip (l : list ascii) : list ascii :=
  match l with
  | [] => []
  | c :: l' => if isspace c then lstrip l' else l
  end.

(** [s.strip()] *)
Definition strip (s : string) : string :=
  string_of_list_ascii
    (rev (lstrip (rev (lstrip (list_ascii_of_string s))))).

(** [s.endswith('Z')] and [s[:-1]] *)
Definition ends_with_Z (s : string) : bool :=
  match rev (list_ascii_of_string s) with
  | c :: _ => Ascii.eqb c "Z"
  | [] => false
  end.

Definition drop_last (s : string) : string :=
  string_of_list_ascii (removelast (list_ascii_of_string s)).

(** The result of validating one field: the value to store, or the
    message of the [ValueError] the validation raised. *)
Inductive validation (A : Type) : Type :=
| Valid (a : A)
| Invalid (message : string).
Arguments Valid {A} a.
Arguments Invalid {A} message.

(** [Field(..., min_length=lo, max_length=hi)] on a [str] *)
Definition check_length (lo hi : Z) (v : string) : validation string :=
  let n := Z.of_nat (String.length v) in
  if n <? lo
  then Invalid ("ensure this value has at least " ++ pretty lo ++ " characters")
  else if hi <? n
  then Invalid ("ensure this value has at most " ++ pretty hi ++ " characters")
  else Valid v.

(** Run a class validator after the field constraints have passed. *)
Definition and_then {A B : Type} (x : validation A) (f : A -> validation B)
  : validation B :=
  match x with
  | Valid a => f a
  | Invalid m => Invalid m
  end.

Definition validate_actor (v : string) : validation string :=
  if String.eqb v "api" || String.eqb v "orchestrator" || String.eqb v "user"
  then Valid v
  else if String.prefix "host:" v then Valid v
  else Invalid ("Invalid actor: " ++ v
                ++ ". Must be one of: api, orchestrator, user, or host:*").

Definition validate_action (v : string) : validation string :=
  if String.eqb (strip v) "" then Invalid "Action cannot be empty"
  else Valid (strip v).

Section Library.

(** [datetime.fromisoformat(s)] parses ([true]) or raises [ValueError]:
    standard library, a parameter here. *)
Variable fromisoformat_ok : string -> bool.

(** [json.dumps(v)]: the text, or [None] when it raises [TypeError] or
    [ValueError].  Standard library, a parameter here; [dumps] below is
    an instance. *)
Variable json_dumps : dict -> option string.

Definition validate_timestamp (v : string) : validation string :=
  if fromisoformat_ok
       (if ends_with_Z v then drop_last v ++ "+00:00" else v)%string
  then Valid v
  else Invalid ("Invalid timestamp format: " ++ v ++ ". Must be ISO 8601.").

(** [validate_params_size].  The [ValueError] raised inside the [try] is
    caught by the [except] clause and raised again, since its text
    contains "too large"; any other [TypeError] or [ValueError] is
    replaced. *)
Definition validate_params_size (v : dict) : validation dict :=
  match json_dumps v with
  | Some serialized =>
      if utf8_length serialized >? 64 * 1024
      then Invalid "Params too large (>64KB)"
      else Valid v
  | None => Invalid "Params must be JSON serializable"
  end.

(** The fields of a command message as they reach the model, already of
    the declared types.  [params] may be left out; the other fields are
    required. *)
Record command_input : Type := mkCommandInput {
  in_req_id : string;
  in_actor : string;
  in_ts : string;
  in_action : string;
  in_params : option dict
}.

Record MQTTCommandEnvelope : Type := mkMQTTCommandEnvelope {
  req_id : string;
  actor : string;
  ts : string;
  action : string;
  params : dict
}.

Definition field_req_id (i : command_input) : validation string :=
  check_length 1 255 (in_req_id i).

Definition field_actor (i : command_input) : validation string :=
  and_then (check_length 1 100 (in_actor i)) validate_actor.

Definition field_ts (i : command_input) : validation string :=
  validate_timestamp (in_ts i).

Definition field_action (i : command_input) : validation string :=
  and_then (check_length 1 100 (in_action i)) validate_action.

(** A field that is left out takes its default and its validator is not
    run. *)
Definition field_params (i : command_input) : validation dict :=
  match in_params i with
  | Some v => validate_params_size v
  | None => Valid []
  end.

Definition error_of {A : Type} (field : string) (x : validation A)
  : list (string * string) :=
  match x with
  | Valid _ => []
  | Invalid m => [(field, m)]
  end.

(** Construction of an [MQTTCommandEnvelope]: the model, or the errors of the
    [ValidationError], one per failing field. *)
Definition validate_command (i : command_input)
  : MQTTCommandEnvelope + list (string * string) :=
  match field_req_id i, field_actor i, field_ts i, field_action i,
        field_params i with
  | Valid r, Valid a, Valid t, Valid act, Valid p =>
      inl (mkMQTTCommandEnvelope r a t act p)
  | r, a, t, act, p =>
      inr (error_of "req_id" r ++ error_of "actor" a ++ error_of "ts" t
           ++ error_of "action" act ++ error_of "params" p)
  end.

End Library.

(** *** An instance of [json.dumps] on [Py.value]

    Default settings: [ensure_ascii=True], separators [", "] and
    [": "]. *)

Definition hex_digit (n : N) : ascii :=
  ascii_of_N (if (n <? 10)%N then 48 + n else 87 + n)%N.

(** The replacement of one character in [encode_basestring_ascii]. *)
Definition escape_char (c : ascii) : string :=
  let n := N_of_ascii c in
  if (n =? 34)%N then String "\" (String "034" EmptyString)
  else if (n =? 92)%N then "\\"
  else if (n =? 10)%N then "\n"
  else if (n =? 13)%N then "\r"
  else if (n =? 9)%N then "\t"
  else if (n =? 8)%N then "\b"
  else if (n =? 12)%N then "\f"
  else if ((32 <=? n) && (n <=? 126))%N then String c EmptyString
  else ("\u00" ++ String (hex_digit (n / 16)) (String (hex_digit (n mod 16)) EmptyString))%string.

Fixpoint escape (s : string) : string :=
  match s with
  | EmptyString => EmptyString
  | String c s' => (escape_char c ++ escape s')%string
  end.

Definition quote (s : string) : string :=
  (String "034" (escape s) ++ String "034" EmptyString)%string.

(** [", ".join(parts)] *)
Fixpoint join (parts : list string) : string :=
  match parts with
  | [] => EmptyString
  | [p] => p
  | p :: rest => (p ++ ", " ++ join rest)%string
  end.

(** All results, or [None] if one is missing. *)
Fixpoint all_some (l : list (option string)) : option (list string) :=
  match l with
  | [] => Some []
  | Some x :: l' =>
      match all_some l' with
      | Some xs => Some (x :: xs)
      | None => None
      end
  | None :: _ => None
  end.

(** The text of a float: its [repr], and the JavaScript names for the
    infinities and NaN, which [allow_nan] lets through. *)
Definition float_text (repr : string) : string :=
  if String.eqb repr "inf" then "Infinity"
  else if String.eqb repr "-inf" then "-Infinity"
  else if String.eqb repr "nan" then "NaN"
  else repr.

Fixpoint dumps_value (v : value) : option string :=
  match v with
  | VNone => Some "null"%string
  | VBool true => Some "true"%string
  | VBool false => Some "false"%string
  | VInt n => Some (pretty n)
  | VFloat repr => Some (float_text repr)
  | VStr s => Some (quote s)
  | VList items =>
      match all_some (List.map dumps_value items) with
      | Some parts => Some ("[" ++ join parts ++ "]")%string
      | None => None
      end
  | VDict items =>
      match all_some
              (List.map (fun kv =>
                 match dumps_value (snd kv) with
                 | Some t => Some (quote (fst kv) ++ ": " ++ t)%string
                 | None => None
                 end) items) with
      | Some parts => Some ("{" ++ join parts ++ "}")%string
      | None => None
      end
  | VObject _ => None
  end.

Definition dumps (d : dict) : option string := dumps_value (VDict d).

(** *** Inputs used in the examples *)

Definition is_valid {A : Type} (x : validation A) : bool :=
  match x with
  | Valid _ => true
  | Invalid _ => false
  end.

(** The four fields other than [params] pass their validation. *)
Definition other_fields_valid (fromisoformat_ok : string -> bool)
           (i : command_input) : bool :=
  is_valid (field_req_id i) && is_valid (field_actor i)
  && is_valid (field_ts fromisoformat_ok i) && is_valid (field_action i).

Fixpoint padding (n : nat) : string :=
  match n with
  | O => EmptyString
  | S n' => String "a" (padding n')
  end.

(** A params map with one string of [n] letters; its serialisation has
    [9 + n] bytes. *)
Definition params_of_size (n : Z) : dict :=
  [("k"%string, VStr (padding (Z.to_nat n)))].

(** A stand-in for [datetime.fromisoformat] that knows one timestamp. *)
Definition parses_new_year (s : string) : bool :=
  String.eqb s "2024-01-01T00:00:00+00:00".

Definition command_with (ps : dict) : command_input :=
  mkCommandInput "r1" "api" "2024-01-01T00:00:00Z" "start" (Some ps).

End Schema.

(** ** Projector parameters *)

Module Projector.
Import Py Schema.
Local Open Scope Z_scope.

Definition line_feed : string := String "010" EmptyString.

(** [re.match] of a pattern [^(a|b|...)$], as the [regex] of a field
    is applied: the text is one of the alternatives, or one of them
    followed by a line feed, since [$] also matches before a line feed
    that ends the text. *)
Definition matches_alternatives (alternatives : list string) (v : string)
  : bool :=
  existsb (fun a => String.eqb v a || String.eqb v (a ++ line_feed))
          alternatives.

(** The text of the pattern: [^(a|b|...)$] *)
Fixpoint bars (alternatives : list string) : string :=
  match alternatives with
  | [] => EmptyString
  | [a] => a
  | a :: rest => a ++ "|" ++ bars rest
  end.

Definition pattern_of (alternatives : list string) : string :=
  "^(" ++ bars alternatives ++ ")$".

(** An optional [str] field with a [regex]; [None] is not checked. *)
Definition check_regex (alternatives : list string) (v : option string)
  : validation (option string) :=
  match v with
  | None => Valid None
  | Some s =>
      if matches_alternatives alternatives s then Valid (Some s)
      else Invalid ("string does not match regex "
                    ++ String "034" (pattern_of alternatives)
                    ++ String "034" EmptyString)
  end.

(** An optional [str] field with a [max_length] *)
Definition check_max_length (hi : Z) (v : option string)
  : validation (option string) :=
  match v with
  | None => Valid None
  | Some s =>
      if hi <? Z.of_nat (String.length s)
      then Invalid ("ensure this value has at most " ++ pretty hi
                    ++ " characters")
      else Valid (Some s)
  end.

(** [Field(None, ge=lo, le=hi)] on an [int] *)
Definition check_range (lo hi v : Z) : validation Z :=
  if v <? lo
  then Invalid ("ensure this value is greater than or equal to " ++ pretty lo)
  else if hi <? v
  then Invalid ("ensure this value is less than or equal to " ++ pretty hi)
  else Valid v.

(** [adjustment in [...]], for the value [values.get('adjustment')]
    gave *)
Definition is_one_of (v : option string) (choices : list string) : bool :=
  match v with
  | Some s => existsb (String.eqb s) choices
  | None => false
  end.

(** [validate_adjustment_value] on a value that is not [None] *)
Definition validate_adjustment_value (v : Z) (adjustment : option string)
  : validation Z :=
  if is_one_of adjustment ["H-KEYSTONE"; "V-KEYSTONE"]%string then
    if negb ((-40 <=? v) && (v <=? 40))
    then Invalid "Keystone value must be between -40 and 40"
    else Valid v
  else if is_one_of adjustment ["H-IMAGE-SHIFT"; "V-IMAGE-SHIFT"]%string then
    if negb ((-100 <=? v) && (v <=? 100))
    then Invalid "Image shift value must be between -100 and 100"
    else Valid v
  else Valid v.

(** The parameters as they reach the model, already of the declared
    types; an optional field is [None] when it is left out or null. *)
Record projector_input : Type := mkProjectorInput {
  in_device_id : string;
  in_input : option string;
  in_ratio : option string;
  in_direction : option string;
  in_adjustment : option string;
  in_value : option Z;
  in_command : option string
}.

Record ProjectorCommandParams : Type := mkProjectorCommandParams {
  device_id : string;
  input : option string;
  ratio : option string;
  direction : option string;
  adjustment : option string;
  value : option Z;
  command : option string
}.

Definition field_device_id (i : projector_input) : validation string :=
  check_length 1 255 (in_device_id i).

Definition field_input (i : projector_input) : validation (option string) :=
  check_regex ["HDMI1"; "HDMI2"]%string (in_input i).

Definition field_ratio (i : projector_input) : validation (option string) :=
  check_regex ["4:3"; "16:9"]%string (in_ratio i).

Definition field_direction (i : projector_input)
  : validation (option string) :=
  check_regex ["UP"; "DOWN"; "LEFT"; "RIGHT"; "ENTER"; "MENU"; "BACK"]%string
              (in_direction i).

Definition field_adjustment (i : projector_input)
  : validation (option string) :=
  check_regex
    ["H-IMAGE-SHIFT"; "V-IMAGE-SHIFT"; "H-KEYSTONE"; "V-KEYSTONE"]%string
    (in_adjustment i).

(** [values.get('adjustment')] in the validator of [value]: [values]
    holds the fields that were validated before and passed. *)
Definition adjustment_seen (i : projector_input) : option string :=
  match field_adjustment i with
  | Valid a => a
  | Invalid _ => None
  end.

(** The bounds of the field are checked first, then the validator of the
    class runs; neither runs on [None]. *)
Definition field_value (i : projector_input) : validation (option Z) :=
  match in_value i with
  | None => Valid None
  | Some v =>
      and_then (check_range (-100) 100 v) (fun v =>
      and_then (validate_adjustment_value v (adjustment_seen i)) (fun v =>
      Valid (Some v)))
  end.

Definition field_command (i : projector_input) : validation (option string) :=
  check_max_length 200 (in_command i).

(** [validate_projector_params]: the model, or the errors of the
    [ValidationError] in the order of the fields. *)
Definition validate_projector_params (i : projector_input)
  : ProjectorCommandParams + list (string * string) :=
  match field_device_id i, field_input i, field_ratio i, field_direction i,
        field_adjustment i, field_value i, field_command i with
  | Valid d, Valid inp, Valid r, Valid dir, Valid adj, Valid v, Valid c =>
      inl (mkProjectorCommandParams d inp r dir adj v c)
  | d, inp, r, dir, adj, v, c =>
      inr (error_of "device_id" d ++ error_of "input" inp
           ++ error_of "ratio" r ++ error_of "direction" dir
           ++ error_of "adjustment" adj ++ error_of "value" v
           ++ error_of "command" c)
  end.

(** A keystone correction of 25 on the first projector. *)
Definition keystone_25 : projector_input :=
  mkProjectorInput "proj-1" None None None (Some "H-KEYSTONE"%string)
                   (Some 25) None.

Definition shift_250 : projector_input :=
  mkProjectorInput "proj-1" None None None (Some "H-IMAGE-SHIFT"%string)
                   (Some 250) None.

End Projector.

(** ** Device metadata *)

Module DeviceMeta.
Import Py Schema.
Local Open Scope Z_scope.

Definition is_letter_or_digit (c : ascii) : bool :=
  let n := N_of_ascii c in
  ((48 <=? n) && (n <=? 57) || (65 <=? n) && (n <=? 90)
   || (97 <=? n) && (n <=? 122))%N.

(** The classes [[a-zA-Z0-9_-]] and [[a-zA-Z0-9_]] *)
Definition id_char (c : ascii) : bool :=
  is_letter_or_digit c || Ascii.eqb c "_" || Ascii.eqb c "-".

Definition module_char (c : ascii) : bool :=
  is_letter_or_digit c || Ascii.eqb c "_".

(** What is left of a text after the longest run of characters of a
    class at its start. *)
Fixpoint after_run (class : ascii -> bool) (s : string) : string :=
  match s with
  | EmptyString => EmptyString
  | String c s' => if class c then after_run class s' else s
  end.

(** [re.match] of a pattern [^[class]+$] whose class does not hold the
    line feed: the run of characters of the class at the start is not
    empty and reaches the end of the text, or the line feed that ends
    the text. *)
Definition matches_run (class : ascii -> bool) (v : string) : bool :=
  match v with
  | EmptyString => false
  | String c _ =>
      class c
      && (String.eqb (after_run class v) ""
          || String.eqb (after_run class v) Projector.line_feed)
  end.

Definition validate_device_id (v : string) : validation string :=
  if negb (matches_run id_char v)
  then Invalid "Device ID can only contain alphanumeric characters, hyphens, and underscores"
  else Valid v.

(** The loop raises at the first module name that does not match. *)
Definition validate_modules (v : list string) : validation (list string) :=
  match List.find (fun module => negb (matches_run module_char module)) v with
  | Some module => Invalid ("Invalid module name: " ++ module)
  | None => Valid v
  end.

Definition validate_labels (v : list string) : validation (list string) :=
  if existsb (fun label => 50 <? Z.of_nat (String.length label)) v
  then Invalid "Label too long (>50 characters)"
  else Valid v.

(** [Field(..., max_items=hi)] on a list *)
Definition check_max_items (hi : Z) (v : list string)
  : validation (list string) :=
  if hi <? Z.of_nat (length v)
  then Invalid ("ensure this value has at most " ++ pretty hi ++ " items")
  else Valid v.

(** The fields of a metadata message as they reach the model, already
    of the declared types.  [device_id] and [ts] are required; a field
    that is left out takes its default and is not validated. *)
Record meta_input : Type := mkMetaInput {
  in_device_id : string;
  in_modules : option (list string);
  in_capabilities : option (list (string * dict));
  in_labels : option (list string);
  in_version : option string;
  in_ts : string
}.

Record DeviceMetaEnvelope : Type := mkDeviceMetaEnvelope {
  device_id : string;
  modules : list string;
  capabilities : list (string * dict);
  labels : list string;
  version : string;
  ts : string
}.

Definition field_device_id (i : meta_input) : validation string :=
  and_then (check_length 1 255 (in_device_id i)) validate_device_id.

Definition field_modules (i : meta_input) : validation (list string) :=
  match in_modules i with
  | Some v => validate_modules v
  | None => Valid []
  end.

Definition field_labels (i : meta_input) : validation (list string) :=
  match in_labels i with
  | Some v => and_then (check_max_items 20 v) validate_labels
  | None => Valid []
  end.

Definition field_version (i : meta_input) : validation string :=
  match in_version i with
  | Some v =>
      if 100 <? Z.of_nat (String.length v)
      then Invalid "ensure this value has at most 100 characters"
      else Valid v
  | None => Valid "unknown"%string
  end.

(** [validate_device_meta]: the model, or the errors of the
    [ValidationError].  [capabilities] and [ts] have no constraint
    beyond their types. *)
Definition validate_device_meta (i : meta_input)
  : DeviceMetaEnvelope + list (string * string) :=
  match field_device_id i, field_modules i, field_labels i,
        field_version i with
  | Valid d, Valid ms, Valid ls, Valid v =>
      inl (mkDeviceMetaEnvelope d ms (default [] (in_capabilities i)) ls v
             (in_ts i))
  | d, ms, ls, v =>
      inr (error_of "device_id" d ++ error_of "modules" ms
           ++ error_of "labels" ls ++ error_of "version" v)
  end.

(** The characters of a text. *)
Definition chars (s : string) : list ascii := list_ascii_of_string s.

Definition camera_meta : meta_input :=
  mkMetaInput "cam-01" (Some ["ndi"; "projector"]%string) None
              (Some ["studio"]%string) None "yesterday".

End DeviceMeta.

(** ** Schedules *)

Module Schedule.
Import Py Schema.
Local Open Scope Z_scope.

Definition chars (s : string) : list ascii := list_ascii_of_string s.

(** [c in s] for a character *)
Definition contains (c : ascii) (s : string) : bool :=
  existsb (Ascii.eqb c) (chars s).

(** [s.isdigit()] on the code points below 256: the digits 0 to 9 and
    the superscripts two, three and one; the empty text has no digit. *)
Definition isdigit_char (c : ascii) : bool :=
  let n := N_of_ascii c in
  ((48 <=? n) && (n <=? 57) || (n =? 178) || (n =? 179) || (n =? 185))%N.

Definition isdigit (s : string) : bool :=
  match s with
  | EmptyString => false
  | _ => forallb isdigit_char (chars s)
  end.

(** [v.split()]: the runs of characters that are not white space.
    [word] is the run being read, latest character first. *)
Fixpoint split_from (word : list ascii) (l : list ascii)
  : list (list ascii) :=
  match l with
  | [] =>
      match word with
      | [] => []
      | _ => [rev word]
      end
  | c :: l' =>
      if isspace c then
        match word with
        | [] => split_from [] l'
        | _ => rev word :: split_from [] l'
        end
      else split_from (c :: word) l'
  end.

Definition split (v : string) : list string :=
  List.map string_of_list_ascii (split_from [] (chars v)).

(** [part.split(sep)]: the pieces between the separators, empty ones
    too. *)
Fixpoint split_on_from (sep : ascii) (piece : list ascii) (l : list ascii)
  : list (list ascii) :=
  match l with
  | [] => [rev piece]
  | c :: l' =>
      if Ascii.eqb c sep then rev piece :: split_on_from sep [] l'
      else split_on_from sep (c :: piece) l'
  end.

Definition split_on (sep : ascii) (part : string) : list string :=
  List.map string_of_list_ascii (split_on_from sep [] (chars part)).

(** [part.split(sep, 1)] for a part that holds the separator: what is
    before the first separator and what is after it. *)
Fixpoint split_once (sep : ascii) (part : string) : string * string :=
  match part with
  | EmptyString => (EmptyString, EmptyString)
  | String c rest =>
      if Ascii.eqb c sep then (EmptyString, rest)
      else let '(before, after) := split_once sep rest in
           (String c before, after)
  end.

(** The body of the loop over the parts of a cron expression: the
    message of the [ValueError] it raises for a part, if any. *)
Definition check_part (part : string) : option string :=
  if String.eqb part "*" then None
  else if contains "," part then
    match List.find (fun val => negb (isdigit val)) (split_on "," part) with
    | Some val => Some ("Invalid cron value: " ++ val)%string
    | None => None
    end
  else if contains "/" part then
    let '(base, step) := split_once "/" part in
    if negb (String.eqb base "*") && negb (isdigit base)
    then Some ("Invalid cron step base: " ++ base)%string
    else if negb (isdigit step)
    then Some ("Invalid cron step: " ++ step)%string
    else None
  else if contains "-" part then
    let '(start, stop) := split_once "-" part in
    if negb (isdigit start) || negb (isdigit stop)
    then Some ("Invalid cron range: " ++ part)%string
    else None
  else if negb (isdigit part)
  then Some ("Invalid cron value: " ++ part)%string
  else None.

(** The loop raises at the first part that is refused. *)
Fixpoint first_error (parts : list string) : option string :=
  match parts with
  | [] => None
  | part :: rest =>
      match check_part part with
      | Some message => Some message
      | None => first_error rest
      end
  end.

(** [v.replace('Z', '+00:00')] *)
Fixpoint replace_Z (v : string) : string :=
  match v with
  | EmptyString => EmptyString
  | String c rest =>
      if Ascii.eqb c "Z" then ("+00:00" ++ replace_Z rest)%string
      else String c (replace_Z rest)
  end.

(** [schedule_type == text] *)
Definition type_is (schedule_type : option string) (text : string) : bool :=
  match schedule_type with
  | Some s => String.eqb s text
  | None => false
  end.

Section Library.

(** [datetime.fromisoformat(s)] parses ([true]) or raises [ValueError] *)
Variable fromisoformat_ok : string -> bool.

(** [validate_schedule_expression]; [schedule_type] is
    [values.get('schedule_type')], [None] when that field was
    refused. *)
Definition validate_schedule_expression (v : string)
           (schedule_type : option string) : validation string :=
  if type_is schedule_type "once" then
    if fromisoformat_ok (replace_Z v) then Valid v
    else Invalid "Invalid timestamp format for once schedule"
  else if type_is schedule_type "cron" then
    let parts := split v in
    if negb (Z.of_nat (length parts) =? 5)
    then Invalid "Cron expression must have 5 parts (minute hour day month weekday)"
    else match first_error parts with
         | Some message => Invalid message
         | None => Valid v
         end
  else Valid v.

End Library.

(** The characters of a numeric cron field. *)
Definition cron_char (c : ascii) : bool :=
  isdigit_char c || Ascii.eqb c "*" || Ascii.eqb c "," || Ascii.eqb c "/"
  || Ascii.eqb c "-".

(** [' '.join(parts)] *)
Fixpoint join_space (parts : list string) : string :=
  match parts with
  | [] => EmptyString
  | [part] => part
  | part :: rest => (part ++ String " " (join_space rest))%string
  end.

(** A field of a cron expression that is a star or a number. *)
Definition star_or_number (part : string) : bool :=
  String.eqb part "*" || isdigit part.

End Schedule.

(** * Facts *)

(** ** Rounding *)

Module FloatFacts.
Import Float.
Local Open Scope Q_scope.

Lemma two_pow_pos (e : Z) : 0 < 2 ^ e.
Proof. apply Qpower_0_lt. reflexivity. Qed.

Lemma two_pow_plus (a b : Z) : 2 ^ (a + b) == 2 ^ a * 2 ^ b.
Proof. apply Qpower_plus. discriminate. Qed.

Lemma two_pow_le (a b : Z) : (a <= b)%Z -> 2 ^ a <= 2 ^ b.
Proof. intros H. apply Qpower_le_compat_l; [exact H | discriminate]. Qed.

Lemma two_pow_lt (a b : Z) : (a < b)%Z -> 2 ^ a < 2 ^ b.
Proof. intros H. apply Qpower_lt_compat_l; [exact H | reflexivity]. Qed.

Lemma two_pow_lt_inv (a b : Z) : 2 ^ a < 2 ^ b -> (a < b)%Z.
Proof. intros H. eapply Qpower_lt_compat_l_inv; [exact H | reflexivity]. Qed.

Lemma two_pow_Z (n : Z) : (0 <= n)%Z -> 2 ^ n == inject_Z (2 ^ n).
Proof. intros H. rewrite Zpower_Qpower by exact H. reflexivity. Qed.

Lemma two_pow_succ (a : Z) : 2 ^ (a + 1) == 2 * 2 ^ a.
Proof. rewrite two_pow_plus. change (2 ^ 1) with 2. ring. Qed.

(** *** The logarithm *)

Lemma floor_log2_spec (q : Q) :
  0 < q -> 2 ^ floor_log2 q <= q /\ q < 2 ^ (floor_log2 q + 1).
Proof.
  intros Hq. unfold floor_log2.
  destruct q as [a b]. simpl Qnum. simpl Qden.
  assert (0 < a)%Z as Ha.
  { unfold Qlt in Hq. simpl in Hq. lia. }
  set (la := Z.log2 a). set (lb := Z.log2 (Z.pos b)).
  destruct (Z.log2_spec a Ha) as [Ha1 Ha2]. fold la in Ha1, Ha2.
  destruct (Z.log2_spec (Z.pos b) eq_refl) as [Hb1 Hb2]. fold lb in Hb1, Hb2.
  assert (0 <= la)%Z as Hla by apply Z.log2_nonneg.
  assert (0 <= lb)%Z as Hlb by apply Z.log2_nonneg.
  assert (2 ^ la <= inject_Z a) as Qa1
    by (rewrite two_pow_Z by lia; rewrite <- Zle_Qle; exact Ha1).
  assert (inject_Z a < 2 ^ (la + 1)) as Qa2
    by (rewrite two_pow_Z by lia; rewrite <- Zlt_Qlt;
        replace (la + 1)%Z with (Z.succ la) by lia; exact Ha2).
  assert (2 ^ lb <= inject_Z (Z.pos b)) as Qb1
    by (rewrite two_pow_Z by lia; rewrite <- Zle_Qle; exact Hb1).
  assert (inject_Z (Z.pos b) < 2 ^ (lb + 1)) as Qb2
    by (rewrite two_pow_Z by lia; rewrite <- Zlt_Qlt;
        replace (lb + 1)%Z with (Z.succ lb) by lia; exact Hb2).
  assert ((a # b) * inject_Z (Z.pos b) == inject_Z a) as Hq'.
  { unfold Qeq, Qmult, inject_Z. simpl. lia. }
  assert (0 < inject_Z (Z.pos b)) as Hbpos by reflexivity.
  pose proof (two_pow_pos lb) as Plb.
  pose proof (two_pow_pos (lb + 1)) as Plb1.
  destruct (Qle_bool (2 ^ (la - lb)) (a # b)) eqn:Hle.
  - apply Qle_bool_iff in Hle. split; [exact Hle|].
    (* q * 2^lb <= q * b = a < 2^(la+1) *)
    replace (la - lb + 1)%Z with ((la + 1) - lb)%Z by lia.
    rewrite Qpower_minus by discriminate.
    apply Qlt_shift_div_l; [exact Plb|].
    eapply Qle_lt_trans; [|exact Qa2].
    rewrite <- Hq'. apply Qmult_le_l; [exact Hq | exact Qb1].
  - assert (~ 2 ^ (la - lb) <= a # b) as Hnle
      by (intros H; apply Qle_bool_iff in H; congruence).
    apply Qnot_le_lt in Hnle.
    replace (la - lb - 1 + 1)%Z with (la - lb)%Z by lia.
    split; [|exact Hnle].
    replace (la - lb - 1)%Z with (la - (lb + 1))%Z by lia.
    rewrite Qpower_minus by discriminate.
    apply Qle_shift_div_r; [exact Plb1|].
    eapply Qle_trans; [exact Qa1|].
    rewrite <- Hq'. apply Qmult_le_l; [exact Hq|].
    apply Qlt_le_weak. exact Qb2.
Qed.

Lemma floor_log2_unique (q : Q) (l : Z) :
  2 ^ l <= q -> q < 2 ^ (l + 1) -> floor_log2 q = l.
Proof.
  intros H1 H2.
  assert (0 < q) as Hq by (eapply Qlt_le_trans; [apply two_pow_pos | exact H1]).
  destruct (floor_log2_spec q Hq) as [G1 G2].
  assert (floor_log2 q < l + 1)%Z
    by (apply two_pow_lt_inv; eapply Qle_lt_trans; [exact G1 | exact H2]).
  assert (l < floor_log2 q + 1)%Z
    by (apply two_pow_lt_inv; eapply Qle_lt_trans; [exact H1 | exact G2]).
  lia.
Qed.

Lemma floor_log2_le (x y : Q) :
  0 < x -> x <= y -> (floor_log2 x <= floor_log2 y)%Z.
Proof.
  intros Hx Hxy.
  assert (0 < y) as Hy by (eapply Qlt_le_trans; [exact Hx | exact Hxy]).
  destruct (floor_log2_spec x Hx) as [X1 _].
  destruct (floor_log2_spec y Hy) as [_ Y2].
  assert (floor_log2 x < floor_log2 y + 1)%Z; [|lia].
  apply two_pow_lt_inv.
  eapply Qle_lt_trans; [exact X1|]. eapply Qle_lt_trans; [exact Hxy | exact Y2].
Qed.

Lemma floor_log2_comp (x y : Q) :
  0 < x -> x == y -> floor_log2 x = floor_log2 y.
Proof.
  intros Hx Hxy. symmetry. destruct (floor_log2_spec x Hx) as [X1 X2].
  apply floor_log2_unique; rewrite <- Hxy; assumption.
Qed.


(** *** Rounding to an integer *)

Lemma round_half_even_range (x : Q) :
  (Qfloor x <= round_half_even x <= Qfloor x + 1)%Z.
Proof.
  unfold round_half_even. destruct (Qcompare _ _); [|lia|lia].
  destruct (Z.even _); lia.
Qed.

Lemma round_half_even_le (x y : Q) :
  x <= y -> (round_half_even x <= round_half_even y)%Z.
Proof.
  intros Hxy. pose proof (Qfloor_resp_le x y Hxy) as Hf.
  pose proof (round_half_even_range x) as Rx.
  pose proof (round_half_even_range y) as Ry.
  destruct (Z.eq_dec (Qfloor x) (Qfloor y)) as [Heq|Hne]; [|lia].
  unfold round_half_even. rewrite <- Heq.
  destruct (Qcompare_spec (x - inject_Z (Qfloor x)) (1 # 2)) as [Hx|Hx|Hx];
    destruct (Qcompare_spec (y - inject_Z (Qfloor x)) (1 # 2)) as [Hy|Hy|Hy];
    try lia; try (destruct (Z.even (Qfloor x)); lia); exfalso; lra.
Qed.

Lemma round_half_even_Z (n : Z) : round_half_even (inject_Z n) = n.
Proof.
  unfold round_half_even. rewrite Qfloor_Z.
  destruct (Qcompare_spec (inject_Z n - inject_Z n) (1 # 2)) as [H|H|H];
    [exfalso; lra | reflexivity | exfalso; lra].
Qed.

Lemma round_half_even_comp (x y : Q) :
  x == y -> round_half_even x = round_half_even y.
Proof.
  intros H. unfold round_half_even.
  rewrite (Qfloor_comp x y H).
  assert (Qcompare (x - inject_Z (Qfloor y)) (1 # 2)
          = Qcompare (y - inject_Z (Qfloor y)) (1 # 2)) as ->
    by (apply Qcompare_comp; [rewrite H|]; reflexivity).
  reflexivity.
Qed.

Lemma round_half_even_ge (x : Q) (n : Z) :
  inject_Z n <= x -> (n <= round_half_even x)%Z.
Proof.
  intros H. rewrite <- (round_half_even_Z n). by apply round_half_even_le.
Qed.

Lemma round_half_even_upper (x : Q) (n : Z) :
  x <= inject_Z n -> (round_half_even x <= n)%Z.
Proof.
  intros H. rewrite <- (round_half_even_Z n). by apply round_half_even_le.
Qed.


(** *** Rounding to 53 bits *)

Lemma exponent_comp (x y : Q) : 0 < x -> x == y -> exponent x = exponent y.
Proof. intros Hx H. unfold exponent. by rewrite (floor_log2_comp x y). Qed.

Lemma exponent_le (x y : Q) :
  0 < x -> x <= y -> (exponent x <= exponent y)%Z.
Proof.
  intros Hx H. unfold exponent. pose proof (floor_log2_le x y Hx H). lia.
Qed.

Lemma nearest_comp (x y : Q) : 0 < x -> x == y -> nearest x == nearest y.
Proof.
  intros Hx H. unfold nearest. rewrite (exponent_comp x y Hx H).
  rewrite (round_half_even_comp (x / 2 ^ exponent y) (y / 2 ^ exponent y));
    [reflexivity|]. by rewrite H.
Qed.

Lemma scaled_nonneg (q : Q) (e : Z) : 0 < q -> 0 <= q / 2 ^ e.
Proof.
  intros Hq. apply Qle_shift_div_l; [apply two_pow_pos|]. lra.
Qed.

Lemma nearest_nonneg (q : Q) : 0 < q -> 0 <= nearest q.
Proof.
  intros Hq. unfold nearest. apply Qmult_le_0_compat.
  - change 0 with (inject_Z 0). rewrite <- Zle_Qle.
    apply round_half_even_ge. by apply scaled_nonneg.
  - apply Qlt_le_weak, two_pow_pos.
Qed.

(** A positive number rounds to at most the next power of two. *)
Lemma nearest_upper (q : Q) :
  0 < q -> nearest q <= 2 ^ Z.max (floor_log2 q + 1) (exponent q).
Proof.
  intros Hq. destruct (floor_log2_spec q Hq) as [_ Hup].
  set (e := exponent q). set (k := (Z.max (floor_log2 q + 1) e - e)%Z).
  assert (0 <= k)%Z as Hk by lia.
  assert (q / 2 ^ e <= inject_Z (2 ^ k)) as Hscaled.
  { rewrite <- two_pow_Z by lia.
    apply Qle_shift_div_r; [apply two_pow_pos|].
    rewrite <- two_pow_plus. apply Qlt_le_weak.
    eapply Qlt_le_trans; [exact Hup|]. apply two_pow_le. lia. }
  apply round_half_even_upper in Hscaled.
  unfold nearest. fold e.
  replace (Z.max (floor_log2 q + 1) e) with (k + e)%Z by lia.
  rewrite two_pow_plus, (two_pow_Z k) by lia.
  apply Qmult_le_compat_r; [|apply Qlt_le_weak, two_pow_pos].
  by rewrite <- Zle_Qle.
Qed.

(** A positive number that is not below the subnormal range rounds to
    at least the power of two below it. *)
Lemma nearest_lower (q : Q) :
  0 < q -> (exponent q <= floor_log2 q)%Z -> 2 ^ floor_log2 q <= nearest q.
Proof.
  intros Hq He. destruct (floor_log2_spec q Hq) as [Hlow _].
  set (e := exponent q) in *. set (k := (floor_log2 q - e)%Z).
  assert (0 <= k)%Z as Hk by lia.
  assert (inject_Z (2 ^ k) <= q / 2 ^ e) as Hscaled.
  { rewrite <- two_pow_Z by lia.
    apply Qle_shift_div_l; [apply two_pow_pos|].
    rewrite <- two_pow_plus. replace (k + e)%Z with (floor_log2 q) by lia.
    exact Hlow. }
  apply round_half_even_ge in Hscaled.
  unfold nearest. fold e.
  replace (floor_log2 q) with (k + e)%Z at 1 by lia.
  rewrite two_pow_plus, (two_pow_Z k) by lia.
  apply Qmult_le_compat_r; [|apply Qlt_le_weak, two_pow_pos].
  by rewrite <- Zle_Qle.
Qed.

(** Rounding keeps the order. *)
Lemma nearest_le (x y : Q) : 0 < x -> x <= y -> nearest x <= nearest y.
Proof.
  intros Hx Hxy.
  assert (0 < y) as Hy by (eapply Qlt_le_trans; [exact Hx | exact Hxy]).
  pose proof (exponent_le x y Hx Hxy) as He.
  destruct (Z.eq_dec (exponent x) (exponent y)) as [Heq|Hne].
  - unfold nearest. rewrite Heq.
    apply Qmult_le_compat_r; [|apply Qlt_le_weak, two_pow_pos].
    rewrite <- Zle_Qle. apply round_half_even_le.
    apply Qmult_le_compat_r; [exact Hxy|].
    apply Qlt_le_weak, Qinv_lt_0_compat, two_pow_pos.
  - assert (exponent x < exponent y)%Z as Hlt by lia.
    eapply Qle_trans; [by apply nearest_upper|].
    eapply Qle_trans; [|apply nearest_lower; [exact Hy|]];
      [apply two_pow_le|]; unfold exponent in *; lia.
Qed.

(** A multiple of the last place is not changed. *)
Lemma nearest_multiple (v : Q) (m : Z) :
  0 < v -> v == inject_Z m * 2 ^ exponent v -> nearest v == v.
Proof.
  intros Hv Hm. unfold nearest.
  rewrite (round_half_even_comp _ (inject_Z m)).
  - by rewrite round_half_even_Z, <- Hm.
  - rewrite Hm at 1. field. apply Qnot_eq_sym, Qlt_not_eq, two_pow_pos.
Qed.

Lemma has_53_bits_pos (v : Q) : has_53_bits v -> 0 < v.
Proof.
  intros (n & e & Hn & _ & ->).
  apply Qmult_lt_0_compat; [|apply two_pow_pos].
  change 0 with (inject_Z 0). rewrite <- Zlt_Qlt. lia.
Qed.

Lemma floor_log2_scaled (n e : Z) :
  (1 <= n)%Z -> floor_log2 (inject_Z n * 2 ^ e) = (Z.log2 n + e)%Z.
Proof.
  intros Hn. destruct (Z.log2_spec n) as [H1 H2]; [lia|].
  pose proof (Z.log2_nonneg n) as Hl.
  apply floor_log2_unique.
  - rewrite two_pow_plus, (two_pow_Z (Z.log2 n)) by lia.
    apply Qmult_le_compat_r; [|apply Qlt_le_weak, two_pow_pos].
    by rewrite <- Zle_Qle.
  - replace (Z.log2 n + e + 1)%Z with (Z.succ (Z.log2 n) + e)%Z by lia.
    rewrite two_pow_plus, (two_pow_Z (Z.succ (Z.log2 n))) by lia.
    apply Qmult_lt_compat_r; [apply two_pow_pos|].
    by rewrite <- Zlt_Qlt.
Qed.

Lemma nearest_has_53_bits (v : Q) : has_53_bits v -> nearest v == v.
Proof.
  intros Hv. pose proof (has_53_bits_pos v Hv) as Hpos.
  destruct Hv as (n & e & Hn & He & Hv).
  assert (exponent v = Z.max (Z.log2 n + e - 52) (-1074)) as Hexp.
  { unfold exponent. rewrite (floor_log2_comp v _ Hpos Hv).
    by rewrite floor_log2_scaled by lia. }
  destruct (Z.eq_dec n (2 ^ 53)%Z) as [->|Hne].
  - change (Z.log2 (2 ^ 53)%Z) with 53%Z in Hexp.
    apply (nearest_multiple v (2 ^ 52)%Z); [exact Hpos|].
    rewrite Hexp, Hv. replace (Z.max (53 + e - 52) (-1074)) with (e + 1)%Z by lia.
    rewrite two_pow_succ. change (inject_Z (2 ^ 53)%Z) with (2 * inject_Z (2 ^ 52)%Z).
    ring.
  - assert (Z.log2 n <= 52)%Z as Hlog.
    { assert (Z.log2 n < 53)%Z; [|lia]. apply Z.log2_lt_pow2; lia. }
    set (e' := Z.max (Z.log2 n + e - 52) (-1074)) in *.
    apply (nearest_multiple v (n * 2 ^ (e - e'))%Z); [exact Hpos|].
    rewrite Hexp, Hv, inject_Z_mult, <- two_pow_Z by lia.
    rewrite <- Qmult_assoc, <- two_pow_plus.
    by replace (e - e' + e')%Z with e by lia.
Qed.

(** What a positive number rounds to has 53 bits, or is zero. *)
Lemma nearest_cases (q : Q) :
  0 < q -> nearest q == 0 \/ has_53_bits (nearest q).
Proof.
  intros Hq. set (n := round_half_even (q / 2 ^ exponent q)).
  assert (0 <= n)%Z as Hn0
    by (apply round_half_even_ge; by apply scaled_nonneg).
  destruct (Z.eq_dec n 0%Z) as [Hz|Hnz].
  - left. unfold nearest. fold n. rewrite Hz. ring.
  - right. exists n, (exponent q). split; [|split].
    + split; [lia|]. apply round_half_even_upper.
      destruct (floor_log2_spec q Hq) as [_ Hup].
      rewrite <- two_pow_Z by lia.
      apply Qle_shift_div_r; [apply two_pow_pos|].
      rewrite <- two_pow_plus. apply Qlt_le_weak.
      eapply Qlt_le_trans; [exact Hup|]. apply two_pow_le.
      unfold exponent. lia.
    + unfold exponent. lia.
    + reflexivity.
Qed.

Lemma has_53_bits_double (v : Q) : has_53_bits v -> has_53_bits (2 * v).
Proof.
  intros (n & e & Hn & He & Hv). exists n, (e + 1)%Z.
  split; [exact Hn|]. split; [lia|]. rewrite Hv, two_pow_succ. ring.
Qed.

Lemma has_53_bits_comp (v w : Q) : v == w -> has_53_bits v -> has_53_bits w.
Proof. intros H (n & e & Hn & He & Hv). exists n, e. by rewrite <- H. Qed.

(** *** Rounding to a float *)

Lemma Qle_bool_false (x y : Q) : Qle_bool x y = false -> y < x.
Proof.
  intros H. apply Qnot_le_lt. intros Hle. apply Qle_bool_iff in Hle. congruence.
Qed.

Lemma round_spec (q : Q) : rounding q (round q).
Proof.
  unfold round. destruct q as [a b]. destruct a as [|p|p]; simpl Qnum.
  - by apply rounds_zero.
  - assert (0 < Z.pos p # b) as Hpos by reflexivity.
    destruct (Qle_bool _ _) eqn:Hle.
    + apply rounds_to_infinity; [exact Hpos|]. by apply Qle_bool_iff.
    + apply rounds_up_to; [exact Hpos | apply Qred_correct|].
      rewrite Qred_correct. by apply Qle_bool_false.
  - assert (Z.neg p # b < 0) as Hneg by reflexivity.
    destruct (Qle_bool (2 ^ 1024) (nearest (- (Z.neg p # b)))) eqn:Hle.
    + apply rounds_to_minus_infinity; [exact Hneg|]. by apply Qle_bool_iff.
    + apply rounds_down_to; [exact Hneg | apply Qred_correct|].
      rewrite Qred_correct. apply Qle_bool_false in Hle. lra.
Qed.

Lemma le_refl (a : float) : a <> NaN -> le a a.
Proof.
  destruct a as [q|s|]; simpl; [lra | by destruct s; auto | done].
Qed.

Lemma le_trans (a b c : float) : le a b -> le b c -> le a c.
Proof.
  destruct a as [x|[]|], b as [y|[]|], c as [z|[]|]; simpl; try done;
    try lra; try (intros; by auto); try (by intros [|] ?); try (by intros ? [|]).
Qed.

Lemma round_not_NaN (q : Q) : round q <> NaN.
Proof. by destruct (round_spec q). Qed.

(** Rounding keeps the order. *)
Lemma round_le (x y : Q) : x <= y -> le (round x) (round y).
Proof.
  intros Hxy.
  destruct (round_spec x) as [Hx|vx Hx Hvx Hbx|Hx Hox|vx Hx Hvx Hbx|Hx Hox];
    destruct (round_spec y) as [Hy|vy Hy Hvy Hby|Hy Hoy|vy Hy Hvy Hby|Hy Hoy];
    simpl; try done; try (exfalso; lra); auto.
  - pose proof (nearest_nonneg y Hy). lra.
  - rewrite Hvx, Hvy. by apply nearest_le.
  - pose proof (nearest_le x y Hx Hxy). exfalso. lra.
  - pose proof (nearest_nonneg (- x)). lra.
  - pose proof (nearest_nonneg (- x)). pose proof (nearest_nonneg y Hy). lra.
  - assert (nearest (- y) <= nearest (- x)) by (apply nearest_le; lra). lra.
  - assert (nearest (- y) <= nearest (- x)) by (apply nearest_le; lra).
    exfalso. lra.
Qed.

Lemma round_comp (x y : Q) : x == y -> same (round x) (round y).
Proof.
  intros Hxy.
  destruct (round_spec x) as [Hx|vx Hx Hvx Hbx|Hx Hox|vx Hx Hvx Hbx|Hx Hox];
    destruct (round_spec y) as [Hy|vy Hy Hvy Hby|Hy Hoy|vy Hy Hvy Hby|Hy Hoy];
    simpl; try done; try (exfalso; lra).
  - rewrite Hvx, Hvy. by apply nearest_comp.
  - rewrite (nearest_comp x y Hx Hxy) in Hvx. lra.
  - rewrite (nearest_comp x y Hx Hxy) in Hox. lra.
  - rewrite Hvx, Hvy.
    assert (nearest (- x) == nearest (- y)) as ->
      by (apply nearest_comp; lra). reflexivity.
  - assert (nearest (- x) == nearest (- y)) as H
      by (apply nearest_comp; lra). lra.
  - assert (nearest (- x) == nearest (- y)) as H
      by (apply nearest_comp; lra). lra.
Qed.

Lemma representable_comp (v w : Q) :
  v == w -> representable v -> representable w.
Proof.
  unfold representable. intros H Hv. pose proof (round_comp v w H) as Hs.
  destruct (round v), (round w); simpl in *; try done. lra.
Qed.

Lemma representable_zero : representable 0.
Proof. reflexivity. Qed.

Lemma representable_pos (v : Q) :
  has_53_bits v -> v < 2 ^ 1024 -> representable v.
Proof.
  intros Hv Hb. pose proof (has_53_bits_pos v Hv) as Hpos.
  pose proof (nearest_has_53_bits v Hv) as Hn. unfold representable.
  destruct (round_spec v) as [H|w H Hw Hbw|H Ho|w H Hw Hbw|H Ho];
    simpl; try lra.
Qed.

Lemma representable_opp (v : Q) : representable v -> representable (- v).
Proof.
  unfold representable. intros Hv.
  destruct (round_spec v) as [H|w H Hw Hbw|H Ho|w H Hw Hbw|H Ho];
    simpl in Hv; try done;
    destruct (round_spec (- v)) as [H'|w' H' Hw' Hbw'|H' Ho'|w' H' Hw' Hbw'|H' Ho'];
    simpl; try lra.
  - assert (nearest (- - v) == nearest v) as E by (apply nearest_comp; lra).
    lra.
  - assert (nearest (- - v) == nearest v) as E by (apply nearest_comp; lra).
    lra.
Qed.

(** What a number rounds to is a float. *)
Lemma round_representable (q v : Q) : round q = Finite v -> representable v.
Proof.
  intros Hq.
  destruct (round_spec q) as [H|w H Hw Hbw|H Ho|w H Hw Hbw|H Ho];
    try discriminate Hq; injection Hq as <-.
  - apply representable_zero.
  - destruct (nearest_cases q H) as [Hz|Hbits].
    + apply (representable_comp 0); [lra | apply representable_zero].
    + apply representable_pos; [|exact Hbw].
      apply (has_53_bits_comp (nearest q)); [lra | exact Hbits].
  - destruct (nearest_cases (- q)) as [Hz|Hbits]; [lra| |].
    + apply (representable_comp 0); [lra | apply representable_zero].
    + apply (representable_comp (- nearest (- q))); [lra|].
      apply representable_opp, representable_pos; [exact Hbits | lra].
Qed.

Lemma representable_53_bits (v : Q) :
  representable v -> 0 < v -> has_53_bits v.
Proof.
  unfold representable. intros Hv Hpos.
  destruct (round_spec v) as [H|w H Hw Hbw|H Ho|w H Hw Hbw|H Ho];
    simpl in Hv; try done; try lra.
  destruct (nearest_cases v H) as [Hz|Hbits]; [lra|].
  apply (has_53_bits_comp (nearest v)); [lra | exact Hbits].
Qed.

(** Twice a float is a float, unless it leaves the range. *)
Lemma representable_double (v w : Q) :
  representable v -> round (v + v) = Finite w -> w == v + v.
Proof.
  intros Hv Hw.
  assert (representable (v + v) -> w == v + v) as Hdone.
  { unfold representable. rewrite Hw. simpl. lra. }
  apply Hdone.
  destruct (Qlt_le_dec 0 v) as [Hpos|Hle].
  - apply representable_pos.
    + apply (has_53_bits_comp (2 * v)); [ring|].
      by apply has_53_bits_double, representable_53_bits.
    + destruct (round_spec (v + v)) as [H|x H Hx Hbx|H Ho|x H Hx Hbx|H Ho];
        try discriminate Hw; try lra.
      injection Hw as ->.
      assert (has_53_bits (v + v)) as Hbits.
      { apply (has_53_bits_comp (2 * v)); [ring|].
        by apply has_53_bits_double, representable_53_bits. }
      rewrite (nearest_has_53_bits _ Hbits) in Hx. lra.
  - destruct (Qeq_dec v 0) as [Hz|Hnz].
    + apply (representable_comp 0); [lra | apply representable_zero].
    + assert (0 < - v) as Hpos by lra.
      assert (has_53_bits (- v + - v)) as Hbits.
      { apply (has_53_bits_comp (2 * - v)); [ring|].
        by apply has_53_bits_double, representable_53_bits;
          [apply representable_opp|]. }
      apply (representable_comp (- (- v + - v))); [ring|].
      apply representable_opp, representable_pos; [exact Hbits|].
      destruct (round_spec (v + v)) as [H|x H Hx Hbx|H Ho|x H Hx Hbx|H Ho];
        try discriminate Hw; try lra.
      injection Hw as ->.
      assert (nearest (- (v + v)) == nearest (- v + - v)) as E
        by (apply nearest_comp; lra).
      rewrite (nearest_has_53_bits _ Hbits) in E. lra.
Qed.


Lemma representable_round (v : Q) :
  representable v -> exists w, round v = Finite w /\ w == v.
Proof.
  unfold representable. destruct (round v) as [w| |]; simpl; [|done|done].
  intros H. by exists w.
Qed.

(** A number between two floats rounds to a float between them. *)
Lemma round_between (lo hi x : Q) :
  representable lo -> representable hi -> lo <= x -> x <= hi ->
  exists v, round x = Finite v /\ lo <= v /\ v <= hi.
Proof.
  intros (l & Hl & El)%representable_round (h & Hh & Eh)%representable_round
         Hlo Hhi.
  pose proof (round_le lo x Hlo) as H1. pose proof (round_le x hi Hhi) as H2.
  rewrite Hl in H1. rewrite Hh in H2.
  destruct (round x) as [v|s|]; simpl in H1, H2; [|by subst|done].
  exists v. split; [done|]. lra.
Qed.

Ltac compare_Q x y :=
  let H := fresh "H" in
  destruct (Qle_bool x y) eqn:H;
  [apply Qle_bool_iff in H | apply Qle_bool_false in H].


Lemma max_zero_nonneg (a : float) : le (Finite 0) (max (Finite 0) a).
Proof.
  destruct a as [x|[]|]; unfold max, lt; simpl; try lra; try done.
  compare_Q x 0; simpl; lra.
Qed.

End FloatFacts.

(** ** The deduplication cache *)

Module DedupFacts.
Import Py Dedup.
Local Open Scope Z_scope.

(** *** The ordered dict *)

Lemma od_pop_head (k : string) (r : RequestRecord) (rest : ordered_dict) :
  od_pop k ((k, r) :: rest) = rest.
Proof. simpl. by rewrite String.eqb_refl. Qed.

Lemma od_get_elem_of (k : string) (r : RequestRecord) (c : ordered_dict) :
  od_get k c = Some r -> (k, r) ∈ c.
Proof.
  induction c as [|[k' r'] c IH]; simpl; [done|].
  destruct (String.eqb_spec k' k) as [->|Hne]; intros H.
  - inversion H; subst. left.
  - right. by apply IH.
Qed.

Lemma od_get_key (k : string) (r : RequestRecord) (c : ordered_dict) :
  od_get k c = Some r -> k ∈ List.map fst c.
Proof.
  intros H%od_get_elem_of. apply list_elem_of_In, in_map_iff.
  exists (k, r). split; [done|]. by apply list_elem_of_In.
Qed.

Lemma od_get_absent (k : string) (c : ordered_dict) :
  k ∉ List.map fst c -> od_get k c = None.
Proof.
  induction c as [|[k' r'] c IH]; simpl; [done|].
  intros Hk. destruct (String.eqb_spec k' k) as [->|Hne].
  - exfalso. apply Hk. left.
  - apply IH. intros Hin. apply Hk. by right.
Qed.

Lemma od_pop_keys (k k0 : string) (c : ordered_dict) :
  k0 ∈ List.map fst (od_pop k c) -> k0 ∈ List.map fst c.
Proof.
  induction c as [|[k' r'] c IH]; simpl; [done|].
  destruct (String.eqb_spec k' k) as [->|Hne]; simpl.
  - intros H. by right.
  - intros [->|H]%elem_of_cons; [left | right; by apply IH].
Qed.

Lemma od_pop_NoDup (k : string) (c : ordered_dict) :
  NoDup (List.map fst c) -> NoDup (List.map fst (od_pop k c)).
Proof.
  induction c as [|[k' r'] c IH]; simpl; [done|].
  intros [Hk Hc]%NoDup_cons.
  destruct (String.eqb_spec k' k) as [->|Hne]; simpl; [done|].
  apply NoDup_cons. split; [|by apply IH].
  intros Hin. apply Hk. by eapply od_pop_keys.
Qed.

Lemma od_pop_gone (k : string) (c : ordered_dict) :
  NoDup (List.map fst c) -> k ∉ List.map fst (od_pop k c).
Proof.
  induction c as [|[k' r'] c IH]; simpl.
  - intros _ H. by apply elem_of_nil in H.
  - intros [Hk Hc]%NoDup_cons.
    destruct (String.eqb_spec k' k) as [->|Hne]; simpl; [done|].
    intros [->|H]%elem_of_cons; [done | by apply IH].
Qed.

Lemma od_get_pop_other (k k0 : string) (c : ordered_dict) :
  k <> k0 -> od_get k0 (od_pop k c) = od_get k0 c.
Proof.
  intros Hne. induction c as [|[k' r'] c IH]; simpl; [done|].
  destruct (String.eqb_spec k' k) as [->|Hk].
  - destruct (String.eqb_spec k k0); [done | done].
  - simpl. by rewrite IH.
Qed.

Lemma od_pop_length_le (k : string) (c : ordered_dict) :
  (length (od_pop k c) <= length c)%nat.
Proof.
  induction c as [|[k' r'] c IH]; simpl; [lia|].
  destruct (String.eqb k' k); simpl; lia.
Qed.

Lemma od_pop_length_present (k : string) (r : RequestRecord)
      (c : ordered_dict) :
  od_get k c = Some r -> S (length (od_pop k c)) = length c.
Proof.
  induction c as [|[k' r'] c IH]; simpl; [done|].
  destruct (String.eqb k' k); simpl; [done|].
  intros H. by rewrite IH.
Qed.

Lemma od_move_to_end_length (k : string) (c : ordered_dict) :
  length (od_move_to_end k c) = length c.
Proof.
  unfold od_move_to_end. destruct (od_get k c) as [r|] eqn:H; [|done].
  rewrite length_app. simpl. apply od_pop_length_present in H. lia.
Qed.

Lemma od_move_to_end_NoDup (k : string) (c : ordered_dict) :
  NoDup (List.map fst c) -> NoDup (List.map fst (od_move_to_end k c)).
Proof.
  intros Hc. unfold od_move_to_end.
  destruct (od_get k c) as [r|] eqn:H; [|done].
  rewrite List.map_app. apply NoDup_app. split; [by apply od_pop_NoDup|].
  split; [|apply NoDup_singleton].
  intros x Hx [->|Hnil]%elem_of_cons.
  - by apply (od_pop_gone k c).
  - by apply elem_of_nil in Hnil.
Qed.

Lemma od_set_length_le (k : string) (r : RequestRecord) (c : ordered_dict) :
  (length (od_set k r c) <= S (length c))%nat.
Proof.
  induction c as [|[k' r'] c IH]; simpl; [lia|].
  destruct (String.eqb k' k); simpl; lia.
Qed.

Lemma od_set_length_present (k : string) (r r0 : RequestRecord)
      (c : ordered_dict) :
  od_get k c = Some r0 -> length (od_set k r c) = length c.
Proof.
  induction c as [|[k' r'] c IH]; simpl; [done|].
  destruct (String.eqb k' k); simpl; [done|].
  intros H. by rewrite IH.
Qed.

Lemma od_set_keys (k k0 : string) (r : RequestRecord) (c : ordered_dict) :
  k0 ∈ List.map fst (od_set k r c) -> k0 = k \/ k0 ∈ List.map fst c.
Proof.
  induction c as [|[k' r'] c IH]; simpl.
  - intros [->|H]%elem_of_cons; [by left | by apply elem_of_nil in H].
  - destruct (String.eqb_spec k' k) as [->|Hne]; simpl.
    + intros [->|H]%elem_of_cons; [by left | right; by right].
    + intros [->|H]%elem_of_cons; [right; left|].
      destruct (IH H) as [->|Hin]; [by left | right; by right].
Qed.

Lemma od_set_NoDup (k : string) (r : RequestRecord) (c : ordered_dict) :
  NoDup (List.map fst c) -> NoDup (List.map fst (od_set k r c)).
Proof.
  induction c as [|[k' r'] c IH]; simpl.
  - intros _. apply NoDup_singleton.
  - intros [Hk Hc]%NoDup_cons.
    destruct (String.eqb_spec k' k) as [->|Hne]; simpl.
    + by apply NoDup_cons.
    + apply NoDup_cons. split; [|by apply IH].
      intros [->|Hin]%od_set_keys; [done | by apply Hk].
Qed.

Lemma od_get_set_same (k : string) (r : RequestRecord) (c : ordered_dict) :
  od_get k (od_set k r c) = Some r.
Proof.
  induction c as [|[k' r'] c IH]; simpl.
  - by rewrite String.eqb_refl.
  - destruct (String.eqb_spec k' k) as [->|Hne]; simpl.
    + by rewrite String.eqb_refl.
    + by destruct (String.eqb_spec k' k).
Qed.

(** *** The expiry sweep *)

Lemma drop_keys_fields (ks : list string) (d : RequestDeduplicator) :
  ttl_seconds (fold_left drop_key ks d) = ttl_seconds d
  /\ max_size (fold_left drop_key ks d) = max_size d.
Proof.
  revert d. induction ks as [|k ks IH]; intros d; simpl; [done|].
  destruct (IH (drop_key d k)) as [-> ->]. done.
Qed.

Lemma drop_keys_length (ks : list string) (d : RequestDeduplicator) :
  (length (_cache (fold_left drop_key ks d)) <= length (_cache d))%nat.
Proof.
  revert d. induction ks as [|k ks IH]; intros d; simpl; [lia|].
  etrans; [apply IH|]. simpl. apply od_pop_length_le.
Qed.

Lemma drop_keys_wf (ks : list string) (d : RequestDeduplicator) :
  wf d -> wf (fold_left drop_key ks d).
Proof.
  revert d. induction ks as [|k ks IH]; intros d Hd; simpl; [done|].
  apply IH. unfold wf. simpl. by apply od_pop_NoDup.
Qed.

(** The sweep either removes the entry of a key or leaves it as it is. *)
Lemma drop_keys_get (ks : list string) (rid : string)
      (d : RequestDeduplicator) :
  wf d ->
  od_get rid (_cache (fold_left drop_key ks d)) = None
  \/ od_get rid (_cache (fold_left drop_key ks d)) = od_get rid (_cache d).
Proof.
  revert d. induction ks as [|k ks IH]; intros d Hd; simpl; [by right|].
  assert (wf (drop_key d k)) as Hd' by (unfold wf; simpl; by apply od_pop_NoDup).
  destruct (IH _ Hd') as [H|H]; [by left|]. rewrite H. simpl.
  destruct (decide (k = rid)) as [->|Hne].
  - left. apply od_get_absent. by apply od_pop_gone.
  - right. by apply od_get_pop_other.
Qed.

(** What the sweep removes is a prefix of the cache: the entries in front
    of the first one that has not expired. *)
Lemma drop_keys_prefix (ttl now : Z) (c : ordered_dict)
      (d : RequestDeduplicator) :
  _cache d = c ->
  NoDup (List.map fst c) ->
  _cache (fold_left drop_key (expired_keys ttl now c) d)
  = drop (length (expired_keys ttl now c)) c.
Proof.
  revert d. induction c as [|[k r] c IH]; intros d Hc Hnd; simpl; [done|].
  destruct (now - timestamp r >? ttl); simpl; [|done].
  apply NoDup_cons in Hnd as [_ Hnd].
  apply IH; [|done]. simpl. rewrite Hc. apply od_pop_head.
Qed.

Lemma sweep_removes_expired_prefix (now : Z) (d : RequestDeduplicator) :
  wf d ->
  _cache (_cleanup_expired now d)
  = drop (length (expired_keys (ttl_seconds d) now (_cache d))) (_cache d).
Proof. intros Hd. by apply drop_keys_prefix. Qed.

(** Behind the first entry that has not expired, entries with later
    timestamps have not expired either. *)
Lemma unexpired_behind_the_prefix (ttl now : Z) (c : ordered_dict)
      (k : string) (r : RequestRecord) :
  StronglySorted (fun a b => timestamp (snd a) <= timestamp (snd b)) c ->
  (k, r) ∈ drop (length (expired_keys ttl now c)) c ->
  now - timestamp r <= ttl.
Proof.
  induction 1 as [|[k0 r0] c Hc IH Hall]; simpl.
  - intros H. by apply elem_of_nil in H.
  - destruct (Z.gtb_spec (now - timestamp r0) ttl) as [Hgt|Hle]; simpl.
    + apply IH.
    + intros [Heq|Hin]%elem_of_cons.
      * inversion Heq; subst. done.
      * rewrite Forall_forall in Hall.
        specialize (Hall _ Hin). simpl in Hall. lia.
Qed.

(** The sweep is complete on a cache whose entries are in timestamp
    order, which is what its early [break] takes for granted. *)
Lemma sweep_complete_when_sorted (now : Z) (d : RequestDeduplicator)
      (k : string) (r : RequestRecord) :
  wf d ->
  StronglySorted (fun a b => timestamp (snd a) <= timestamp (snd b))
                 (_cache d) ->
  (k, r) ∈ _cache (_cleanup_expired now d) ->
  now - timestamp r <= ttl_seconds d.
Proof.
  intros Hwf Hsorted. rewrite (sweep_removes_expired_prefix now d Hwf).
  by apply unexpired_behind_the_prefix.
Qed.

(** *** The capacity loop *)

Lemma enforce_loop_bounded (max : Z) (c : ordered_dict) (p : gset string) :
  0 <= max ->
  exists c' p',
    enforce_loop max c p = (Returned tt, (c', p'))
    /\ Z.of_nat (length c') <= max
    /\ (NoDup (List.map fst c) -> NoDup (List.map fst c')).
Proof.
  intros Hmax. revert p. induction c as [|[k r] c IH]; intros p.
  - exists [], p. simpl. destruct (Z.gtb_spec 0 max); [lia|].
    split; [done|]. split; [simpl; lia | done].
  - cbn [enforce_loop].
    destruct (Z.gtb_spec (Z.of_nat (length ((k, r) :: c))) max) as [Hgt|Hle].
    + destruct (IH (p ∖ {[ k ]})) as (c' & p' & -> & Hlen & Hnd).
      exists c', p'. split; [done|]. split; [done|].
      intros [_ H]%NoDup_cons. by apply Hnd.
    + exists ((k, r) :: c), p. done.
Qed.

(** *** The methods keep the size bound and the unique keys *)

Lemma is_duplicate_inv (now : Z) (rid dev act : string)
      (d : RequestDeduplicator) :
  let d' := snd (is_duplicate now rid dev act d) in
  max_size d' = max_size d
  /\ (length (_cache d') <= length (_cache d))%nat
  /\ (wf d -> wf d').
Proof.
  unfold is_duplicate, _cleanup_expired.
  set (ks := expired_keys _ _ _).
  pose proof (drop_keys_fields ks d) as [_ Hmax].
  pose proof (drop_keys_length ks d) as Hlen.
  pose proof (drop_keys_wf ks d) as Hwf.
  destruct (od_get rid (_cache (fold_left drop_key ks d))) as [r|]; simpl.
  - assert (forall b : bool,
      snd (if b
           then (true, Some r, set_cache (od_move_to_end rid (_cache (fold_left drop_key ks d))) (fold_left drop_key ks d))
           else (false, None, set_cache (od_move_to_end rid (_cache (fold_left drop_key ks d))) (fold_left drop_key ks d)))
      = set_cache (od_move_to_end rid (_cache (fold_left drop_key ks d))) (fold_left drop_key ks d)) as E
      by (by intros []).
    rewrite E. simpl. rewrite od_move_to_end_length.
    split; [done|]. split; [done|].
    intros Hd. unfold wf. simpl. apply od_move_to_end_NoDup. by apply Hwf.
  - done.
Qed.

Lemma mark_processing_inv (now : Z) (rid dev act : string)
      (d : RequestDeduplicator) :
  0 <= max_size d ->
  within_capacity d ->
  exists (b : bool) (d' : RequestDeduplicator),
    mark_processing now rid dev act d = (Returned b, d')
    /\ max_size d' = max_size d
    /\ within_capacity d'
    /\ (wf d -> wf d').
Proof.
  intros Hmax Hcap. unfold mark_processing.
  destruct (bool_decide (rid ∈ _processing d)).
  - by exists false, d.
  - unfold _enforce_max_size. simpl.
    destruct (enforce_loop_bounded (max_size d)
                (od_set rid (mkRequestRecord rid now dev act None true) (_cache d))
                (_processing d ∪ {[ rid ]}) Hmax)
      as (c' & p' & -> & Hlen & Hnd).
    eexists true, _. split; [done|]. simpl. split; [done|].
    split; [done|]. intros Hd. unfold wf. simpl. apply Hnd.
    by apply od_set_NoDup.
Qed.

Lemma finish_inv (now : Z) (rid : string) (res : dict)
      (d : RequestDeduplicator) :
  max_size (finish now rid res d) = max_size d
  /\ length (_cache (finish now rid res d)) = length (_cache d)
  /\ (wf d -> wf (finish now rid res d)).
Proof.
  unfold finish. simpl.
  destruct (od_get rid (_cache d)) as [r|] eqn:Hget; simpl; [|done].
  rewrite od_move_to_end_length.
  split; [done|]. split; [by eapply od_set_length_present|].
  intros Hd. unfold wf. simpl.
  by apply od_move_to_end_NoDup, od_set_NoDup.
Qed.

Lemma step_inv (c : call) (d : RequestDeduplicator) :
  0 <= max_size d ->
  within_capacity d ->
  exists d' : RequestDeduplicator,
    step c d = Returned d'
    /\ max_size d' = max_size d
    /\ within_capacity d'
    /\ (wf d -> wf d').
Proof.
  intros Hmax Hcap. destruct c as [now rid dev act|now rid dev act|now rid res|now rid err]; simpl.
  - destruct (is_duplicate_inv now rid dev act d) as (Hm & Hlen & Hwf).
    eexists. split; [done|]. split; [done|]. split; [|done].
    unfold within_capacity in *. rewrite Hm. lia.
  - destruct (mark_processing_inv now rid dev act d Hmax Hcap)
      as (b & d' & -> & Hm & Hc & Hwf).
    by exists d'.
  - unfold mark_completed.
    destruct (finish_inv now rid (or_empty res) d) as (Hm & Hlen & Hwf).
    eexists. split; [done|]. split; [done|]. split; [|done].
    unfold within_capacity in *. rewrite Hm, Hlen. done.
  - unfold mark_failed.
    destruct (finish_inv now rid
                [("error"%string, VStr err); ("success"%string, VBool false)] d)
      as (Hm & Hlen & Hwf).
    eexists. split; [done|]. split; [done|]. split; [|done].
    unfold within_capacity in *. rewrite Hm, Hlen. done.
Qed.

Lemma run_inv (cs : list call) (d : RequestDeduplicator) :
  0 <= max_size d ->
  within_capacity d ->
  exists d' : RequestDeduplicator,
    run cs d = Returned d'
    /\ max_size d' = max_size d
    /\ within_capacity d'
    /\ (wf d -> wf d').
Proof.
  revert d. induction cs as [|c cs IH]; intros d Hmax Hcap; simpl.
  - by exists d.
  - destruct (step_inv c d Hmax Hcap) as (d1 & -> & Hm1 & Hc1 & Hwf1).
    destruct (IH d1) as (d2 & Hrun & Hm2 & Hc2 & Hwf2); [lia | done |].
    exists d2. split; [done|]. split; [congruence|]. split; [done|].
    intros Hd. by apply Hwf2, Hwf1.
Qed.

(** Every state the methods can reach from a fresh deduplicator has
    unique keys. *)
Lemma reachable_wf (ttl max : Z) (cs : list call) (d : RequestDeduplicator) :
  0 <= max -> run cs (init ttl max) = Returned d -> wf d.
Proof.
  intros Hmax Hrun.
  destruct (run_inv cs (init ttl max)) as (d' & Hrun' & _ & _ & Hwf).
  - done.
  - unfold within_capacity. simpl. lia.
  - rewrite Hrun in Hrun'. inversion Hrun'; subst. apply Hwf. constructor.
Qed.

(** *** The answer of a check *)

(** C4: from a deduplicator constructed with a capacity [max] that is not
    negative, every sequence of [is_duplicate], [mark_processing],
    [mark_completed] and [mark_failed] calls runs to its end without an
    exception and leaves at most [max] entries in the cache.  The
    sequence is arbitrary, so the bound holds after each of its calls. *)
Theorem cache_size_within_capacity (ttl max : Z) (cs : list call) :
  0 <= max ->
  exists d : RequestDeduplicator,
    run cs (init ttl max) = Returned d
    /\ max_size d = max
    /\ Z.of_nat (length (_cache d)) <= max.
Proof.
  intros Hmax.
  destruct (run_inv cs (init ttl max)) as (d & Hrun & Hm & Hcap & _).
  - done.
  - unfold within_capacity. simpl. lia.
  - exists d. split; [done|]. split; [done|].
    unfold within_capacity in Hcap. by rewrite Hm in Hcap.
Qed.

Lemma cache_size_within_capacity_witness :
  0 <= 2
  /\ exists d : RequestDeduplicator,
       run [MarkProcessing 0 "r1" "D1" "start";
            MarkProcessing 1 "r2" "D1" "stop";
            MarkProcessing 2 "r3" "D2" "start";
            IsDuplicate 3 "r2" "D1" "stop";
            MarkCompleted 4 "r3" None;
            MarkFailed 5 "r2" "boom"] (init 300 2) = Returned d
       /\ max_size d = 2
       /\ Z.of_nat (length (_cache d)) <= 2.
Proof.
  split; [lia|]. apply cache_size_within_capacity. lia.
Defined.

(** C2, as the code has it: a check for a cached request id with another
    (device, action) pair answers [(False, None)], which is the answer
    for a request id that is not cached; the module level
    [is_duplicate_request] answers the same. *)
Theorem different_request_answered_as_fresh (now : Z) (rid dev act : string)
        (d : RequestDeduplicator) (r : RequestRecord) :
  wf d ->
  od_get rid (_cache d) = Some r ->
  device_id r <> dev \/ action r <> act ->
  fst (is_duplicate now rid dev act d) = (false, None)
  /\ fst (is_duplicate_request now rid dev act d) = (false, None)
  /\ (forall d0 : RequestDeduplicator,
        od_get rid (_cache (_cleanup_expired now d0)) = None ->
        fst (is_duplicate now rid dev act d0) = (false, None)).
Proof.
  intros Hwf Hget Hdiff.
  assert (fst (is_duplicate now rid dev act d) = (false, None)) as Hdup.
  { unfold is_duplicate, _cleanup_expired.
    destruct (drop_keys_get (expired_keys (ttl_seconds d) now (_cache d))
                            rid d Hwf) as [->| ->]; [done|].
    rewrite Hget.
    destruct (String.eqb_spec (device_id r) dev) as [Hd|Hd];
      destruct (String.eqb_spec (action r) act) as [Ha|Ha]; simpl; try done.
    destruct Hdiff; contradiction. }
  split; [done|]. split.
  - unfold is_duplicate_request.
    destruct (is_duplicate now rid dev act d) as [[b o] d'].
    simpl in Hdup. by inversion Hdup.
  - intros d0 Hnone. unfold is_duplicate. by rewrite Hnone.
Qed.

Lemma different_request_answered_as_fresh_witness :
  wf r1_processing
  /\ od_get "r1" (_cache r1_processing)
     = Some (mkRequestRecord "r1" 0 "D1" "start" None true)
  /\ fst (is_duplicate 1 "r1" "D2" "start" r1_processing) = (false, None).
Proof.
  assert (wf r1_processing) as Hwf
    by (apply (reachable_wf 300 10000 [MarkProcessing 0 "r1" "D1" "start"]);
        [lia | reflexivity]).
  split; [exact Hwf|]. split; [reflexivity|].
  refine (proj1 (different_request_answered_as_fresh 1 "r1" "D2" "start"
                   r1_processing
                   (mkRequestRecord "r1" 0 "D1" "start" None true)
                   Hwf eq_refl (or_introl _))).
  discriminate.
Defined.

(** C2, as stated, fails: the check does not tell a request id cached
    with another (device, action) pair from a fresh one. *)
Lemma conflict_is_not_reported :
  ~ (forall (now : Z) (rid dev act : string) (d : RequestDeduplicator)
            (r : RequestRecord),
        wf d ->
        od_get rid (_cache d) = Some r ->
        device_id r <> dev \/ action r <> act ->
        fst (is_duplicate now rid dev act d) <> (false, None)).
Proof.
  intros H.
  apply (H 1 "r1" "D2" "start" r1_processing
           (mkRequestRecord "r1" 0 "D1" "start" None true)).
  - apply (reachable_wf 300 10000 [MarkProcessing 0 "r1" "D1" "start"]);
      [lia | reflexivity].
  - reflexivity.
  - left. discriminate.
  - reflexivity.
Qed.

(** A completed request with a result that is not empty is a hit that
    carries the result, as long as the sweep leaves its entry. *)
Lemma completed_request_is_a_hit (now : Z) (rid dev act : string)
      (d : RequestDeduplicator) (r : RequestRecord) (res : dict) :
  od_get rid (_cache (_cleanup_expired now d)) = Some r ->
  device_id r = dev ->
  action r = act ->
  processing r = false ->
  result r = Some res ->
  res <> [] ->
  fst (is_duplicate_request now rid dev act d) = (true, Some res).
Proof.
  intros Hget Hd Ha Hp Hr Hne.
  unfold is_duplicate_request, is_duplicate. rewrite Hget.
  rewrite Hd, Ha, !String.eqb_refl. simpl. rewrite Hp, Hr.
  destruct res; [done|]. done.
Qed.

(** C3 at its failing input: the request [r1] was completed with the
    empty result one second after it started.  Four seconds later
    [is_duplicate] finds its record and [get_result] gives the cached
    empty result, but [is_duplicate_request] answers [(False, None)], so
    its caller goes on as for a new request.  Completing with [None]
    stores the same record. *)
Theorem completed_with_empty_result_is_missed :
  fst (is_duplicate 5 "r1" "D1" "start" r1_completed_empty)
  = (true, Some (mkRequestRecord "r1" 1 "D1" "start" (Some []) false))
  /\ fst (get_result "r1" r1_completed_empty) = Some []
  /\ fst (is_duplicate_request 5 "r1" "D1" "start" r1_completed_empty)
     = (false, None)
  /\ _cache (mark_completed 1 "r1" None r1_processing)
     = _cache r1_completed_empty.
Proof. repeat split; reflexivity. Qed.

(** C5 at its failing input, with a time to live of 300: entry [A] has
    timestamp 0 and stands behind entry [B], whose timestamp is 10.  The
    check at time 305 stops its sweep at [B], so [A] stays cached with a
    timestamp older than 305 - 300; a check for [A] itself at that time
    is answered with the expired record. *)
Theorem expired_entry_survives_the_sweep :
  let d := snd (is_duplicate 305 "B" "D1" "start" a_behind_b) in
  (exists r : RequestRecord,
      od_get "A" (_cache d) = Some r
      /\ timestamp r < 305 - ttl_seconds d)
  /\ fst (is_duplicate 305 "A" "D1" "start" a_behind_b)
     = (true, Some (mkRequestRecord "A" 0 "D1" "start" None true)).
Proof.
  split; [|reflexivity].
  exists (mkRequestRecord "A" 0 "D1" "start" None true).
  split; reflexivity.
Qed.

(** *** Runs *)

(** With room for two entries, the third request evicts the oldest one
    from the cache and from the processing set. *)
Example third_request_evicts_the_first :
  let d := snd (mark_processing 2 "r3" "D2" "start"
             (snd (mark_processing 1 "r2" "D1" "stop"
                (snd (mark_processing 0 "r1" "D1" "start" (init 300 2)))))) in
  List.map fst (_cache d) = ["r2"; "r3"]%string
  /\ bool_decide ("r1"%string ∈ _processing d) = false
  /\ bool_decide ("r3"%string ∈ _processing d) = true.
Proof. repeat split; vm_compute; reflexivity. Qed.

(** A negative capacity makes the capacity loop run dry. *)
Example negative_capacity_raises :
  fst (mark_processing 0 "r1" "D1" "start" (init 300 (-1)))
  = Raised "StopIteration".
Proof. reflexivity. Qed.

(** A request in flight is answered with the placeholder; once it has
    completed with a result, the result is the answer. *)
Example replay_of_r1 :
  fst (is_duplicate_request 1 "r1" "D1" "start" r1_processing)
  = (true, Some processing_response)
  /\ fst (is_duplicate_request 5 "r1" "D1" "start"
            (mark_completed 1 "r1" (Some [("success"%string, VBool true)])
                            r1_processing))
     = (true, Some [("success"%string, VBool true)])
  /\ fst (is_duplicate_request 5 "r1" "D1" "start"
            (mark_failed 1 "r1" "boom" r1_processing))
     = (true, Some [("error"%string, VStr "boom");
                    ("success"%string, VBool false)]).
Proof. repeat split; reflexivity. Qed.

(** After the time to live the entry at the front is swept and the
    request is new again. *)
Example replay_after_expiry :
  fst (is_duplicate_request 302 "r1" "D1" "start"
         (mark_completed 1 "r1" (Some [("success"%string, VBool true)])
                         r1_processing))
  = (false, None).
Proof. reflexivity. Qed.

(** *** Lookups after an update *)

Lemma od_get_app (k : string) (c1 c2 : ordered_dict) :
  od_get k (c1 ++ c2)
  = match od_get k c1 with
    | Some r => Some r
    | None => od_get k c2
    end.
Proof.
  induction c1 as [|[k' r'] c1 IH]; simpl; [done|].
  by destruct (String.eqb k' k).
Qed.

Lemma od_get_move_to_end (k k0 : string) (c : ordered_dict) :
  NoDup (List.map fst c) ->
  od_get k0 (od_move_to_end k c) = od_get k0 c.
Proof.
  intros Hnd. unfold od_move_to_end.
  destruct (od_get k c) as [r|] eqn:Hk; [|done].
  rewrite od_get_app. destruct (decide (k = k0)) as [<-|Hne].
  - rewrite (od_get_absent k (od_pop k c)) by (by apply od_pop_gone).
    simpl. by rewrite String.eqb_refl.
  - rewrite (od_get_pop_other k k0 c Hne).
    destruct (od_get k0 c); [done|]. simpl.
    by destruct (String.eqb_spec k k0).
Qed.

Lemma od_get_set_other (k k0 : string) (r : RequestRecord)
      (c : ordered_dict) :
  k <> k0 -> od_get k0 (od_set k r c) = od_get k0 c.
Proof.
  intros Hne. induction c as [|[k' r'] c IH]; simpl.
  - by destruct (String.eqb_spec k k0).
  - destruct (String.eqb_spec k' k) as [->|Hk]; simpl.
    + by destruct (String.eqb_spec k k0).
    + by rewrite IH.
Qed.

Lemma od_get_present (k : string) (c : ordered_dict) :
  k ∈ List.map fst c -> exists r, od_get k c = Some r.
Proof.
  induction c as [|[k' r'] c IH]; simpl.
  - intros H. by apply elem_of_nil in H.
  - destruct (String.eqb_spec k' k) as [->|Hne]; [eauto|].
    intros [->|H]%elem_of_cons; [done | by apply IH].
Qed.

Lemma od_get_unique (k : string) (r r' : RequestRecord) (c : ordered_dict) :
  NoDup (List.map fst c) -> od_get k c = Some r -> (k, r') ∈ c -> r' = r.
Proof.
  induction c as [|[k0 r0] c IH]; simpl.
  - intros _ _ H. by apply elem_of_nil in H.
  - intros [Hk0 Hc]%NoDup_cons.
    destruct (String.eqb_spec k0 k) as [->|Hne].
    + intros Hr [Heq|Hin]%elem_of_cons; [congruence|].
      exfalso. apply Hk0. apply list_elem_of_In, in_map_iff.
      exists (k, r'). split; [done | by apply list_elem_of_In].
    + intros Hr [Heq|Hin]%elem_of_cons; [congruence | by apply IH].
Qed.

(** *** The processing set and the flags *)

Lemma agree_drop_head (k : string) (r : RequestRecord) (c : ordered_dict)
      (p : gset string) :
  NoDup (List.map fst ((k, r) :: c)) ->
  agree ((k, r) :: c) p -> agree c (p ∖ {[ k ]}).
Proof.
  intros [Hk Hc]%NoDup_cons Hag rid. rewrite elem_of_difference, (Hag rid).
  rewrite elem_of_singleton. simpl. split.
  - intros [(r' & Hget & Hp) Hne].
    destruct (String.eqb_spec k rid); [done|]. eauto.
  - intros (r' & Hget & Hp).
    assert (rid <> k) as Hne.
    { intros ->. apply Hk. by eapply od_get_key. }
    split; [|done]. exists r'. by destruct (String.eqb_spec k rid).
Qed.

Lemma keyed_drop_head (k : string) (r : RequestRecord) (c : ordered_dict) :
  NoDup (List.map fst ((k, r) :: c)) ->
  keyed_by_req_id ((k, r) :: c) -> keyed_by_req_id c.
Proof.
  intros [Hk Hc]%NoDup_cons Hkey k0 r0 Hget. apply Hkey. simpl.
  destruct (String.eqb_spec k k0) as [->|Hne]; [|done].
  exfalso. apply Hk. by eapply od_get_key.
Qed.

Lemma agree_pop (k : string) (c : ordered_dict) (p : gset string) :
  NoDup (List.map fst c) -> agree c p -> agree (od_pop k c) (p ∖ {[ k ]}).
Proof.
  intros Hnd Hag rid. rewrite elem_of_difference, (Hag rid), elem_of_singleton.
  destruct (decide (k = rid)) as [->|Hne].
  - rewrite (od_get_absent rid (od_pop rid c)) by (by apply od_pop_gone).
    split; [by intros [_ ?] | by intros (r & ? & _)].
  - rewrite (od_get_pop_other k rid c Hne). split; [by intros [? _]|].
    intros H. split; [done | congruence].
Qed.

Lemma keyed_pop (k : string) (c : ordered_dict) :
  NoDup (List.map fst c) -> keyed_by_req_id c -> keyed_by_req_id (od_pop k c).
Proof.
  intros Hnd Hkey k0 r0. destruct (decide (k = k0)) as [->|Hne].
  - by rewrite (od_get_absent k0 (od_pop k0 c)) by (by apply od_pop_gone).
  - rewrite (od_get_pop_other k k0 c Hne). apply Hkey.
Qed.

Lemma drop_keys_consistent (ks : list string) (d : RequestDeduplicator) :
  consistent d -> consistent (fold_left drop_key ks d).
Proof.
  revert d. induction ks as [|k ks IH]; intros d Hd; simpl; [done|].
  apply IH. destruct Hd as (Hwf & Hkey & Hag). split; [|split]; simpl.
  - unfold wf. simpl. by apply od_pop_NoDup.
  - by apply keyed_pop.
  - by apply agree_pop.
Qed.

Lemma enforce_loop_consistent (max : Z) (c : ordered_dict) (p : gset string) :
  NoDup (List.map fst c) -> keyed_by_req_id c -> agree c p ->
  let '(_, (c', p')) := enforce_loop max c p in
  NoDup (List.map fst c') /\ keyed_by_req_id c' /\ agree c' p'.
Proof.
  revert p. induction c as [|[k r] c IH]; intros p Hnd Hkey Hag.
  - simpl. by destruct (0 >? max).
  - cbn [enforce_loop]. destruct (Z.of_nat (length ((k, r) :: c)) >? max).
    + apply IH.
      * by apply NoDup_cons in Hnd as [_ ?].
      * by eapply keyed_drop_head.
      * by eapply agree_drop_head.
    + done.
Qed.

Lemma set_cache_move_consistent (k : string) (d : RequestDeduplicator) :
  consistent d -> consistent (set_cache (od_move_to_end k (_cache d)) d).
Proof.
  intros (Hwf & Hkey & Hag). split; [|split]; simpl.
  - unfold wf. simpl. by apply od_move_to_end_NoDup.
  - intros k0 r0. rewrite od_get_move_to_end by done. apply Hkey.
  - intros rid. rewrite od_get_move_to_end by done. apply Hag.
Qed.

Lemma is_duplicate_consistent (now : Z) (rid dev act : string)
      (d : RequestDeduplicator) :
  consistent d -> consistent (snd (is_duplicate now rid dev act d)).
Proof.
  intros Hd. unfold is_duplicate, _cleanup_expired.
  set (d1 := fold_left drop_key _ d).
  assert (consistent d1) as Hd1 by (by apply drop_keys_consistent).
  destruct (od_get rid (_cache d1)) as [r|]; [|done].
  destruct (_ && _); simpl; by apply set_cache_move_consistent.
Qed.

Lemma mark_processing_consistent (now : Z) (rid dev act : string)
      (d : RequestDeduplicator) :
  consistent d -> consistent (snd (mark_processing now rid dev act d)).
Proof.
  intros (Hwf & Hkey & Hag). unfold mark_processing.
  destruct (bool_decide_reflect (rid ∈ _processing d)) as [Hin|Hnin]; [done|].
  unfold _enforce_max_size. simpl.
  set (record := mkRequestRecord rid now dev act None true).
  pose proof (enforce_loop_consistent (max_size d)
                (od_set rid record (_cache d)) (_processing d ∪ {[ rid ]}))
    as Hloop.
  destruct (enforce_loop _ _ _) as [o [c' p']].
  destruct Hloop as (Hnd' & Hkey' & Hag').
  - by apply od_set_NoDup.
  - intros k0 r0. destruct (decide (rid = k0)) as [<-|Hne].
    + rewrite od_get_set_same. by intros [= <-].
    + rewrite od_get_set_other by done. apply Hkey.
  - intros k0. rewrite elem_of_union, elem_of_singleton, (Hag k0).
    destruct (decide (rid = k0)) as [<-|Hne].
    + rewrite od_get_set_same. split; [|by right]. intros _. by exists record.
    + rewrite od_get_set_other by done. split; [|by left].
      intros [?|?]; [done | congruence].
  - by destruct o.
Qed.

Lemma finish_consistent (now : Z) (rid : string) (res : dict)
      (d : RequestDeduplicator) :
  consistent d -> consistent (finish now rid res d).
Proof.
  intros (Hwf & Hkey & Hag). unfold finish. simpl.
  destruct (od_get rid (_cache d)) as [r|] eqn:Hget; simpl.
  - set (r' := mkRequestRecord (req_id r) now (device_id r) (action r)
                               (Some res) false).
    assert (NoDup (List.map fst (od_set rid r' (_cache d)))) as Hnd
      by (by apply od_set_NoDup).
    split; [|split]; simpl.
    + unfold wf. simpl. by apply od_move_to_end_NoDup.
    + intros k0 r0. rewrite od_get_move_to_end by done.
      destruct (decide (rid = k0)) as [<-|Hne].
      * rewrite od_get_set_same. intros [= <-]. simpl. by apply Hkey.
      * rewrite od_get_set_other by done. apply Hkey.
    + intros k0. rewrite od_get_move_to_end by done.
      rewrite elem_of_difference, elem_of_singleton, (Hag k0).
      destruct (decide (rid = k0)) as [<-|Hne].
      * rewrite od_get_set_same. split; [by intros [_ ?]|].
        intros (r0 & [= <-] & Hp). done.
      * rewrite od_get_set_other by done. split; [by intros [? _]|].
        intros H. split; [done | congruence].
  - split; [done|]. split; [done|]. simpl.
    intros k0. rewrite elem_of_difference, elem_of_singleton, (Hag k0).
    split; [by intros [? _]|]. intros (r0 & Hr0 & Hp).
    split; [by exists r0 | congruence].
Qed.

Lemma consistent_of_reachable (ttl max : Z) (d : RequestDeduplicator) :
  reachable ttl max d -> consistent d.
Proof.
  induction 1 as [|now rid dev act d _ IH|now rid dev act d _ IH
                  |now rid res d _ IH|now rid err d _ IH|rid d _ IH|d _ IH].
  - split; [constructor|]. split; [done|]. intros rid. simpl.
    split; [by intros ?%not_elem_of_empty | by intros (r & ? & _)].
  - by apply is_duplicate_consistent.
  - by apply mark_processing_consistent.
  - by apply finish_consistent.
  - by apply finish_consistent.
  - unfold get_result. destruct (od_get rid (_cache d)) as [r|]; [|done].
    destruct (processing r); [done|]. destruct (result r); [|done].
    by apply set_cache_move_consistent.
  - split; [constructor|]. split; [done|]. intros rid. simpl.
    split; [by intros ?%not_elem_of_empty | by intros (r & ? & _)].
Qed.

(** X1: in every state the methods can reach, keys are unique, every
    record is stored under its own request id, and the processing set
    holds exactly the request ids whose record is flagged as
    processing. *)
Theorem reachable_consistent (ttl max : Z) (d : RequestDeduplicator) :
  reachable ttl max d ->
  NoDup (List.map fst (_cache d))
  /\ (forall (k : string) (r : RequestRecord),
        od_get k (_cache d) = Some r -> req_id r = k)
  /\ (forall rid : string,
        rid ∈ _processing d
        <-> exists r, od_get rid (_cache d) = Some r /\ processing r = true).
Proof. apply consistent_of_reachable. Qed.

Lemma reachable_consistent_witness :
  reachable 300 10000 r1_completed_empty /\ consistent r1_completed_empty.
Proof.
  assert (reachable 300 10000 r1_completed_empty) as H
    by (apply reach_mark_completed, reach_mark_processing, reach_init).
  split; [exact H|]. exact (reachable_consistent 300 10000 _ H).
Defined.

(** *** The counts of [stats] *)

Lemma elem_of_flagged_keys (c : ordered_dict) (k : string) :
  NoDup (List.map fst c) ->
  k ∈ List.map fst (List.filter (fun kr => processing (snd kr)) c)
  <-> exists r, od_get k c = Some r /\ processing r = true.
Proof.
  intros Hnd. rewrite list_elem_of_In, in_map_iff. split.
  - intros ([k0 r0] & Hk & [Hin Hp]%filter_In). simpl in *. subst k0.
    destruct (od_get_present k c) as [r Hr].
    { apply list_elem_of_In, in_map_iff. by exists (k, r0). }
    exists r. split; [done|].
    apply list_elem_of_In in Hin.
    by rewrite <- (od_get_unique k r r0 c Hnd Hr Hin).
  - intros (r & Hr & Hp). exists (k, r). split; [done|].
    apply filter_In. split; [|done].
    by apply list_elem_of_In, od_get_elem_of.
Qed.

Lemma filter_keys_NoDup (f : string * RequestRecord -> bool)
      (c : ordered_dict) :
  NoDup (List.map fst c) -> NoDup (List.map fst (List.filter f c)).
Proof.
  induction c as [|[k r] c IH]; simpl; [done|].
  intros [Hk Hc]%NoDup_cons. destruct (f (k, r)); simpl; [|by apply IH].
  apply NoDup_cons. split; [|by apply IH].
  intros Hin. apply Hk.
  apply list_elem_of_In, in_map_iff in Hin as ([k0 r0] & Hk0 & [Hin _]%filter_In).
  apply list_elem_of_In, in_map_iff. by exists (k0, r0).
Qed.

Lemma filter_split_length {A : Type} (f : A -> bool) (l : list A) :
  length l
  = (length (List.filter f l) + length (List.filter (fun a => negb (f a)) l))%nat.
Proof.
  induction l as [|a l IH]; simpl; [done|].
  destruct (f a); simpl; lia.
Qed.

(** X2: in every reachable state the counts of [stats] add up: the
    cached entries are the processing ones and the completed ones, and no
    more entries have expired than are cached. *)
Theorem stats_add_up (ttl max now : Z) (d : RequestDeduplicator) :
  reachable ttl max d ->
  stat_total_cached (stats now d)
  = (stat_processing (stats now d) + stat_completed (stats now d))%nat
  /\ (stat_expired (stats now d) <= stat_total_cached (stats now d))%nat.
Proof.
  intros (Hwf & _ & Hag)%consistent_of_reachable. unfold stats. simpl. split.
  - assert (_processing d
            = list_to_set (List.map fst
                (List.filter (fun kr => processing (snd kr)) (_cache d))))
      as ->.
    { apply set_eq. intros k.
      rewrite elem_of_list_to_set, elem_of_flagged_keys by done. apply Hag. }
    rewrite size_list_to_set by (by apply filter_keys_NoDup).
    rewrite length_map. apply filter_split_length.
  - generalize (_cache d). clear. intros c.
    induction c as [|kr c IH]; simpl; [done|].
    destruct (_ >? _); simpl; lia.
Qed.

Lemma stats_add_up_witness :
  reachable 300 10000 a_behind_b
  /\ stat_total_cached (stats 400 a_behind_b)
     = (stat_processing (stats 400 a_behind_b)
        + stat_completed (stats 400 a_behind_b))%nat.
Proof.
  assert (reachable 300 10000 a_behind_b) as H
    by (apply reach_is_duplicate, reach_mark_processing,
          reach_mark_processing, reach_init).
  split; [exact H|]. exact (proj1 (stats_add_up 300 10000 400 _ H)).
Defined.

(** *** Entries that have not expired *)

Lemma expired_keys_expired (ttl now : Z) (c : ordered_dict) (k : string) :
  k ∈ expired_keys ttl now c ->
  exists r, (k, r) ∈ c /\ now - timestamp r > ttl.
Proof.
  induction c as [|[k0 r0] c IH]; simpl.
  - intros H. by apply elem_of_nil in H.
  - destruct (Z.gtb_spec (now - timestamp r0) ttl) as [Hgt|Hle].
    + intros [->|Hin]%elem_of_cons.
      * exists r0. split; [left | lia].
      * destruct (IH Hin) as (r & Hr & Hexp). exists r. split; [by right|done].
    + intros H. by apply elem_of_nil in H.
Qed.

Lemma drop_keys_get_other (ks : list string) (rid : string)
      (d : RequestDeduplicator) :
  rid ∉ ks ->
  od_get rid (_cache (fold_left drop_key ks d)) = od_get rid (_cache d).
Proof.
  revert d. induction ks as [|k ks IH]; intros d Hnin; simpl; [done|].
  apply not_elem_of_cons in Hnin as [Hne Hnin].
  rewrite IH by done. simpl. by apply od_get_pop_other.
Qed.

(** The sweep keeps every entry that has not expired. *)
Lemma sweep_keeps_unexpired (now : Z) (rid : string) (r : RequestRecord)
      (d : RequestDeduplicator) :
  wf d ->
  od_get rid (_cache d) = Some r ->
  now - timestamp r <= ttl_seconds d ->
  od_get rid (_cache (_cleanup_expired now d)) = Some r.
Proof.
  intros Hwf Hget Hfresh. unfold _cleanup_expired.
  rewrite drop_keys_get_other; [done|].
  intros (r' & Hin & Hexp)%expired_keys_expired.
  rewrite (od_get_unique rid r r' (_cache d) Hwf Hget Hin) in Hexp. lia.
Qed.

Lemma is_duplicate_hit (now : Z) (rid : string) (r : RequestRecord)
      (d : RequestDeduplicator) :
  wf d ->
  od_get rid (_cache d) = Some r ->
  now - timestamp r <= ttl_seconds d ->
  is_duplicate now rid (device_id r) (action r) d
  = ((true, Some r),
     set_cache (od_pop rid (_cache (_cleanup_expired now d)) ++ [(rid, r)])
               (_cleanup_expired now d)).
Proof.
  intros Hwf Hget Hfresh.
  pose proof (sweep_keeps_unexpired now rid r d Hwf Hget Hfresh) as Hkept.
  unfold is_duplicate. rewrite Hkept, !String.eqb_refl. simpl.
  unfold od_move_to_end. by rewrite Hkept.
Qed.

(** X3: a check for a cached request that has not expired, with the
    device and action it was stored with, is a hit that returns the
    stored record and makes its entry the most recently used one. *)
Theorem unexpired_request_is_a_hit (now : Z) (rid : string)
        (r : RequestRecord) (d : RequestDeduplicator) :
  wf d ->
  od_get rid (_cache d) = Some r ->
  now - timestamp r <= ttl_seconds d ->
  fst (is_duplicate now rid (device_id r) (action r) d) = (true, Some r)
  /\ last (_cache (snd (is_duplicate now rid (device_id r) (action r) d)))
     = Some (rid, r).
Proof.
  intros Hwf Hget Hfresh. rewrite is_duplicate_hit by done. simpl.
  split; [done | apply last_snoc].
Qed.

Lemma unexpired_request_is_a_hit_witness :
  wf a_behind_b
  /\ od_get "B" (_cache a_behind_b)
     = Some (mkRequestRecord "B" 10 "D1" "start" None true)
  /\ 310 - 10 <= ttl_seconds a_behind_b
  /\ fst (is_duplicate 310 "B" "D1" "start" a_behind_b)
     = (true, Some (mkRequestRecord "B" 10 "D1" "start" None true)).
Proof.
  assert (wf a_behind_b) as Hwf.
  { apply (reachable_wf 300 10000
             [MarkProcessing 0 "A" "D1" "start";
              MarkProcessing 10 "B" "D1" "start";
              IsDuplicate 20 "A" "D1" "start"]); [lia | reflexivity]. }
  assert (310 - 10 <= ttl_seconds a_behind_b) as Hfresh by (vm_compute; discriminate).
  split; [exact Hwf|]. split; [reflexivity|]. split; [exact Hfresh|].
  exact (proj1 (unexpired_request_is_a_hit 310 "B"
           (mkRequestRecord "B" 10 "D1" "start" None true) a_behind_b
           Hwf eq_refl Hfresh)).
Defined.

(** *** Marking a request as processing *)

Lemma enforce_loop_noop (max : Z) (c : ordered_dict) (p : gset string) :
  Z.of_nat (length c) <= max ->
  enforce_loop max c p = (Returned tt, (c, p)).
Proof.
  intros Hle. destruct c as [|[k r] c]; cbn [enforce_loop].
  - simpl in Hle. by destruct (Z.gtb_spec 0 max); [lia|].
  - by destruct (Z.gtb_spec (Z.of_nat (length ((k, r) :: c))) max); [lia|].
Qed.

Lemma od_set_new (k : string) (r : RequestRecord) (c : ordered_dict) :
  od_get k c = None -> od_set k r c = c ++ [(k, r)].
Proof.
  induction c as [|[k' r'] c IH]; simpl; [done|].
  destruct (String.eqb k' k); [done|]. intros H. by rewrite IH.
Qed.

Lemma od_get_none_not_key (k : string) (c : ordered_dict) :
  od_get k c = None -> k ∉ List.map fst c.
Proof.
  intros Hnone Hin. destruct (od_get_present k c Hin) as [r Hr]. congruence.
Qed.

Lemma mark_processing_on_full_cache (now : Z) (rid dev act : string)
      (d : RequestDeduplicator) (k0 : string) (r0 : RequestRecord)
      (rest : ordered_dict) :
  _cache d = (k0, r0) :: rest ->
  Z.of_nat (length (_cache d)) = max_size d ->
  od_get rid (_cache d) = None ->
  rid ∉ _processing d ->
  mark_processing now rid dev act d
  = (Returned true,
     mkDedup (ttl_seconds d) (max_size d)
             (rest ++ [(rid, mkRequestRecord rid now dev act None true)])
             ((_processing d ∪ {[ rid ]}) ∖ {[ k0 ]})).
Proof.
  intros Hc Hfull Hnone Hnin. unfold mark_processing.
  rewrite bool_decide_eq_false_2 by done.
  unfold _enforce_max_size. simpl. rewrite od_set_new by done.
  rewrite Hc in *. cbn [app enforce_loop].
  destruct (Z.gtb_spec
              (Z.of_nat (length ((k0, r0)
                 :: rest ++ [(rid, mkRequestRecord rid now dev act None true)])))
              (max_size d)) as [_|Hle].
  - rewrite enforce_loop_noop; [done|].
    rewrite length_app. simpl in *. lia.
  - simpl in Hle, Hfull. rewrite length_app in Hle. simpl in Hle. lia.
Qed.

(** X5: on a full cache, marking a request that is not cached evicts
    exactly the entry at the front, from the cache and from the
    processing set, and appends the new record. *)
Theorem full_cache_evicts_the_front (now : Z) (rid dev act : string)
        (d : RequestDeduplicator) (k0 : string) (r0 : RequestRecord)
        (rest : ordered_dict) :
  _cache d = (k0, r0) :: rest ->
  Z.of_nat (length (_cache d)) = max_size d ->
  od_get rid (_cache d) = None ->
  rid ∉ _processing d ->
  mark_processing now rid dev act d
  = (Returned true,
     mkDedup (ttl_seconds d) (max_size d)
             (rest ++ [(rid, mkRequestRecord rid now dev act None true)])
             ((_processing d ∪ {[ rid ]}) ∖ {[ k0 ]})).
Proof. apply mark_processing_on_full_cache. Qed.

Lemma full_cache_evicts_the_front_witness :
  let d := snd (mark_processing 1 "r2" "D1" "stop"
             (snd (mark_processing 0 "r1" "D1" "start" (init 300 2)))) in
  _cache d = [("r1", mkRequestRecord "r1" 0 "D1" "start" None true);
              ("r2", mkRequestRecord "r2" 1 "D1" "stop" None true)]%string
  /\ _cache (snd (mark_processing 2 "r3" "D2" "start" d))
     = [("r2", mkRequestRecord "r2" 1 "D1" "stop" None true);
        ("r3", mkRequestRecord "r3" 2 "D2" "start" None true)]%string.
Proof.
  intros d. split; [reflexivity|].
  rewrite (full_cache_evicts_the_front 2 "r3" "D2" "start" d "r1"
             (mkRequestRecord "r1" 0 "D1" "start" None true)
             [("r2", mkRequestRecord "r2" 1 "D1" "stop" None true)]%string).
  - reflexivity.
  - reflexivity.
  - reflexivity.
  - reflexivity.
  - vm_compute. intros H. discriminate H.
Defined.

(** The state a successful [mark_processing] leaves. *)
Lemma mark_processing_marks (now : Z) (rid dev act : string)
      (d : RequestDeduplicator) :
  1 <= max_size d ->
  within_capacity d ->
  wf d ->
  rid ∉ _processing d ->
  exists d' : RequestDeduplicator,
    mark_processing now rid dev act d = (Returned true, d')
    /\ rid ∈ _processing d'
    /\ od_get rid (_cache d')
       = Some (mkRequestRecord rid now dev act None true)
    /\ ttl_seconds d' = ttl_seconds d
    /\ max_size d' = max_size d
    /\ within_capacity d'
    /\ wf d'.
Proof.
  intros Hmax Hcap Hwf Hnin.
  destruct (mark_processing_inv now rid dev act d) as (b & d' & Hmp & Hm & Hc & Hw);
    [lia | done |].
  set (record := mkRequestRecord rid now dev act None true).
  destruct (od_get rid (_cache d)) as [r|] eqn:Hget.
  - (* the key is cached: the record is replaced in place *)
    unfold mark_processing in *.
    rewrite bool_decide_eq_false_2 in * by done.
    unfold _enforce_max_size in *. simpl in *.
    rewrite enforce_loop_noop in *
      by (rewrite (od_set_length_present rid record r) by done; exact Hcap).
    inversion Hmp; subst; clear Hmp. eexists. split; [done|]. simpl.
    split; [set_solver|]. split; [apply od_get_set_same|].
    split; [done|]. split; [done|]. split; [done | by apply Hw].
  - destruct (decide (Z.of_nat (length (_cache d)) = max_size d)) as [Hfull|Hroom].
    + destruct (_cache d) as [|[k0 r0] rest] eqn:Hc0.
      { simpl in Hfull. lia. }
      rewrite <- Hc0 in Hfull, Hget.
      rewrite (mark_processing_on_full_cache now rid dev act d k0 r0 rest)
        in * by done.
      inversion Hmp; subst; clear Hmp. eexists. split; [done|]. simpl.
      assert (k0 <> rid) as Hne.
      { intros ->. rewrite Hc0 in Hget. simpl in Hget.
        by rewrite String.eqb_refl in Hget. }
      split; [set_solver|]. split.
      * rewrite od_get_app.
        rewrite Hc0 in Hget. simpl in Hget.
        destruct (String.eqb_spec k0 rid); [done|]. rewrite Hget. simpl.
        by rewrite String.eqb_refl.
      * split; [done|]. split; [done|]. split; [done | by apply Hw].
    + unfold mark_processing in *.
      rewrite bool_decide_eq_false_2 in * by done.
      unfold _enforce_max_size in *. simpl in *.
      rewrite od_set_new in * by done.
      rewrite enforce_loop_noop in *
        by (rewrite length_app; simpl; unfold within_capacity in Hcap; lia).
      inversion Hmp; subst; clear Hmp. eexists. split; [done|]. simpl.
      split; [set_solver|]. split.
      * rewrite od_get_app, Hget. simpl. by rewrite String.eqb_refl.
      * split; [done|]. split; [done|]. split; [done | by apply Hw].
Qed.

(** X4: marking is a test and set.  With room for at least one entry, a
    request that is not being processed is marked, is then reported as
    processing with its record cached, and a second marking of the same
    request id is refused and changes nothing. *)
Theorem mark_processing_is_test_and_set (now now' : Z)
        (rid dev act dev' act' : string) (d : RequestDeduplicator) :
  1 <= max_size d ->
  within_capacity d ->
  wf d ->
  rid ∉ _processing d ->
  exists d' : RequestDeduplicator,
    mark_processing now rid dev act d = (Returned true, d')
    /\ is_processing rid d' = true
    /\ od_get rid (_cache d')
       = Some (mkRequestRecord rid now dev act None true)
    /\ mark_processing now' rid dev' act' d' = (Returned false, d').
Proof.
  intros Hmax Hcap Hwf Hnin.
  destruct (mark_processing_marks now rid dev act d Hmax Hcap Hwf Hnin)
    as (d' & Hmp & Hin & Hget & _).
  exists d'. split; [done|]. unfold is_processing, mark_processing.
  rewrite !bool_decide_eq_true_2 by done. done.
Qed.

Lemma mark_processing_is_test_and_set_witness :
  1 <= max_size (init 300 10000)
  /\ within_capacity (init 300 10000)
  /\ wf (init 300 10000)
  /\ ("r1"%string ∉ _processing (init 300 10000))
  /\ exists d' : RequestDeduplicator,
       mark_processing 0 "r1" "D1" "start" (init 300 10000)
       = (Returned true, d')
       /\ is_processing "r1" d' = true
       /\ od_get "r1" (_cache d')
          = Some (mkRequestRecord "r1" 0 "D1" "start" None true)
       /\ mark_processing 7 "r1" "D2" "stop" d' = (Returned false, d').
Proof.
  assert (1 <= max_size (init 300 10000)) as H1 by (vm_compute; discriminate).
  assert (within_capacity (init 300 10000)) as H2 by (vm_compute; discriminate).
  assert (wf (init 300 10000)) as H3 by constructor.
  assert (("r1"%string) ∉ _processing (init 300 10000)) as H4
    by apply not_elem_of_empty.
  split; [exact H1|]. split; [exact H2|]. split; [exact H3|].
  split; [exact H4|].
  exact (mark_processing_is_test_and_set 0 7 "r1" "D1" "start" "D2" "stop"
           (init 300 10000) H1 H2 H3 H4).
Defined.

(** *** The decorator *)

Lemma drop_keys_processing (ks : list string) (d : RequestDeduplicator) :
  _processing (fold_left drop_key ks d) ⊆ _processing d.
Proof.
  revert d. induction ks as [|k ks IH]; intros d; simpl; [done|].
  etrans; [apply IH|]. simpl. by intros x [Hx _]%elem_of_difference.
Qed.

Lemma finish_stores (now : Z) (rid : string) (res : dict)
      (d : RequestDeduplicator) (r : RequestRecord) :
  wf d ->
  od_get rid (_cache d) = Some r ->
  od_get rid (_cache (finish now rid res d))
  = Some (mkRequestRecord (req_id r) now (device_id r) (action r)
                          (Some res) false)
  /\ ttl_seconds (finish now rid res d) = ttl_seconds d.
Proof.
  intros Hwf Hget. unfold finish. simpl. rewrite Hget. simpl.
  split; [|done]. rewrite od_get_move_to_end by (by apply od_set_NoDup).
  apply od_get_set_same.
Qed.

(** What the wrapper stores for a call. *)
Lemma wrapper_first_call (t t' t'' : Z) (rid dev act : string)
      (func : behaviour) (d : RequestDeduplicator) :
  wf d ->
  within_capacity d ->
  1 <= max_size d ->
  od_get rid (_cache d) = None ->
  rid ∉ _processing d ->
  exists d1 : RequestDeduplicator,
    wrapper t t' t'' rid dev act func d
    = (match func with
       | Gives res => Returned res
       | Throws exc_class _ => Raised exc_class
       end, d1)
    /\ wf d1
    /\ ttl_seconds d1 = ttl_seconds d
    /\ od_get rid (_cache d1)
       = Some (mkRequestRecord rid t'' dev act
                 (Some match func with
                       | Gives res => or_empty res
                       | Throws _ message =>
                           [("error"%string, VStr message);
                            ("success"%string, VBool false)]
                       end) false).
Proof.
  intros Hwf Hcap Hmax Hnone Hnin. unfold wrapper, is_duplicate_request.
  (* the check misses and leaves the swept state *)
  assert (is_duplicate t rid dev act d = ((false, None), _cleanup_expired t d))
    as ->.
  { unfold is_duplicate, _cleanup_expired.
    destruct (drop_keys_get (expired_keys (ttl_seconds d) t (_cache d)) rid d Hwf)
      as [-> | ->]; [done|]. by rewrite Hnone. }
  simpl. set (d0 := _cleanup_expired t d).
  assert (wf d0) as Hwf0 by (by apply drop_keys_wf).
  pose proof (drop_keys_fields (expired_keys (ttl_seconds d) t (_cache d)) d)
    as [Httl0 Hmax0]. fold (_cleanup_expired t d) in Httl0, Hmax0. fold d0 in Httl0, Hmax0.
  assert (within_capacity d0) as Hcap0.
  { unfold within_capacity in *. rewrite Hmax0.
    pose proof (drop_keys_length (expired_keys (ttl_seconds d) t (_cache d)) d).
    unfold d0, _cleanup_expired. lia. }
  assert (rid ∉ _processing d0) as Hnin0.
  { intros Hin. apply Hnin. by eapply drop_keys_processing. }
  destruct (mark_processing_marks t' rid dev act d0)
    as (d' & -> & _ & Hget' & Httl' & _ & _ & Hwf'); [lia | done | done | done |].
  destruct func as [res|exc_class message].
  - unfold mark_completed.
    destruct (finish_stores t'' rid (or_empty res) d' _ Hwf' Hget') as [Hst Httl].
    eexists. split; [done|]. split; [by apply finish_inv|].
    split; [congruence | done].
  - unfold mark_failed.
    destruct (finish_stores t'' rid
                [("error"%string, VStr message); ("success"%string, VBool false)]
                d' _ Hwf' Hget') as [Hst Httl].
    eexists. split; [done|]. split; [by apply finish_inv|].
    split; [congruence | done].
Qed.

(** A request whose stored result is not empty is answered from the
    cache, whatever the function would do. *)
Lemma wrapper_replays (t t' t'' : Z) (rid : string) (r : RequestRecord)
      (stored : dict) (func : behaviour) (d : RequestDeduplicator) :
  wf d ->
  od_get rid (_cache d) = Some r ->
  t - timestamp r <= ttl_seconds d ->
  processing r = false ->
  result r = Some stored ->
  stored <> [] ->
  fst (wrapper t t' t'' rid (device_id r) (action r) func d)
  = Returned (Some stored).
Proof.
  intros Hwf Hget Hfresh Hp Hr Hne.
  unfold wrapper, is_duplicate_request. rewrite is_duplicate_hit by done.
  rewrite Hp, Hr. destruct stored; [done|]. done.
Qed.

(** X6: a call for a request that is not cached runs the function; when
    the function returns a result that is not empty, a second call for
    the same request within the time to live returns that result
    whatever the function would do then: the function is not run
    again. *)
Theorem completed_call_is_not_run_again (t1 t1' t1'' t2 t2' t2'' : Z)
        (rid dev act : string) (res : dict) (func : behaviour)
        (d : RequestDeduplicator) :
  wf d ->
  within_capacity d ->
  1 <= max_size d ->
  od_get rid (_cache d) = None ->
  rid ∉ _processing d ->
  res <> [] ->
  t2 - t1'' <= ttl_seconds d ->
  exists d1 : RequestDeduplicator,
    wrapper t1 t1' t1'' rid dev act (Gives (Some res)) d
    = (Returned (Some res), d1)
    /\ fst (wrapper t2 t2' t2'' rid dev act func d1) = Returned (Some res).
Proof.
  intros Hwf Hcap Hmax Hnone Hnin Hne Hfresh.
  destruct (wrapper_first_call t1 t1' t1'' rid dev act (Gives (Some res)) d)
    as (d1 & Hw & Hwf1 & Httl1 & Hget1); try done.
  exists d1. split; [done|].
  assert (or_empty (Some res) = res) as Hor by (by destruct res).
  rewrite Hor in Hget1.
  apply (wrapper_replays t2 t2' t2'' rid
           (mkRequestRecord rid t1'' dev act (Some res) false) res func d1);
    try done.
  simpl. lia.
Qed.

Lemma completed_call_is_not_run_again_witness :
  wf (init 300 10000)
  /\ within_capacity (init 300 10000)
  /\ 1 <= max_size (init 300 10000)
  /\ od_get "r1" (_cache (init 300 10000)) = None
  /\ ("r1"%string ∉ _processing (init 300 10000))
  /\ [("success"%string, VBool true)] <> []
  /\ 5 - 2 <= ttl_seconds (init 300 10000)
  /\ exists d1 : RequestDeduplicator,
       wrapper 0 1 2 "r1" "D1" "start"
               (Gives (Some [("success"%string, VBool true)]))
               (init 300 10000)
       = (Returned (Some [("success"%string, VBool true)]), d1)
       /\ fst (wrapper 5 6 7 "r1" "D1" "start" (Throws "RuntimeError" "no")
                       d1)
          = Returned (Some [("success"%string, VBool true)]).
Proof.
  assert (wf (init 300 10000)) as H1 by constructor.
  assert (within_capacity (init 300 10000)) as H2 by (vm_compute; discriminate).
  assert (1 <= max_size (init 300 10000)) as H3 by (vm_compute; discriminate).
  assert (("r1"%string) ∉ _processing (init 300 10000)) as H5
    by apply not_elem_of_empty.
  assert ([("success"%string, VBool true)] <> []) as H6 by discriminate.
  assert (5 - 2 <= ttl_seconds (init 300 10000)) as H7
    by (vm_compute; discriminate).
  split; [exact H1|]. split; [exact H2|]. split; [exact H3|].
  split; [reflexivity|]. split; [exact H5|]. split; [exact H6|].
  split; [exact H7|].
  exact (completed_call_is_not_run_again 0 1 2 5 6 7 "r1" "D1" "start"
           [("success"%string, VBool true)] (Throws "RuntimeError" "no")
           (init 300 10000) H1 H2 H3 eq_refl H5 H6 H7).
Defined.

(** X7: when the function raises, the wrapper raises the same exception
    and stores the failure; a second call for the same request within
    the time to live does not run the function and does not raise: it
    returns the stored error dict. *)
Theorem failed_call_replays_its_error (t1 t1' t1'' t2 t2' t2'' : Z)
        (rid dev act exc_class message : string) (func : behaviour)
        (d : RequestDeduplicator) :
  wf d ->
  within_capacity d ->
  1 <= max_size d ->
  od_get rid (_cache d) = None ->
  rid ∉ _processing d ->
  t2 - t1'' <= ttl_seconds d ->
  exists d1 : RequestDeduplicator,
    wrapper t1 t1' t1'' rid dev act (Throws exc_class message) d
    = (Raised exc_class, d1)
    /\ fst (wrapper t2 t2' t2'' rid dev act func d1)
       = Returned (Some [("error"%string, VStr message);
                         ("success"%string, VBool false)]).
Proof.
  intros Hwf Hcap Hmax Hnone Hnin Hfresh.
  destruct (wrapper_first_call t1 t1' t1'' rid dev act
              (Throws exc_class message) d)
    as (d1 & Hw & Hwf1 & Httl1 & Hget1); try done.
  exists d1. split; [done|].
  apply (wrapper_replays t2 t2' t2'' rid
           (mkRequestRecord rid t1'' dev act
              (Some [("error"%string, VStr message);
                     ("success"%string, VBool false)]) false)
           [("error"%string, VStr message); ("success"%string, VBool false)]
           func d1); try done.
  simpl. lia.
Qed.

Lemma failed_call_replays_its_error_witness :
  wf (init 300 10000)
  /\ within_capacity (init 300 10000)
  /\ 1 <= max_size (init 300 10000)
  /\ od_get "r1" (_cache (init 300 10000)) = None
  /\ ("r1"%string ∉ _processing (init 300 10000))
  /\ 5 - 2 <= ttl_seconds (init 300 10000)
  /\ exists d1 : RequestDeduplicator,
       wrapper 0 1 2 "r1" "D1" "start" (Throws "OSError" "port busy")
               (init 300 10000)
       = (Raised "OSError", d1)
       /\ fst (wrapper 5 6 7 "r1" "D1" "start"
                       (Gives (Some [("success"%string, VBool true)])) d1)
          = Returned (Some [("error"%string, VStr "port busy");
                            ("success"%string, VBool false)]).
Proof.
  assert (wf (init 300 10000)) as H1 by constructor.
  assert (within_capacity (init 300 10000)) as H2 by (vm_compute; discriminate).
  assert (1 <= max_size (init 300 10000)) as H3 by (vm_compute; discriminate).
  assert (("r1"%string) ∉ _processing (init 300 10000)) as H5
    by apply not_elem_of_empty.
  assert (5 - 2 <= ttl_seconds (init 300 10000)) as H7
    by (vm_compute; discriminate).
  split; [exact H1|]. split; [exact H2|]. split; [exact H3|].
  split; [reflexivity|]. split; [exact H5|]. split; [exact H7|].
  exact (failed_call_replays_its_error 0 1 2 5 6 7 "r1" "D1" "start"
           "OSError" "port busy"
           (Gives (Some [("success"%string, VBool true)]))
           (init 300 10000) H1 H2 H3 eq_refl H5 H7).
Defined.

End DedupFacts.

(** ** The persistence gateway *)

Module DbFacts.
Import Py Db.
Local Open Scope Z_scope.

Lemma first_by_req_id_key (rid : string) (rows : list Command) (c : Command) :
  first_by_req_id rid rows = Some c -> req_id c = rid.
Proof.
  induction rows as [|c0 rows IH]; simpl; [done|].
  destruct (String.eqb_spec (req_id c0) rid) as [Heq|Hne]; [|done].
  intros H. by inversion H; subst.
Qed.

Lemma first_by_req_id_absent (rid : string) (rows : list Command) :
  Forall (fun c => req_id c <> rid) rows -> first_by_req_id rid rows = None.
Proof.
  induction 1 as [|c rows Hc _ IH]; simpl; [done|].
  by destruct (String.eqb_spec (req_id c) rid).
Qed.

Lemma first_after_update (rid : string) (rows : list Command)
      (c c' : Command) :
  first_by_req_id rid rows = Some c ->
  req_id c' = rid ->
  first_by_req_id rid (update_first rid c' rows) = Some c'.
Proof.
  intros Hc Hc'. induction rows as [|c0 rows IH]; simpl in *; [done|].
  destruct (String.eqb_spec (req_id c0) rid) as [Heq|Hne]; simpl.
  - by rewrite Hc', String.eqb_refl.
  - destruct (String.eqb_spec (req_id c0) rid); [done|]. by apply IH.
Qed.

Lemma update_first_twice (rid : string) (rows : list Command)
      (c1 c2 : Command) :
  req_id c1 = rid ->
  update_first rid c2 (update_first rid c1 rows) = update_first rid c2 rows.
Proof.
  intros Hc1. induction rows as [|c0 rows IH]; simpl; [done|].
  destruct (String.eqb_spec (req_id c0) rid) as [Heq|Hne]; simpl.
  - by rewrite Hc1, String.eqb_refl.
  - destruct (String.eqb_spec (req_id c0) rid); [done|]. by rewrite IH.
Qed.

Section Gateway.
Variable ms_of_micros : Z -> Z.

(** The six assignments do not read what an earlier acknowledgment
    wrote. *)
Lemma acknowledge_twice (ok1 ok2 : bool) (err1 err2 : option string)
      (det1 det2 : option dict) (t1 u1 t2 u2 : datetime) (c : Command) :
  acknowledge ms_of_micros ok2 err2 det2 t2 u2
    (acknowledge ms_of_micros ok1 err1 det1 t1 u1 c)
  = acknowledge ms_of_micros ok2 err2 det2 t2 u2 c.
Proof.
  unfold acknowledge. simpl. by destruct (dispatched_at c).
Qed.

(** An acknowledgment leaves the columns written at dispatch alone. *)
Lemma acknowledge_frame (ok : bool) (err : option string)
      (det : option dict) (t u : datetime) (c : Command) :
  let c' := acknowledge ms_of_micros ok err det t u c in
  id c' = id c /\ req_id c' = req_id c /\ device_id c' = device_id c
  /\ module_name c' = module_name c /\ actor c' = actor c
  /\ action c' = action c /\ params c' = params c
  /\ dispatched_at c' = dispatched_at c.
Proof. done. Qed.

End Gateway.

(** What an acknowledgment returns for a request that has a row. *)
Lemma ack_of_dispatched (ms_of_micros : Z -> Z) (rid : string) (ok : bool)
      (err : option string) (det : option dict) (t u : datetime)
      (db : Database) (c : Command) :
  first_by_req_id rid (commands db) = Some c ->
  fst (record_command_ack ms_of_micros rid ok err det t u db)
  = Some (acknowledge ms_of_micros ok err det t u c).
Proof. intros H. unfold record_command_ack. by rewrite H. Qed.

(** A dispatch with a new request id adds the row that the lookup of the
    acknowledgment then finds. *)
Lemma dispatch_then_lookup (new_id : string) (now : datetime)
      (rid dev module act_or act : string) (ps : dict) (db db' : Database)
      (c : Command) :
  record_command_dispatch new_id now rid dev module act_or act ps db
  = (Returned c, db') ->
  first_by_req_id rid (commands db') = Some c /\ status c = "dispatched"%string.
Proof.
  unfold record_command_dispatch.
  destruct (first_by_req_id rid (commands db)) eqn:Hnone; [done|].
  intros H. inversion H; subst; clear H. simpl. split; [|done].
  induction (commands db) as [|c0 rows IH]; simpl in *.
  - by rewrite String.eqb_refl.
  - destruct (String.eqb_spec (req_id c0) rid); [done|]. by apply IH.
Qed.

(** C1, as the code has it: the second acknowledgment of a request
    overwrites what the first one wrote.  The record it returns and the
    tables it leaves are those of a single call with the arguments and
    clock readings of the second call.  A second call that repeats the
    arguments and clock readings of the first therefore returns the
    record of the first and leaves the row as it is. *)
Theorem second_ack_is_the_last_write (ms_of_micros : Z -> Z) (rid : string)
        (ok1 ok2 : bool) (err1 err2 : option string)
        (det1 det2 : option dict) (t1 u1 t2 u2 : datetime) (db : Database) :
  record_command_ack ms_of_micros rid ok2 err2 det2 t2 u2
    (snd (record_command_ack ms_of_micros rid ok1 err1 det1 t1 u1 db))
  = record_command_ack ms_of_micros rid ok2 err2 det2 t2 u2 db.
Proof.
  unfold record_command_ack at 2 3.
  destruct (first_by_req_id rid (commands db)) as [c|] eqn:Hc; simpl.
  - pose proof (first_by_req_id_key _ _ _ Hc) as Hrid.
    unfold record_command_ack. simpl.
    rewrite (first_after_update rid (commands db) c
               (acknowledge ms_of_micros ok1 err1 det1 t1 u1 c) Hc Hrid).
    rewrite acknowledge_twice. unfold set_commands. simpl.
    by rewrite update_first_twice.
  - unfold record_command_ack. by rewrite Hc.
Qed.

(** C1, as stated, fails: after the dispatch of [r1], a successful
    acknowledgment followed by a failed one returns a failed record and
    replaces the acknowledged row. *)
Lemma second_ack_changes_the_row :
  let first :=
    record_command_ack whole_ms "r1" true None None 120000 120000
                       r1_dispatched in
  let second :=
    record_command_ack whole_ms "r1" false (Some "late failure"%string) None
                       500000 500000 (snd first) in
  (status <$> fst first) = Some "acked"%string
  /\ (status <$> fst second) = Some "failed"%string
  /\ fst second <> fst first
  /\ commands (snd second) <> commands (snd first).
Proof. repeat split; try reflexivity; discriminate. Qed.

(** C10: an acknowledgment for a request id that no row of the commands
    table carries returns [None] and leaves every table as it was. *)
Theorem ack_for_unknown_request_is_a_noop (ms_of_micros : Z -> Z)
        (rid : string) (ok : bool) (err : option string)
        (det : option dict) (t u : datetime) (db : Database) :
  Forall (fun c => req_id c <> rid) (commands db) ->
  record_command_ack ms_of_micros rid ok err det t u db = (None, db).
Proof.
  intros H. unfold record_command_ack.
  by rewrite (first_by_req_id_absent _ _ H).
Qed.

Lemma ack_for_unknown_request_is_a_noop_witness :
  Forall (fun c => req_id c <> "r2"%string) (commands r1_dispatched)
  /\ record_command_ack whole_ms "r2" true None None 120000 120000
                        r1_dispatched
     = (None, r1_dispatched).
Proof.
  assert (Forall (fun c => req_id c <> "r2"%string) (commands r1_dispatched))
    as H by (repeat constructor; discriminate).
  split; [exact H|].
  exact (ack_for_unknown_request_is_a_noop whole_ms "r2" true None None
           120000 120000 r1_dispatched H).
Defined.

(** The cleanup raises at [datetime.timedelta], before it opens a
    session. *)
Lemma cleanup_always_raises (now : datetime) (days : Z) (db : Database) :
  cleanup_old_records now days db = (Raised "AttributeError", db).
Proof. reflexivity. Qed.

Lemma elem_of_kept {A : Type} (ts : A -> Z) (cutoff : Z) (l : list A)
      (x : A) :
  x ∈ List.filter (fun a => negb (ts a <? cutoff)) l
  <-> x ∈ l /\ ~ ts x < cutoff.
Proof.
  rewrite !list_elem_of_In, filter_In, negb_true_iff, Z.ltb_nlt. done.
Qed.

(** The DELETE statements at the cutoff of the specification would
    remove the rows older than it and keep the commands; they are never
    reached. *)
Lemma delete_older_at_the_cutoff (now : datetime) (days : Z) (db : Database) :
  let db' := delete_older (spec_cutoff now days) db in
  commands db' = commands db
  /\ (forall h, h ∈ heartbeats db' <->
                h ∈ heartbeats db /\ ~ hb_timestamp h < spec_cutoff now days)
  /\ (forall s, s ∈ module_status db' <->
                s ∈ module_status db
                /\ ~ ms_timestamp s < spec_cutoff now days)
  /\ (forall e, e ∈ events db' <->
                e ∈ events db /\ ~ ev_timestamp e < spec_cutoff now days).
Proof.
  split; [reflexivity|].
  split; [|split]; intros x; simpl; apply elem_of_kept.
Qed.

(** C7 at its failing input: a heartbeat is 100 days old and the
    retention is 30 days.  The cleanup raises [AttributeError] and the
    tables stay as they were, the old heartbeat included.  The commands
    table is unchanged, as the specification asks. *)
Theorem cleanup_deletes_nothing :
  cleanup_old_records hundred_days_later 30 with_old_heartbeat
  = (Raised "AttributeError", with_old_heartbeat)
  /\ heartbeats with_old_heartbeat = [old_heartbeat]
  /\ hb_timestamp old_heartbeat < spec_cutoff hundred_days_later 30.
Proof. repeat split; reflexivity. Qed.

(** The happy path of one command: dispatched at time 0 and
    acknowledged 120 ms later. *)
Example r1_acknowledged :
  fst (record_command_ack whole_ms "r1" true None None 120000 120400
                          r1_dispatched)
  = Some (mkCommand "c-1" "r1" "D1" (Some "m") (Some "api") "start" (Some [])
                    "acked" (Some 0) (Some 120000) (Some true) None (Some [])
                    (Some 120))%string.
Proof. reflexivity. Qed.

(** A second dispatch of the same request id is rejected by the unique
    index. *)
Example r1_dispatched_twice :
  record_command_dispatch "c-2" 5 "r1" "D1" "m" "api" "start" [] r1_dispatched
  = (Raised "IntegrityError", r1_dispatched).
Proof. reflexivity. Qed.

(** The duration goes through floats: 1001000 microseconds are 1.001
    seconds, whose float is below 1.001, and count as 1000 ms. *)
Example whole_ms_goes_through_floats :
  whole_ms 1001000 = 1000
  /\ whole_ms 120400 = 120
  /\ whole_ms 57000 = 57
  /\ whole_ms 999 = 0
  /\ whole_ms (365 * microseconds_per_day) = 31536000000.
Proof. repeat split; vm_compute; reflexivity. Qed.

(** *** The commands table under dispatch and acknowledgment *)

Lemma update_first_req_ids (rid : string) (c' : Command)
      (rows : list Command) :
  req_id c' = rid ->
  List.map req_id (update_first rid c' rows) = List.map req_id rows.
Proof.
  intros Hc'. induction rows as [|c rows IH]; simpl; [done|].
  destruct (String.eqb_spec (req_id c) rid) as [Heq|Hne]; simpl.
  - congruence.
  - by rewrite IH.
Qed.

Lemma first_by_req_id_none (rid : string) (rows : list Command) :
  first_by_req_id rid rows = None -> rid ∉ List.map req_id rows.
Proof.
  induction rows as [|c rows IH]; simpl.
  - intros _ H. by apply elem_of_nil in H.
  - destruct (String.eqb_spec (req_id c) rid) as [Heq|Hne]; [done|].
    intros Hnone [->|Hin]%elem_of_cons; [done | by apply IH].
Qed.

Lemma first_by_req_id_app (rid : string) (rows1 rows2 : list Command) :
  first_by_req_id rid (rows1 ++ rows2)
  = match first_by_req_id rid rows1 with
    | Some c => Some c
    | None => first_by_req_id rid rows2
    end.
Proof.
  induction rows1 as [|c rows1 IH]; simpl; [done|].
  by destruct (String.eqb (req_id c) rid).
Qed.

Lemma first_after_update_other (rid rid' : string) (c' : Command)
      (rows : list Command) :
  req_id c' = rid ->
  rid' <> rid ->
  first_by_req_id rid' (update_first rid c' rows) = first_by_req_id rid' rows.
Proof.
  intros Hc' Hne. induction rows as [|c rows IH]; simpl; [done|].
  destruct (String.eqb_spec (req_id c) rid) as [Heq|Hc]; simpl.
  - rewrite Hc'. destruct (String.eqb_spec rid rid'); [congruence|].
    destruct (String.eqb_spec (req_id c) rid'); [congruence | done].
  - by rewrite IH.
Qed.

Lemma update_first_length (rid : string) (c' : Command)
      (rows : list Command) :
  length (update_first rid c' rows) = length rows.
Proof.
  induction rows as [|c rows IH]; simpl; [done|].
  destruct (String.eqb (req_id c) rid); simpl; [done | by rewrite IH].
Qed.

(** X8: dispatch and acknowledgment keep the request ids of the commands
    table distinct: a dispatch adds a row only for a request id that has
    none, and an acknowledgment rewrites a row in place. *)
Theorem req_ids_stay_unique (ms_of_micros : Z -> Z) (new_id : string)
        (now : datetime) (rid dev module act_or act : string) (ps : dict)
        (ok : bool) (err : option string) (det : option dict)
        (t u : datetime) (db : Database) :
  NoDup (List.map req_id (commands db)) ->
  NoDup (List.map req_id
           (commands (snd (record_command_dispatch new_id now rid dev module
                                                   act_or act ps db))))
  /\ NoDup (List.map req_id
             (commands (snd (record_command_ack ms_of_micros rid ok err det
                                                t u db)))).
Proof.
  intros Hnd. split.
  - unfold record_command_dispatch.
    destruct (first_by_req_id rid (commands db)) eqn:Hf; [done|]. simpl.
    rewrite List.map_app. apply NoDup_app. split; [done|]. split.
    + intros x Hx [->|Hnil]%elem_of_cons.
      * by apply (first_by_req_id_none rid (commands db)).
      * by apply elem_of_nil in Hnil.
    + apply NoDup_singleton.
  - unfold record_command_ack.
    destruct (first_by_req_id rid (commands db)) as [c|] eqn:Hf; [|done].
    simpl. rewrite update_first_req_ids; [done|].
    simpl. by eapply first_by_req_id_key.
Qed.

Lemma req_ids_stay_unique_witness :
  NoDup (List.map req_id (commands r1_r2_dispatched))
  /\ List.map req_id
       (commands (snd (record_command_dispatch "c-3" 90 "r3" "D1" "m" "api"
                         "stop" [] r1_r2_dispatched)))
     = ["r1"; "r2"; "r3"]%string
  /\ NoDup (List.map req_id
              (commands (snd (record_command_dispatch "c-3" 90 "r3" "D1" "m"
                                "api" "stop" [] r1_r2_dispatched))))
  /\ status <$> commands (snd (record_command_ack whole_ms "r1" true None
                                  None 120000 120400 r1_r2_dispatched))
     = ["acked"; "dispatched"]%string
  /\ NoDup (List.map req_id
              (commands (snd (record_command_ack whole_ms "r1" true None None
                                120000 120400 r1_r2_dispatched)))).
Proof.
  assert (NoDup (List.map req_id (commands r1_r2_dispatched))) as H.
  { apply NoDup_cons. split; [by intros [= ]%list_elem_of_singleton|].
    apply NoDup_singleton. }
  split; [exact H|]. split; [reflexivity|].
  split; [exact (proj1 (req_ids_stay_unique whole_ms "c-3" 90 "r3" "D1" "m"
                          "api" "stop" [] true None None 120000 120400
                          r1_r2_dispatched H))|].
  split; [reflexivity|].
  exact (proj2 (req_ids_stay_unique whole_ms "c-3" 90 "r1" "D1" "m" "api"
                  "stop" [] true None None 120000 120400 r1_r2_dispatched H)).
Defined.

(** X9: an acknowledgment touches one row only.  The rows of other
    request ids are found as before, the number of rows does not change
    and the other tables are left alone. *)
Theorem ack_leaves_other_requests_alone (ms_of_micros : Z -> Z)
        (rid rid' : string) (ok : bool) (err : option string)
        (det : option dict) (t u : datetime) (db : Database) :
  rid' <> rid ->
  let db' := snd (record_command_ack ms_of_micros rid ok err det t u db) in
  first_by_req_id rid' (commands db') = first_by_req_id rid' (commands db)
  /\ length (commands db') = length (commands db)
  /\ module_status db' = module_status db
  /\ heartbeats db' = heartbeats db
  /\ events db' = events db.
Proof.
  intros Hne. unfold record_command_ack.
  destruct (first_by_req_id rid (commands db)) as [c|] eqn:Hf; [|done].
  simpl. split; [|split; [apply update_first_length | done]].
  apply first_after_update_other; [|done].
  simpl. by eapply first_by_req_id_key.
Qed.

Lemma ack_leaves_other_requests_alone_witness :
  ("r2" : string) <> "r1"
  /\ status <$> first_by_req_id "r1"
                  (commands (snd (record_command_ack whole_ms "r1" false
                                    (Some "no signal"%string) None
                                    120000 120400 r1_r2_dispatched)))
     = Some "failed"%string
  /\ first_by_req_id "r2"
       (commands (snd (record_command_ack whole_ms "r1" false
                         (Some "no signal"%string) None 120000 120400
                         r1_r2_dispatched)))
     = first_by_req_id "r2" (commands r1_r2_dispatched)
  /\ length (commands (snd (record_command_ack whole_ms "r1" false
                              (Some "no signal"%string) None 120000 120400
                              r1_r2_dispatched)))
     = length (commands r1_r2_dispatched).
Proof.
  assert (("r2" : string) <> "r1") as H by discriminate.
  split; [exact H|]. split; [reflexivity|].
  pose proof (ack_leaves_other_requests_alone whole_ms "r1" "r2" false
                (Some "no signal"%string) None 120000 120400
                r1_r2_dispatched H) as (Hrow & Hlen & _).
  split; [exact Hrow | exact Hlen].
Defined.

(** X10: a dispatched command that is acknowledged.  The acknowledgment
    returns and stores the dispatched row with status "acked" for a
    success and "failed" otherwise, the success flag, the error message,
    the details (an empty map when none are given), the time of the
    acknowledgment and the duration since the dispatch. *)
Theorem dispatch_then_ack (ms_of_micros : Z -> Z) (new_id : string)
        (now : datetime) (rid dev module act_or act : string) (ps : dict)
        (ok : bool) (err : option string) (det : option dict)
        (t u : datetime) (db db1 : Database) (c : Command) :
  record_command_dispatch new_id now rid dev module act_or act ps db
  = (Returned c, db1) ->
  let c' :=
    mkCommand new_id rid dev (Some module) (Some act_or) act (Some ps)
              (if ok then "acked" else "failed") (Some now) (Some t)
              (Some ok) err (Some (or_empty det))
              (Some (ms_of_micros (u - now))) in
  fst (record_command_ack ms_of_micros rid ok err det t u db1) = Some c'
  /\ first_by_req_id rid
       (commands (snd (record_command_ack ms_of_micros rid ok err det t u
                                          db1)))
     = Some c'.
Proof.
  intros Hd.
  destruct (dispatch_then_lookup _ _ _ _ _ _ _ _ _ _ _ Hd) as [Hf _].
  assert (c = mkCommand new_id rid dev (Some module) (Some act_or) act
                (Some ps) "dispatched" (Some now) None None None (Some [])
                None) as ->.
  { unfold record_command_dispatch in Hd.
    destruct (first_by_req_id rid (commands db)); [done|]. by inversion Hd. }
  unfold record_command_ack. rewrite Hf. simpl. split; [done|].
  by apply (first_after_update rid (commands db1) _ _ Hf).
Qed.

Lemma dispatch_then_ack_witness :
  record_command_dispatch "c-1" 0 "r1" "D1" "m" "api" "start" []
                          empty_database
  = (Returned (mkCommand "c-1" "r1" "D1" (Some "m") (Some "api") "start"
                 (Some []) "dispatched" (Some 0) None None None (Some [])
                 None)%string,
     r1_dispatched)
  /\ fst (record_command_ack whole_ms "r1" false (Some "boom"%string) None
                            120000 120000 r1_dispatched)
     = Some (mkCommand "c-1" "r1" "D1" (Some "m") (Some "api") "start"
               (Some []) "failed" (Some 0) (Some 120000) (Some false)
               (Some "boom") (Some []) (Some (whole_ms (120000 - 0))))%string.
Proof.
  split; [reflexivity|].
  exact (proj1 (dispatch_then_ack whole_ms "c-1" 0 "r1" "D1" "m" "api"
                  "start" [] false (Some "boom"%string) None 120000 120000
                  empty_database r1_dispatched _ eq_refl)).
Defined.

(** *** The latest module status *)

Lemma newest_spec (rows : list ModuleStatus) :
  match newest rows with
  | None => rows = []
  | Some s =>
      s ∈ rows /\ forall s', s' ∈ rows -> ms_timestamp s' <= ms_timestamp s
  end.
Proof.
  induction rows as [|s0 rows IH]; simpl; [done|].
  destruct (newest rows) as [s1|].
  - destruct IH as [Hin Hmax].
    destruct (Z.ltb_spec (ms_timestamp s0) (ms_timestamp s1)).
    + split; [by right|]. intros s' [->|Hs']%elem_of_cons; [lia | by apply Hmax].
    + split; [left|]. intros s' [->|Hs']%elem_of_cons; [lia|].
      specialize (Hmax _ Hs'). lia.
  - subst rows. split; [left|]. intros s' [->|Hs']%elem_of_cons; [lia|].
    by apply elem_of_nil in Hs'.
Qed.

(** X11: the latest status of a module is a stored row of that device
    and module whose timestamp no other row of that device and module
    exceeds; there is none exactly when no row of that device and module
    is stored. *)
Theorem latest_module_status_is_the_newest (dev module : string)
        (db : Database) :
  match get_latest_module_status dev module db with
  | Some s =>
      s ∈ module_status db
      /\ ms_device_id s = dev /\ ms_module_name s = module
      /\ forall s', s' ∈ module_status db ->
                    ms_device_id s' = dev -> ms_module_name s' = module ->
                    ms_timestamp s' <= ms_timestamp s
  | None =>
      forall s', s' ∈ module_status db ->
                 ~ (ms_device_id s' = dev /\ ms_module_name s' = module)
  end.
Proof.
  unfold get_latest_module_status.
  set (f := fun s => String.eqb (ms_device_id s) dev
                     && String.eqb (ms_module_name s) module).
  assert (forall s, s ∈ List.filter f (module_status db)
                    <-> s ∈ module_status db
                        /\ ms_device_id s = dev /\ ms_module_name s = module)
    as Hf.
  { intros s. rewrite !list_elem_of_In, filter_In. unfold f.
    rewrite andb_true_iff, !String.eqb_eq. done. }
  pose proof (newest_spec (List.filter f (module_status db))) as Hn.
  destruct (newest (List.filter f (module_status db))) as [s|].
  - destruct Hn as [Hin Hmax]. apply Hf in Hin as (Hin & Hd & Hm).
    split; [done|]. split; [done|]. split; [done|].
    intros s' Hs' Hd' Hm'. apply Hmax, Hf. done.
  - intros s' Hs' [Hd' Hm'].
    assert (s' ∈ List.filter f (module_status db)) as Hin by (by apply Hf).
    rewrite Hn in Hin. by apply elem_of_nil in Hin.
Qed.

End DbFacts.

(** ** The dead letter queue *)

Module DeadLetterFacts.
Import Py DeadLetter.
Local Open Scope Z_scope.

(** The lookup finds nothing, so a retry is refused whatever the id. *)
Lemma retry_is_always_refused (publish_raises : string -> dict -> bool)
      (max_retries : Z) (dlq_id now_iso : string) :
  retry_message publish_raises max_retries dlq_id now_iso = (false, []).
Proof. reflexivity. Qed.

(** C6, as the code has it.  For a record the lookup returns and a
    publish that does not raise: below the maximum the retry publishes
    the payload of the record on its original topic (qos 1, not
    retained), hands the record with the count raised by one to
    [_update_dlq_message] and returns [True]; when the raised count would
    exceed the maximum it publishes nothing, updates nothing and returns
    [False], without a reason.  The lookup of the class is a placeholder
    that returns no record, so [retry_message] itself returns [False] and
    publishes nothing. *)
Theorem retry_of_a_looked_up_record (publish_raises : string -> dict -> bool)
        (lookup : string -> option DeadLetterMessage) (max_retries : Z)
        (dlq_id now_iso : string) (m : DeadLetterMessage) :
  lookup dlq_id = Some m ->
  publish_raises (original_topic m) (payload m) = false ->
  (retry_count m < max_retries ->
   exists m' : DeadLetterMessage,
     retry_message_with publish_raises lookup max_retries dlq_id now_iso
     = (true, [mkPublication (original_topic m) (payload m) 1 false], Some m')
     /\ retry_count m' = retry_count m + 1
     /\ id m' = id m
     /\ original_topic m' = original_topic m
     /\ payload m' = payload m)
  /\ (max_retries < retry_count m + 1 ->
      retry_message_with publish_raises lookup max_retries dlq_id now_iso
      = (false, [], None))
  /\ retry_message publish_raises max_retries dlq_id now_iso = (false, []).
Proof.
  intros Hm Hpub. unfold retry_message_with. rewrite Hm, Hpub.
  split; [|split].
  - intros Hlt. destruct (Z.geb_spec (retry_count m) max_retries); [lia|].
    exists (bump now_iso m). done.
  - intros Hge. destruct (Z.geb_spec (retry_count m) max_retries); [done|lia].
  - reflexivity.
Qed.

Lemma retry_of_a_looked_up_record_witness :
  stored timed_out_command "dlq-1" = Some timed_out_command
  /\ never_raises (original_topic timed_out_command)
                  (payload timed_out_command) = false
  /\ retry_message never_raises default_max_retries "dlq-1"
                   "2024-01-02T00:00:00Z" = (false, []).
Proof.
  split; [reflexivity|]. split; [reflexivity|].
  exact (proj2 (proj2 (retry_of_a_looked_up_record never_raises
           (stored timed_out_command) default_max_retries "dlq-1"
           "2024-01-02T00:00:00Z" timed_out_command eq_refl eq_refl))).
Defined.

(** C6, as stated, fails: the record has never been retried and the
    maximum is 3, yet the retry returns [False] and publishes nothing. *)
Lemma retry_does_not_republish :
  retry_count timed_out_command < default_max_retries
  /\ retry_message never_raises default_max_retries (id timed_out_command)
                   "2024-01-02T00:00:00Z" = (false, []).
Proof. split; reflexivity. Qed.

(** With a lookup that finds the record, the first retry republishes the
    command and the fourth is refused. *)
Example retry_with_a_store :
  retry_message_with never_raises (stored timed_out_command)
                     default_max_retries "dlq-1" "2024-01-02T00:00:00Z"
  = (true,
     [mkPublication "/lab/device/D1/m/cmd" (payload timed_out_command) 1 false],
     Some (bump "2024-01-02T00:00:00Z" timed_out_command))
  /\ retry_count (bump "2024-01-02T00:00:00Z" timed_out_command) = 1
  /\ retry_message_with never_raises
       (stored (bump "c" (bump "b" (bump "a" timed_out_command))))
       default_max_retries "dlq-1" "2024-01-02T00:00:00Z"
     = (false, [], None).
Proof. repeat split; reflexivity. Qed.

(** *** Topics of the queue *)

Lemma slash_free_app_slash (a b : string) :
  slash_free (a ++ String "/" b) = false.
Proof.
  induction a as [|c a IH]; simpl; [done|].
  rewrite IH. apply andb_false_r.
Qed.

Lemma append_slash_inj (d d' m m' : string) :
  slash_free d = true -> slash_free d' = true ->
  (d ++ String "/" m = d' ++ String "/" m')%string ->
  d = d' /\ m = m'.
Proof.
  revert d'. induction d as [|c d IH]; intros [|c' d'] Hd Hd' H;
    simpl in Hd, Hd'; unfold append in H; fold append in H.
  - by inversion H.
  - inversion H; subst. done.
  - inversion H; subst. done.
  - apply andb_true_iff in Hd as [_ Hd]. apply andb_true_iff in Hd' as [_ Hd'].
    inversion H; subst. destruct (IH d' Hd Hd') as [-> ->]; done.
Qed.

Lemma given_nonempty (s : string) : s <> ""%string -> given (Some s) = true.
Proof. intros H. simpl. by destruct (String.eqb_spec s ""). Qed.

(** X18: for device ids without a slash, the topic [send_to_dlq] picks
    tells the scope of the failure: two device-and-module scopes share a
    topic only when device and module are the same, and no such topic is
    the topic of the orchestrator.  The one clash is a module called
    "device", whose topic is that of the failures of the device
    itself. *)
Theorem dlq_topic_tells_the_scope (d m d' m' : string) :
  slash_free d = true -> slash_free d' = true ->
  d <> ""%string -> m <> ""%string -> d' <> ""%string -> m' <> ""%string ->
  (dlq_topic (Some d) (Some m) = dlq_topic (Some d') (Some m')
   <-> d = d' /\ m = m')
  /\ (dlq_topic (Some d) None = dlq_topic (Some d') (Some m')
      <-> d = d' /\ m' = "device"%string)
  /\ dlq_topic (Some d) (Some m) <> dlq_topic None None
  /\ dlq_topic None (Some m) = dlq_topic None None.
Proof.
  intros Hd Hd' Hn Hm Hn' Hm'. unfold dlq_topic.
  rewrite !given_nonempty by done. cbn [given andb default].
  unfold append; fold append.
  split; [|split; [|split]].
  - split; [|by intros [-> ->]].
    intros [= H]. by apply append_slash_inj.
  - split; [|by intros [-> ->]].
    intros [= H]. apply (append_slash_inj d d' "device" m') in H as [-> <-]; done.
  - intros [= H].
    assert (slash_free (d ++ String "/" m) = false) as Hs
      by apply slash_free_app_slash.
    rewrite H in Hs. discriminate Hs.
  - done.
Qed.

Lemma dlq_topic_tells_the_scope_witness :
  slash_free "D1" = true /\ slash_free "D2" = true
  /\ ("D1" : string) <> "" /\ ("ndi" : string) <> ""
  /\ ("D2" : string) <> "" /\ ("device" : string) <> ""
  /\ (dlq_topic (Some "D1") None = dlq_topic (Some "D2") (Some "device")
      <-> ("D1" : string) = "D2" /\ ("device" : string) = "device").
Proof.
  assert (("D1" : string) <> "") as H1 by discriminate.
  assert (("ndi" : string) <> "") as H2 by discriminate.
  assert (("D2" : string) <> "") as H3 by discriminate.
  assert (("device" : string) <> "") as H4 by discriminate.
  split; [reflexivity|]. split; [reflexivity|].
  split; [exact H1|]. split; [exact H2|]. split; [exact H3|].
  split; [exact H4|].
  exact (proj1 (proj2 (dlq_topic_tells_the_scope "D1" "ndi" "D2" "device"
                         eq_refl eq_refl H1 H2 H3 H4))).
Defined.

(** The publication of a timeout of module [m] of device [D1]. *)
Example timeout_sent_to_the_queue :
  let p := send_to_dlq "dlq-1" "2024-01-01T00:00:30Z" "2024-01-01T00:00:30Z"
             "/lab/device/D1/m/cmd"
             [("req_id", VStr "r2"); ("action", VStr "start")]%string
             TIMEOUT "Command timed out after 30 seconds"
             (Some "D1") (Some "m") None 0 None in
  topic p = "/lab/dlq/D1/m"%string
  /\ dict_get "req_id" (body p) = Some (VStr "r2")
  /\ dict_get "failure_reason" (body p) = Some (VStr "timeout")
  /\ dict_get "metadata" (body p) = Some (VDict []).
Proof. repeat split; reflexivity. Qed.

(** *** Operator commands *)

Lemma dict_get_set_same (k : string) (v : value) (d : dict) :
  dict_get k (dict_set k v d) = Some v.
Proof.
  induction d as [|[k' v'] d IH]; simpl.
  - by rewrite String.eqb_refl.
  - destruct (String.eqb_spec k' k) as [->|Hne]; simpl.
    + by rewrite String.eqb_refl.
    + by destruct (String.eqb_spec k' k).
Qed.

Lemma dict_get_set_other (k k0 : string) (v : value) (d : dict) :
  k <> k0 -> dict_get k0 (dict_set k v d) = dict_get k0 d.
Proof.
  intros Hne. induction d as [|[k' v'] d IH]; simpl.
  - by destruct (String.eqb_spec k k0).
  - destruct (String.eqb_spec k' k) as [->|Hk]; simpl.
    + by destruct (String.eqb_spec k k0).
    + by rewrite IH.
Qed.

Section Handler.
Variable publish_error : string -> dict -> option (string * string).
Variable type_error_text : value -> string.
Variable py_str : value -> string.
Variable max_retries : Z.

Lemma retry_of_refused (dlq_id : value) (now_iso : string) :
  retry_of publish_error max_retries dlq_id now_iso = (false, []).
Proof. by destruct dlq_id. Qed.

(** What the [try] block builds: nothing is published on the way, and a
    [retry] is never reported as a success. *)
Lemma response_for_spec (payload : dict) (now_iso : string) :
  exists built,
    response_for publish_error type_error_text py_str max_retries
                 payload now_iso = ([], built)
    /\ match built with
       | inl response =>
           dict_get "req_id" response = None
           /\ dict_get "ts" response = None
           /\ dict_get "success" response <> Some (VBool true)
              \/ is_text (dict_get "action" payload) "retry" = false
       | inr _ => True
       end.
Proof.
  unfold response_for.
  destruct (is_text (dict_get "action" payload) "retry") eqn:Hretry.
  - destruct (truthy_value _).
    + rewrite retry_of_refused. eexists. split; [done|]. simpl. left. done.
    + eexists. split; [done|]. simpl. left. done.
  - destruct (is_text _ "purge");
      [eexists; split; [done|]; by right|].
    destruct (is_text _ "stats");
      [eexists; split; [done|]; by right|].
    destruct (is_text _ "list").
    + destruct (filters_accepted _); eexists; (split; [done|]); [by right|done].
    + eexists. split; [done|]. by right.
Qed.

(** X19: with a client whose publications go through, every operator
    command is answered by exactly one publication, on
    [/lab/dlq/response] with qos 1 and not retained, that echoes the
    [req_id] of the command (the empty string when it has none); a
    [retry] command is never answered with success. *)
Theorem every_command_gets_one_response (payload : dict)
        (now_iso later_iso : string) :
  (forall topic body, publish_error topic body = None) ->
  exists body : dict,
    _handle_dlq_command publish_error type_error_text py_str max_retries
                        payload now_iso later_iso
    = ([mkPublication "/lab/dlq/response" body 1 false], Returned tt)
    /\ dict_get "req_id" body
       = Some (default (VStr "") (dict_get "req_id" payload))
    /\ (is_text (dict_get "action" payload) "retry" = true ->
        dict_get "success" body <> Some (VBool true)).
Proof.
  intros Hpub. unfold _handle_dlq_command, report_error.
  destruct (response_for_spec payload now_iso) as (built & -> & Hb).
  destruct built as [response|text]; rewrite Hpub; simpl.
  - eexists. split; [done|]. split.
    + rewrite dict_get_set_other by discriminate. apply dict_get_set_same.
    + intros Hretry. rewrite !dict_get_set_other by discriminate.
      destruct Hb as [(_ & _ & H)|H]; [done | congruence].
  - eexists. split; [done|]. split; [done|]. discriminate.
Qed.

End Handler.

Lemma every_command_gets_one_response_witness :
  (forall topic body, always_published topic body = None)
  /\ exists body : dict,
       _handle_dlq_command always_published some_text some_text
                           default_max_retries
                           [("action", VStr "retry"); ("dlq_id", VStr "dlq-1");
                            ("req_id", VStr "op1")]%string
                           "2024-01-02T00:00:00Z" "2024-01-02T00:00:01Z"
       = ([mkPublication "/lab/dlq/response" body 1 false], Returned tt)
       /\ dict_get "req_id" body = Some (VStr "op1").
Proof.
  split; [reflexivity|].
  destruct (every_command_gets_one_response always_published some_text
              some_text default_max_retries
              [("action", VStr "retry"); ("dlq_id", VStr "dlq-1");
               ("req_id", VStr "op1")]%string
              "2024-01-02T00:00:00Z" "2024-01-02T00:00:01Z"
              (fun _ _ => eq_refl)) as (body & Hrun & Hreq & _).
  exists body. split; [exact Hrun | exact Hreq].
Defined.

(** The answers to a retry, to a listing with a filter the method does
    not know, and to a command without an action. *)
Example operator_commands :
  fst (_handle_dlq_command always_published some_text some_text
         default_max_retries
         [("action", VStr "retry"); ("dlq_id", VStr "dlq-1");
          ("req_id", VStr "op1")]%string "t1" "t2")
  = [mkPublication "/lab/dlq/response"
       [("action", VStr "retry"); ("dlq_id", VStr "dlq-1");
        ("success", VBool false); ("req_id", VStr "op1");
        ("ts", VStr "t1")]%string 1 false]
  /\ fst (_handle_dlq_command always_published some_text some_text
            default_max_retries
            [("action", VStr "list");
             ("filters", VDict [("status", VStr "new")])]%string "t1" "t2")
     = [mkPublication "/lab/dlq/response"
          [("error", VStr "..."); ("req_id", VStr ""); ("ts", VStr "t2")]%string
          1 false]
  /\ fst (_handle_dlq_command always_published some_text some_text
            default_max_retries [("req_id", VStr "op3")]%string "t1" "t2")
     = [mkPublication "/lab/dlq/response"
          [("error", VStr "Unknown action: ..."); ("req_id", VStr "op3");
           ("ts", VStr "t1")]%string 1 false].
Proof. repeat split; reflexivity. Qed.

End DeadLetterFacts.

(** ** The backoff delay and the retry loops *)

Module RetryFacts.
Import Py Float FloatFacts Retry.
Local Open Scope Q_scope.

(** The jitter of a sample in [[0, 1]] lies within the jitter range,
    when twice the range is still a float. *)
Lemma uniform_within (r u w : Q) :
  representable r -> 0 <= u -> u <= 1 ->
  add (Finite r) (Finite r) = Finite w ->
  exists j, uniform (neg (Finite r)) (Finite r) (Finite u) = Finite j
            /\ - Qabs r <= j /\ j <= Qabs r.
Proof.
  intros Hr H0 H1 Hw. cbn [add] in Hw.
  pose proof (representable_double r w Hr Hw) as Ew.
  unfold uniform, sub. cbn [neg add].
  pose proof (round_comp (r + - - r) (r + r) ltac:(ring)) as Hsame.
  rewrite Hw in Hsame.
  destruct (round (r + - - r)) as [w'| |] eqn:Hw'; simpl in Hsame; try done.
  cbn [mul].
  pose proof (round_representable _ _ Hw') as Rw'.
  pose proof (representable_opp r Hr) as Rnr.
  destruct (Qlt_le_dec r 0) as [Hneg|Hpos].
  - assert (Qabs r == - r) as Eabs by (apply Qabs_neg; lra).
    assert (w' <= w' * u /\ w' * u <= 0) as [Ha Hb] by (split; nra).
    destruct (round_between w' 0 (w' * u) Rw' representable_zero Ha Hb)
      as (y & Hy & Hy1 & Hy2).
    rewrite Hy. cbn [add].
    destruct (round_between r (- r) (- r + y) Hr Rnr) as (j & Hj & Hj1 & Hj2);
      [lra | lra|].
    exists j. rewrite Hj. split; [done|]. lra.
  - assert (Qabs r == r) as Eabs by (apply Qabs_pos; lra).
    assert (0 <= w' * u /\ w' * u <= w') as [Ha Hb] by (split; nra).
    destruct (round_between 0 w' (w' * u) representable_zero Rw' Ha Hb)
      as (y & Hy & Hy1 & Hy2).
    rewrite Hy. cbn [add].
    destruct (round_between (- r) r (- r + y) Rnr Hr) as (j & Hj & Hj1 & Hj2);
      [lra | lra|].
    exists j. rewrite Hj. split; [done|]. lra.
Qed.






(** The default configuration without jitter: 1, 2, 4, ... seconds,
    capped at 60; the last attempt with a delay is the 1024th. *)
Example default_delays_without_jitter :
  calculate_delay pow_rounded without_jitter 1 (Finite 0)
  = Returned (Finite 1)
  /\ calculate_delay pow_rounded without_jitter 3 (Finite 0)
     = Returned (Finite 4)
  /\ calculate_delay pow_rounded without_jitter 7 (Finite 0)
     = Returned (Finite 60)
  /\ calculate_delay pow_rounded without_jitter 1024 (Finite 0)
     = Returned (Finite 60).
Proof. repeat split; vm_compute; reflexivity. Qed.

(** With the default jitter the third delay lies between the floats
    next to 3.6 and 4.4. *)
Example third_default_delay_with_jitter :
  calculate_delay pow_rounded default_config 3 (Finite 0)
  = Returned (Finite (8106479329266893 # 2251799813685248))
  /\ calculate_delay pow_rounded default_config 3 (Finite (1 # 2))
     = Returned (Finite 4)
  /\ calculate_delay pow_rounded default_config 3 (Finite 1)
     = Returned (Finite (2476979795053773 # 562949953421312)).
Proof. repeat split; vm_compute; reflexivity. Qed.

(** Rounding can take a delay above the exact bound
    max_delay * (1 + jitter_factor): with a maximal delay of 1.0, the
    factor 0.1 and the largest sample below 1, the delay is the float
    1.1, which is greater than 11/10. *)
Example rounding_exceeds_the_exact_bound :
  exists v,
    calculate_delay pow_rounded
      (mkRetryConfig 3 (Finite 1) (Finite 1) (Finite 2) true one_tenth) 1
      (Finite (1 - 2 ^ (-53)))
    = Returned (Finite v)
    /\ 11 # 10 < v.
Proof.
  exists (2476979795053773 # 2251799813685248).
  split; vm_compute; reflexivity.
Qed.


(** *** Bounds on the delay *)

Lemma round_nonneg (x : Q) : 0 <= x -> le (Finite 0) (round x).
Proof. intros H. apply (round_le 0 x H). Qed.

Lemma max_zero_upper (a b : float) :
  le a b -> le (Finite 0) b -> le (max (Finite 0) a) b.
Proof.
  intros Hab H0. unfold max. by destruct (lt (Finite 0) a).
Qed.

Lemma add_finite (a b : float) (v : Q) :
  add a b = Finite v ->
  exists x y, a = Finite x /\ b = Finite y /\ round (x + y) = Finite v.
Proof.
  destruct a as [x|s|], b as [y|t|]; simpl; try done.
  - intros H. by exists x, y.
  - by destruct (Bool.eqb s t).
Qed.

(** The delay under a configuration without negative numbers, for a
    power that is not negative and a jitter range of the maximal delay
    that can be doubled. *)
Lemma calculate_delay_bounds (float_pow : float -> Z -> outcome float)
      (cfg : RetryConfig) (n : Z) (b p m jf u W : Q) :
  base_delay cfg = Finite b -> 0 <= b ->
  float_pow (exponential_base cfg) (n - 1)%Z = Returned (Finite p) ->
  0 <= p ->
  max_delay cfg = Finite m -> 0 <= m ->
  jitter_factor cfg = Finite jf -> 0 <= jf ->
  add (mul (Finite m) (Finite jf)) (mul (Finite m) (Finite jf)) = Finite W ->
  0 <= u -> u <= 1 ->
  exists v,
    calculate_delay float_pow cfg n (Finite u) = Returned v
    /\ le (Finite 0) v
    /\ (jitter cfg = false -> le v (Finite m))
    /\ (jitter cfg = true ->
        le v (add (Finite m) (mul (Finite m) (Finite jf)))).
Proof.
  intros Hb Hb0 Hp Hp0 Hm Hm0 Hjf Hjf0 HW Hu0 Hu1.
  unfold calculate_delay. rewrite Hp, Hb, Hm, Hjf. cbn [mul].
  (* the delay before the jitter *)
  assert (exists d, min (round (b * p)) (Finite m) = Finite d
                    /\ 0 <= d /\ d <= m) as (d & -> & Hd0 & Hdm).
  { pose proof (round_nonneg (b * p) ltac:(nra)) as Hx.
    unfold min. destruct (round (b * p)) as [x|[]|]; simpl in Hx; try done.
    - unfold lt. compare_Q x m; simpl; [exists x | exists m];
        (split; [done|]); lra.
    - exists m. simpl. split; [done|]. lra. }
  destruct (jitter cfg).
  - (* the jitter range of the delay is at most that of the maximal delay *)
    destruct (add_finite _ _ _ HW) as (R & R' & HR & HR' & HRR).
    cbn [mul] in HR, HR'. rewrite HR in HR'. injection HR' as <-.
    pose proof (round_representable _ _ HR) as RR.
    cbn [mul]. 
    assert (exists r, round (d * jf) = Finite r /\ 0 <= r /\ r <= R)
      as (r & Hr & Hr0 & HrR).
    { pose proof (round_nonneg (d * jf) ltac:(nra)) as H1.
      pose proof (round_le (d * jf) (m * jf) ltac:(nra)) as H2.
      rewrite HR in H2.
      destruct (round (d * jf)) as [r|[]|]; simpl in H1, H2; try done.
      by exists r. }
    rewrite Hr. pose proof (round_representable _ _ Hr) as Rr.
    assert (exists w, add (Finite r) (Finite r) = Finite w) as (w & Hw).
    { cbn [add].
      pose proof (round_nonneg (r + r) ltac:(lra)) as H1.
      pose proof (round_le (r + r) (R + R) ltac:(lra)) as H2.
      rewrite HRR in H2.
      destruct (round (r + r)) as [w|[]|]; simpl in H1, H2; try done.
      by exists w. }
    destruct (uniform_within r u w Rr Hu0 Hu1 Hw) as (j & Hj & Hj1 & Hj2).
    rewrite Hj. cbn [add]. rewrite (Qabs_pos r Hr0) in Hj1, Hj2.
    eexists. split; [reflexivity|]. split; [apply max_zero_nonneg|].
    split; [done|]. intros _. rewrite HR. cbn [add].
    apply max_zero_upper; [apply round_le; lra | apply round_nonneg; lra].
  - exists (Finite d). split; [done|]. split; [done|]. split; [|done].
    intros _. simpl. lra.
Qed.

(** X12: for a base delay, a maximal delay and a jitter factor that are
    not negative, a power that is not negative and a sample in
    [[0, 1]], the delay is never negative; without jitter it never
    exceeds max_delay, and with jitter it never exceeds
    max_delay + max_delay * jitter_factor, the sum and the product
    being those of the floats, when twice that product is still a
    float. *)
Theorem delay_is_bounded (float_pow : float -> Z -> outcome float)
        (cfg : RetryConfig) (n : Z) (b p m jf u W : Q) :
  base_delay cfg = Finite b -> 0 <= b ->
  float_pow (exponential_base cfg) (n - 1)%Z = Returned (Finite p) ->
  0 <= p ->
  max_delay cfg = Finite m -> 0 <= m ->
  jitter_factor cfg = Finite jf -> 0 <= jf ->
  add (mul (Finite m) (Finite jf)) (mul (Finite m) (Finite jf)) = Finite W ->
  0 <= u -> u <= 1 ->
  exists v,
    calculate_delay float_pow cfg n (Finite u) = Returned v
    /\ le (Finite 0) v
    /\ (jitter cfg = false -> le v (Finite m))
    /\ (jitter cfg = true ->
        le v (add (Finite m) (mul (Finite m) (Finite jf)))).
Proof. apply calculate_delay_bounds. Qed.


Lemma delay_is_bounded_witness :
  base_delay default_config = Finite 1 /\ 0 <= 1
  /\ pow_rounded (exponential_base default_config) (9 - 1)
     = Returned (Finite 256)
  /\ 0 <= 256
  /\ max_delay default_config = Finite 60 /\ 0 <= 60
  /\ jitter_factor default_config
     = Finite (3602879701896397 # 36028797018963968)
  /\ 0 <= 3602879701896397 # 36028797018963968
  /\ add (mul (Finite 60) (Finite (3602879701896397 # 36028797018963968)))
         (mul (Finite 60) (Finite (3602879701896397 # 36028797018963968)))
     = Finite 12
  /\ 0 <= 3 # 8 /\ 3 # 8 <= 1
  /\ exists v,
       calculate_delay pow_rounded default_config 9 (Finite (3 # 8))
       = Returned v
       /\ le (Finite 0) v
       /\ le v (add (Finite 60)
                    (mul (Finite 60)
                         (Finite (3602879701896397 # 36028797018963968)))).
Proof.
  assert (pow_rounded (exponential_base default_config) (9 - 1)
          = Returned (Finite 256)) as Hp by (vm_compute; reflexivity).
  assert (add (mul (Finite 60)
                   (Finite (3602879701896397 # 36028797018963968)))
              (mul (Finite 60)
                   (Finite (3602879701896397 # 36028797018963968)))
          = Finite 12) as HW by (vm_compute; reflexivity).
  assert (0 <= 1) as H1 by (vm_compute; discriminate).
  assert (0 <= 256) as H2 by (vm_compute; discriminate).
  assert (0 <= 60) as H3 by (vm_compute; discriminate).
  assert (0 <= 3602879701896397 # 36028797018963968) as H4
    by (vm_compute; discriminate).
  assert (0 <= 3 # 8) as H5 by (vm_compute; discriminate).
  assert (3 # 8 <= 1) as H6 by (vm_compute; discriminate).
  split; [reflexivity|]. split; [exact H1|]. split; [exact Hp|].
  split; [exact H2|]. split; [reflexivity|]. split; [exact H3|].
  split; [reflexivity|]. split; [exact H4|]. split; [exact HW|].
  split; [exact H5|]. split; [exact H6|].
  destruct (delay_is_bounded pow_rounded default_config 9 1 256 60
              (3602879701896397 # 36028797018963968) (3 # 8) 12
              eq_refl H1 Hp H2 eq_refl H3 eq_refl H4 HW H5 H6)
    as (v & Hv & Hv0 & _ & Hvb).
  exists v. split; [exact Hv|]. split; [exact Hv0|]. exact (Hvb eq_refl).
Defined.

(** *** The retry loops *)

Section Loops.
Variables A E : Type.
Variable cfg : RetryConfig.
Variables non_retriable retriable : E -> bool.
Variable func : Z -> A + E.
Variable sample : Z -> float.
Variable float_pow : float -> Z -> outcome float.
Variable sleep_error : float -> option string.

(** A run of [j] retriable failures that are followed by a sleep. *)
Lemma sync_failures (j remaining : nat) (attempt : Z) (last : option E)
      (delays : Z -> float) :
  (j <= remaining)%nat ->
  (attempt + Z.of_nat j <= max_attempts cfg)%Z ->
  (forall i, (attempt <= i < attempt + Z.of_nat j)%Z ->
             retriable_failure A E non_retriable retriable func i) ->
  (forall i, (attempt <= i < attempt + Z.of_nat j)%Z ->
             waits cfg sample float_pow sleep_error i (delays i)) ->
  exists last',
    let rest := sync_from A E cfg non_retriable retriable func sample
                  float_pow sleep_error
                  (remaining - j)%nat (attempt + Z.of_nat j)%Z last' in
    calls (sync_from A E cfg non_retriable retriable func sample
             float_pow sleep_error remaining attempt last)
    = seqZ attempt (Z.of_nat j) ++ calls rest
    /\ sleeps (sync_from A E cfg non_retriable retriable func sample
                 float_pow sleep_error remaining attempt last)
       = (delays <$> seqZ attempt (Z.of_nat j)) ++ sleeps rest
    /\ final (sync_from A E cfg non_retriable retriable func sample
                float_pow sleep_error remaining attempt last) = final rest.
Proof.
  revert remaining attempt last.
  induction j as [|j IH]; intros remaining attempt last Hj Hmax Hfail Hdelay.
  - exists last. simpl. rewrite Nat.sub_0_r, Z.add_0_r. done.
  - destruct remaining as [|remaining]; [lia|].
    destruct (Hfail attempt) as (e & He & Hre); [lia|].
    destruct (Hdelay attempt) as [Hcomputed Hslept]; [lia|].
    unfold delay_at in Hcomputed.
    destruct (IH remaining (attempt + 1)%Z (Some e)) as (last' & Hc & Hs & Hf).
    + lia.
    + lia.
    + intros i Hi. apply Hfail. lia.
    + intros i Hi. apply Hdelay. lia.
    + exists last'. cbn [sync_from]. rewrite He, Hre. simpl negb. cbv iota.
      destruct (Z.ltb_spec attempt (max_attempts cfg)) as [_|Hge]; [|lia].
      rewrite Hcomputed, Hslept.
      replace (attempt + Z.of_nat (S j))%Z with (attempt + 1 + Z.of_nat j)%Z
        by lia.
      replace (S remaining - S j)%nat with (remaining - j)%nat by lia.
      rewrite (seqZ_cons attempt (Z.of_nat (S j))) by lia.
      replace (Z.pred (Z.of_nat (S j))) with (Z.of_nat j) by lia.
      replace (Z.succ attempt) with (attempt + 1)%Z by lia.
      simpl. simpl in Hc, Hs, Hf. rewrite Hc, Hs, Hf. done.
Qed.

(** X14: [retry_sync] stops at the first attempt [k] at which the
    function returns or raises an exception that is not retriable, when
    the delay after each earlier attempt is computed and slept.  The
    function has then been called at attempts 1 to [k], the loop has
    slept the delays of attempts 1 to [k - 1], and the result is returned
    or that exception raised again. *)
Theorem retry_stops_at_the_first_final_outcome (k : Z) (delays : Z -> float) :
  (1 <= k <= max_attempts cfg)%Z ->
  (forall i, (1 <= i < k)%Z ->
             retriable_failure A E non_retriable retriable func i) ->
  (forall i, (1 <= i < k)%Z ->
             waits cfg sample float_pow sleep_error i (delays i)) ->
  match func k with
  | inl _ => True
  | inr e => is_retriable_exception E non_retriable retriable e = false
  end ->
  let t := retry_sync A E cfg non_retriable retriable func sample
             float_pow sleep_error in
  calls t = seqZ 1 k
  /\ sleeps t = (delays <$> seqZ 1 (k - 1))
  /\ final t = match func k with
               | inl a => Result a
               | inr e => Reraised e
               end.
Proof.
  intros Hk Hfail Hdelay Hstop. unfold retry_sync.
  destruct (sync_failures (Z.to_nat (k - 1)) (Z.to_nat (max_attempts cfg))
              1 None delays) as (last' & Hc & Hs & Hf).
  - lia.
  - lia.
  - intros i Hi. apply Hfail. lia.
  - intros i Hi. apply Hdelay. lia.
  - simpl in Hc, Hs, Hf. rewrite Hc, Hs, Hf.
    replace (Z.of_nat (Z.to_nat (k - 1))) with (k - 1)%Z by lia.
    replace (1 + (k - 1))%Z with k by lia.
    destruct (Z.to_nat (max_attempts cfg) - Z.to_nat (k - 1))%nat
      as [|remaining] eqn:Hrem; [lia|].
    cbn [sync_from].
    assert (seqZ 1 k = seqZ 1 (k - 1) ++ [k]) as ->.
    { replace k with ((k - 1) + 1)%Z at 1 by lia.
      rewrite seqZ_app by lia. f_equal.
      replace (1 + (k - 1))%Z with k by lia. done. }
    destruct (func k) as [a|e]; simpl.
    + by rewrite app_nil_r.
    + rewrite Hstop. simpl. by rewrite app_nil_r.
Qed.

(** X15: when every attempt fails with a retriable exception and the
    delay after each attempt but the last is computed and slept,
    [retry_sync] calls the function exactly [max_attempts] times, sleeps
    after every attempt but the last, and ends with a [RetryError] that
    carries the exception of the last attempt and [max_attempts]. *)
Theorem retry_gives_up_after_max_attempts (e_last : E) (delays : Z -> float) :
  (1 <= max_attempts cfg)%Z ->
  (forall i, (1 <= i <= max_attempts cfg)%Z ->
             retriable_failure A E non_retriable retriable func i) ->
  (forall i, (1 <= i < max_attempts cfg)%Z ->
             waits cfg sample float_pow sleep_error i (delays i)) ->
  func (max_attempts cfg) = inr e_last ->
  let t := retry_sync A E cfg non_retriable retriable func sample
             float_pow sleep_error in
  calls t = seqZ 1 (max_attempts cfg)
  /\ sleeps t = (delays <$> seqZ 1 (max_attempts cfg - 1))
  /\ final t = Exhausted (Some e_last) (max_attempts cfg).
Proof.
  intros Hmax Hfail Hdelay Hlast. unfold retry_sync.
  set (m := max_attempts cfg) in *.
  destruct (sync_failures (Z.to_nat (m - 1)) (Z.to_nat m) 1 None delays)
    as (last' & Hc & Hs & Hf).
  - lia.
  - fold m. lia.
  - intros i Hi. apply Hfail. lia.
  - intros i Hi. apply Hdelay. lia.
  - simpl in Hc, Hs, Hf. rewrite Hc, Hs, Hf.
    replace (Z.of_nat (Z.to_nat (m - 1))) with (m - 1)%Z by lia.
    replace (1 + (m - 1))%Z with m by lia.
    replace (Z.to_nat m - Z.to_nat (m - 1))%nat with 1%nat by lia.
    cbn [sync_from]. rewrite Hlast.
    destruct (Hfail m) as (e & He & Hre); [lia|].
    rewrite Hlast in He. inversion He; subst e. rewrite Hre. simpl negb.
    cbv iota. fold m. rewrite Z.ltb_irrefl. simpl.
    assert (seqZ 1 m = seqZ 1 (m - 1) ++ [m]) as ->.
    { replace m with ((m - 1) + 1)%Z at 1 by lia.
      rewrite seqZ_app by lia. f_equal.
      replace (1 + (m - 1))%Z with m by lia. done. }
    by rewrite app_nil_r.
Qed.

Lemma sync_execute_agree (remaining : nat) (attempt : Z) (last : option E) :
  (1 <= remaining)%nat ->
  (attempt + Z.of_nat remaining - 1 = max_attempts cfg)%Z ->
  sync_from A E cfg non_retriable retriable func sample float_pow sleep_error
            remaining attempt last
  = execute_from A E cfg non_retriable retriable func sample float_pow
                 sleep_error remaining attempt.
Proof.
  revert attempt last.
  induction remaining as [|remaining IH]; intros attempt last Hpos Hsum;
    [lia|].
  cbn [sync_from execute_from]. destruct (func attempt) as [a|e]; [done|].
  destruct (negb _); [done|].
  destruct (Z.ltb_spec attempt (max_attempts cfg)) as [Hlt|Hge].
  - destruct (calculate_delay _ _ _ _) as [delay|exc]; [|done].
    destruct (sleep_error delay); [done|]. rewrite IH by lia. done.
  - destruct remaining as [|remaining]; [done | lia].
Qed.

(** X16: with at least one attempt configured,
    [RetryableOperation.execute] calls, sleeps and ends exactly as
    [retry_sync] does. *)
Theorem execute_agrees_with_retry_sync :
  (1 <= max_attempts cfg)%Z ->
  execute A E cfg non_retriable retriable func sample float_pow sleep_error
  = retry_sync A E cfg non_retriable retriable func sample float_pow
               sleep_error.
Proof.
  intros Hmax. unfold execute, retry_sync. symmetry.
  apply sync_execute_agree; lia.
Qed.

(** X17: with [max_attempts] zero or negative the function is never
    called: [retry_sync] raises a [RetryError] without a last exception
    and [execute] returns [None]. *)
Theorem no_attempts_no_call :
  (max_attempts cfg <= 0)%Z ->
  retry_sync A E cfg non_retriable retriable func sample float_pow sleep_error
  = mkTrace [] [] (Exhausted None (max_attempts cfg))
  /\ execute A E cfg non_retriable retriable func sample float_pow
             sleep_error
     = mkTrace [] [] ReturnedNone.
Proof.
  intros Hmax. unfold retry_sync, execute.
  replace (Z.to_nat (max_attempts cfg)) with 0%nat by lia. done.
Qed.

End Loops.


(** *** The time spent asleep *)

Lemma total_wait_bound (bound : Q) (delays : list float) :
  Forall (fun delay => exists v, delay = Finite v /\ 0 <= v /\ v <= bound)
         delays ->
  0 <= total_wait delays
  /\ total_wait delays <= inject_Z (Z.of_nat (length delays)) * bound.
Proof.
  induction 1 as [|d delays (v & -> & Hd0 & Hd) _ [IH0 IH]].
  - cbn [total_wait fold_right length]. change (inject_Z (Z.of_nat 0)) with 0.
    split; [lra|]. rewrite Qmult_0_l. lra.
  - cbn [total_wait fold_right length value]. fold (total_wait delays).
    rewrite Nat2Z.inj_succ, <- Z.add_1_r, inject_Z_plus.
    change (inject_Z 1) with 1.
    set (n := inject_Z (Z.of_nat (length delays))) in *.
    split; [lra|]. rewrite Qmult_plus_distr_l. lra.
Qed.

Section Waiting.
Variables A E : Type.
Variable cfg : RetryConfig.
Variables non_retriable retriable : E -> bool.
Variable func : Z -> A + E.
Variable sample : Z -> float.
Variable float_pow : float -> Z -> outcome float.
Variable sleep_error : float -> option string.

(** The configuration holds no negative number, the powers are not
    negative, the samples lie in [[0, 1]], twice the jitter range of the
    maximal delay is a float, and so is the bound. *)
Variables b m jf W bound : Q.
Hypothesis base_is : base_delay cfg = Finite b.
Hypothesis base_nonneg : 0 <= b.
Hypothesis max_is : max_delay cfg = Finite m.
Hypothesis max_nonneg : 0 <= m.
Hypothesis factor_is : jitter_factor cfg = Finite jf.
Hypothesis factor_nonneg : 0 <= jf.
Hypothesis powers_nonneg :
  forall i p, float_pow (exponential_base cfg) (i - 1)%Z = Returned p ->
              exists q, p = Finite q /\ 0 <= q.
Hypothesis samples_in_range :
  forall i, exists u, sample i = Finite u /\ 0 <= u /\ u <= 1.
Hypothesis range_doubles :
  add (mul (Finite m) (Finite jf)) (mul (Finite m) (Finite jf)) = Finite W.
Hypothesis bound_is :
  (if jitter cfg then add (Finite m) (mul (Finite m) (Finite jf))
   else Finite m) = Finite bound.

Lemma computed_delay_bounds (i : Z) (delay : float) :
  calculate_delay float_pow cfg i (sample i) = Returned delay ->
  exists v, delay = Finite v /\ 0 <= v /\ v <= bound.
Proof.
  intros Hdelay.
  destruct (float_pow (exponential_base cfg) (i - 1)%Z) as [p|exc] eqn:Hp.
  - destruct (powers_nonneg i p Hp) as (q & -> & Hq).
    destruct (samples_in_range i) as (u & Hu & Hu0 & Hu1).
    destruct (calculate_delay_bounds float_pow cfg i b q m jf u W)
      as (v & Hv & Hv0 & Hno & Hyes); try done.
    rewrite Hu, Hv in Hdelay. injection Hdelay as <-.
    destruct (jitter cfg).
    + specialize (Hyes eq_refl). rewrite bound_is in Hyes.
      destruct v as [x|s|]; simpl in Hv0, Hyes;
        [by exists x | congruence | done].
    + specialize (Hno eq_refl). injection bound_is as <-.
      destruct v as [x|s|]; simpl in Hv0, Hno;
        [by exists x | congruence | done].
  - unfold calculate_delay in Hdelay. by rewrite Hp in Hdelay.
Qed.

Lemma sync_from_bounded (remaining : nat) (attempt : Z) (last : option E) :
  (attempt + Z.of_nat remaining = max_attempts cfg + 1)%Z ->
  let t := sync_from A E cfg non_retriable retriable func sample float_pow
             sleep_error remaining attempt last in
  (length (calls t) <= remaining)%nat
  /\ ((1 <= remaining)%nat -> length (calls t) = S (length (sleeps t)))
  /\ Forall (fun delay => exists v, delay = Finite v /\ 0 <= v /\ v <= bound)
            (sleeps t).
Proof.
  revert attempt last.
  induction remaining as [|remaining IH]; intros attempt last Hinv.
  - simpl. repeat split; [lia | lia | constructor].
  - cbn [sync_from]. destruct (func attempt) as [a|e].
    + simpl. repeat split; [lia | constructor].
    + destruct (negb _).
      * simpl. repeat split; [lia | constructor].
      * destruct (IH (attempt + 1)%Z (Some e)) as (Hc & Hs & Hall); [lia|].
        destruct (Z.ltb_spec attempt (max_attempts cfg)) as [Hlt|Hge].
        -- destruct (calculate_delay _ _ _ _) as [delay|exc] eqn:Hdelay;
             [|simpl; repeat split; [lia | constructor]].
           destruct (sleep_error delay);
             [simpl; repeat split; [lia | constructor]|].
           cbn [called slept calls sleeps final length].
           repeat split; [lia | intros _; rewrite Hs by lia; done|].
           constructor; [|done]. by apply (computed_delay_bounds attempt).
        -- assert (remaining = 0)%nat as -> by lia.
           simpl. repeat split; [lia | constructor].
Qed.

(** X20: whatever the function does and however the power and
    [time.sleep] behave, with a configuration without negative numbers
    [retry_sync] calls the function at least once and at most
    [max_attempts] times and sleeps once between two calls and never
    after the last; each delay slept is a float between 0 and the
    bound, which is max_delay without jitter and
    max_delay + max_delay * jitter_factor in float arithmetic with it,
    so that the delays slept add up to at most (max_attempts - 1) times
    the bound. *)
Theorem retry_wait_is_bounded :
  (1 <= max_attempts cfg)%Z ->
  let t := retry_sync A E cfg non_retriable retriable func sample float_pow
             sleep_error in
  (1 <= Z.of_nat (length (calls t)) <= max_attempts cfg)%Z
  /\ length (calls t) = S (length (sleeps t))
  /\ Forall (fun delay => exists v, delay = Finite v /\ 0 <= v /\ v <= bound)
            (sleeps t)
  /\ total_wait (sleeps t) <= inject_Z (max_attempts cfg - 1) * bound.
Proof.
  intros Hmax t.
  destruct (sync_from_bounded (Z.to_nat (max_attempts cfg)) 1 None)
    as (Hc & Hs & Hall); [lia|].
  fold (retry_sync A E cfg non_retriable retriable func sample float_pow
                   sleep_error) in Hc, Hs, Hall.
  fold t in Hc, Hs, Hall. specialize (Hs ltac:(lia)).
  split; [lia|]. split; [done|]. split; [done|].
  destruct (total_wait_bound _ _ Hall) as [_ Hsum].
  eapply Qle_trans; [exact Hsum|].
  apply Qmult_le_compat_r; [rewrite <- Zle_Qle; lia|].
  destruct (jitter cfg).
  - pose proof (round_nonneg (m * jf) ltac:(nra)) as HR.
    cbn [mul] in bound_is.
    destruct (round (m * jf)) as [R| |]; simpl in HR; try done.
    cbn [add] in bound_is.
    pose proof (round_nonneg (m + R) ltac:(lra)) as HB.
    rewrite bound_is in HB. exact HB.
  - by injection bound_is as <-.
Qed.

End Waiting.


Lemma first_two_attempts (i : Z) : (1 <= i < 3)%Z -> i = 1%Z \/ i = 2%Z.
Proof. lia. Qed.

Lemma default_delays_wait (i : Z) :
  (1 <= i < 3)%Z ->
  waits default_config quarter pow_rounded sleep_error_of i (default_delays i).
Proof.
  intros [-> | ->]%first_two_attempts; split; vm_compute; reflexivity.
Qed.

Lemma retry_stops_at_the_first_final_outcome_witness :
  (1 <= 3 <= max_attempts default_config)%Z
  /\ third_time_lucky 3 = inl "ok"%string
  /\ let t := retry_sync string string default_config nothing_excluded
                         everything_retriable third_time_lucky quarter
                         pow_rounded sleep_error_of in
     calls t = seqZ 1 3
     /\ sleeps t = (default_delays <$> seqZ 1 (3 - 1))
     /\ final t = Result "ok"%string.
Proof.
  assert ((1 <= 3 <= max_attempts default_config)%Z) as Hk
    by (vm_compute; split; discriminate).
  split; [exact Hk|]. split; [reflexivity|].
  refine (retry_stops_at_the_first_final_outcome string string default_config
            nothing_excluded everything_retriable third_time_lucky quarter
            pow_rounded sleep_error_of 3 default_delays Hk _ _ I).
  - intros i [-> | ->]%first_two_attempts;
      exists "TimeoutError"%string; split; reflexivity.
  - intros i Hi. apply default_delays_wait. lia.
Defined.

Lemma retry_gives_up_after_max_attempts_witness :
  (1 <= max_attempts default_config)%Z
  /\ always_times_out (max_attempts default_config)
     = inr "TimeoutError"%string
  /\ let t := retry_sync string string default_config nothing_excluded
                         everything_retriable always_times_out quarter
                         pow_rounded sleep_error_of in
     calls t = seqZ 1 (max_attempts default_config)
     /\ sleeps t
        = (default_delays <$> seqZ 1 (max_attempts default_config - 1))
     /\ final t = Exhausted (Some "TimeoutError"%string)
                            (max_attempts default_config).
Proof.
  assert ((1 <= max_attempts default_config)%Z) as Hm
    by (vm_compute; discriminate).
  split; [exact Hm|]. split; [reflexivity|].
  refine (retry_gives_up_after_max_attempts string string default_config
            nothing_excluded everything_retriable always_times_out quarter
            pow_rounded sleep_error_of "TimeoutError"%string default_delays
            Hm _ _ eq_refl).
  - intros i _. exists "TimeoutError"%string. split; reflexivity.
  - intros i Hi. apply default_delays_wait. exact Hi.
Defined.

Lemma execute_agrees_with_retry_sync_witness :
  (1 <= max_attempts default_config)%Z
  /\ execute string string default_config nothing_excluded
             everything_retriable third_time_lucky quarter pow_rounded
             sleep_error_of
     = retry_sync string string default_config nothing_excluded
                  everything_retriable third_time_lucky quarter pow_rounded
                  sleep_error_of.
Proof.
  assert ((1 <= max_attempts default_config)%Z) as Hm
    by (vm_compute; discriminate).
  split; [exact Hm|].
  exact (execute_agrees_with_retry_sync string string default_config
           nothing_excluded everything_retriable third_time_lucky quarter
           pow_rounded sleep_error_of Hm).
Defined.

Lemma no_attempts_no_call_witness :
  (max_attempts no_attempts <= 0)%Z
  /\ retry_sync string string no_attempts nothing_excluded
                everything_retriable third_time_lucky quarter pow_rounded
                sleep_error_of
     = mkTrace [] [] (Exhausted None 0%Z).
Proof.
  assert ((max_attempts no_attempts <= 0)%Z) as Hm
    by (vm_compute; discriminate).
  split; [exact Hm|].
  exact (proj1 (no_attempts_no_call string string no_attempts
                  nothing_excluded everything_retriable third_time_lucky
                  quarter pow_rounded sleep_error_of Hm)).
Defined.

(** The powers of a base that is not negative are not negative. *)
Lemma pow_rounded_nonneg (x : Q) (k : Z) (p : float) :
  0 <= x -> pow_rounded (Finite x) k = Returned p ->
  exists q, p = Finite q /\ 0 <= q.
Proof.
  intros Hx. unfold pow_rounded.
  destruct (round (inject_Z k)) as [exponent| |]; [|done|done].
  destruct (_ =? _)%Z; [intros [= <-]; exists 1; split; [done | lra]|].
  destruct (is_zero x).
  - destruct (_ <? _)%Z; [done|]. intros [= <-]. exists 0. split; [done | lra].
  - pose proof (round_nonneg (x ^ Qfloor exponent)
                  (Qpower_0_le x _ Hx)) as Hr.
    destruct (round (x ^ Qfloor exponent)) as [q| |]; [|done|done].
    intros [= <-]. by exists q.
Qed.

Lemma retry_wait_is_bounded_witness :
  base_delay default_config = Finite 1 /\ 0 <= 1
  /\ max_delay default_config = Finite 60 /\ 0 <= 60
  /\ jitter_factor default_config
     = Finite (3602879701896397 # 36028797018963968)
  /\ 0 <= 3602879701896397 # 36028797018963968
  /\ (forall i p, pow_rounded (exponential_base default_config) (i - 1)
                  = Returned p ->
                  exists q, p = Finite q /\ 0 <= q)
  /\ (forall i, exists u, quarter i = Finite u /\ 0 <= u /\ u <= 1)
  /\ add (mul (Finite 60) (Finite (3602879701896397 # 36028797018963968)))
         (mul (Finite 60) (Finite (3602879701896397 # 36028797018963968)))
     = Finite 12
  /\ (if jitter default_config
      then add (Finite 60)
               (mul (Finite 60)
                    (Finite (3602879701896397 # 36028797018963968)))
      else Finite 60) = Finite 66
  /\ (1 <= max_attempts default_config)%Z
  /\ total_wait (sleeps (retry_sync string string default_config
                           nothing_excluded everything_retriable
                           always_times_out quarter pow_rounded
                           sleep_error_of))
     <= inject_Z (max_attempts default_config - 1) * 66.
Proof.
  assert (0 <= 1) as H1 by (vm_compute; discriminate).
  assert (0 <= 60) as H2 by (vm_compute; discriminate).
  assert (0 <= 3602879701896397 # 36028797018963968) as H3
    by (vm_compute; discriminate).
  assert (forall i p, pow_rounded (exponential_base default_config) (i - 1)
                      = Returned p ->
                      exists q, p = Finite q /\ 0 <= q) as H4.
  { intros i p. apply pow_rounded_nonneg. vm_compute. discriminate. }
  assert (forall i, exists u, quarter i = Finite u /\ 0 <= u /\ u <= 1) as H5.
  { intros i. exists (1 # 4). split; [reflexivity|].
    split; vm_compute; discriminate. }
  assert (add (mul (Finite 60)
                   (Finite (3602879701896397 # 36028797018963968)))
              (mul (Finite 60)
                   (Finite (3602879701896397 # 36028797018963968)))
          = Finite 12) as H6 by (vm_compute; reflexivity).
  assert ((if jitter default_config
           then add (Finite 60)
                    (mul (Finite 60)
                         (Finite (3602879701896397 # 36028797018963968)))
           else Finite 60) = Finite 66) as H7 by (vm_compute; reflexivity).
  assert ((1 <= max_attempts default_config)%Z) as H8
    by (vm_compute; discriminate).
  split; [reflexivity|]. split; [exact H1|]. split; [reflexivity|].
  split; [exact H2|]. split; [reflexivity|]. split; [exact H3|].
  split; [exact H4|]. split; [exact H5|]. split; [exact H6|].
  split; [exact H7|]. split; [exact H8|].
  exact (proj2 (proj2 (proj2
           (retry_wait_is_bounded string string default_config
              nothing_excluded everything_retriable always_times_out quarter
              pow_rounded sleep_error_of 1 60
              (3602879701896397 # 36028797018963968) 12 66
              eq_refl H1 eq_refl H2 eq_refl H3 H4 H5 H6 H7 H8)))).
Defined.

(** The run of [third_time_lucky] under the default configuration with
    the sample a quarter: it sleeps 0.95 and 1.9 seconds. *)
Example third_time_lucky_run :
  let t := retry_sync string string default_config nothing_excluded
                      everything_retriable third_time_lucky quarter
                      pow_rounded sleep_error_of in
  calls t = [1; 2; 3]%Z
  /\ sleeps t = [Finite (4278419646001971 # 4503599627370496);
                 Finite (4278419646001971 # 2251799813685248)]
  /\ final t = Result "ok"%string.
Proof. repeat split; vm_compute; reflexivity. Qed.

(** The exception of the power ends the loop: with one attempt left and
    a power that raises, the function is called once and the exception
    of [calculate_delay] leaves the wrapper. *)
Example overflow_ends_the_loop :
  sync_from string string
    (mkRetryConfig 1026 (Finite 1) (Finite 60) (Finite 2) false one_tenth)
    nothing_excluded everything_retriable always_times_out quarter
    pow_rounded sleep_error_of 2 1025 None
  = mkTrace [1025%Z] [] (DelayRaised "OverflowError").
Proof. vm_compute. reflexivity. Qed.

End RetryFacts.

(** ** The command envelope *)

Module SchemaFacts.
Import Py Schema.
Local Open Scope Z_scope.

Lemma utf8_length_app (s1 s2 : string) :
  utf8_length (s1 ++ s2) = utf8_length s1 + utf8_length s2.
Proof.
  induction s1 as [|c s1 IH]; simpl; [done|]. rewrite IH. lia.
Qed.

Lemma utf8_length_padding (n : nat) : utf8_length (padding n) = Z.of_nat n.
Proof.
  induction n as [|n IH]; [done|].
  cbn [padding utf8_length]. rewrite IH.
  change (N_of_ascii "a" <? 128)%N with true. lia.
Qed.

Lemma escape_padding (n : nat) : escape (padding n) = padding n.
Proof.
  induction n as [|n IH]; [done|].
  cbn [padding escape]. rewrite IH. reflexivity.
Qed.

(** The serialisation of [params_of_size n] and its size. *)
Lemma dumps_params_of_size (n : Z) :
  0 <= n ->
  exists s : string,
    dumps (params_of_size n) = Some s /\ utf8_length s = 9 + n.
Proof.
  intros Hn. eexists. split.
  - unfold dumps, params_of_size. cbn [dumps_value List.map all_some fst snd join].
    unfold quote at 2. rewrite escape_padding. reflexivity.
  - rewrite !utf8_length_app. cbn [utf8_length append].
    rewrite ?utf8_length_app, utf8_length_padding.
    change (utf8_length (quote "k")) with 3.
    repeat match goal with
           | |- context [(N_of_ascii ?c <? 128)%N] =>
               change (N_of_ascii c <? 128)%N with true
           end.
    cbn [utf8_length]. lia.
Qed.

Section Library.
Variable fromisoformat_ok : string -> bool.
Variable json_dumps : dict -> option string.

(** The validator of [params] accepts exactly the maps that serialise
    to at most 64 KiB. *)
Lemma validate_params_size_spec (v : dict) :
  validate_params_size json_dumps v = Valid v
  <-> exists s, json_dumps v = Some s /\ utf8_length s <= 64 * 1024.
Proof.
  unfold validate_params_size. destruct (json_dumps v) as [s|].
  - destruct (Z.gtb_spec (utf8_length s) (64 * 1024)); split.
    + done.
    + intros (s' & Hs & Hle). inversion Hs; subst. lia.
    + intros _. exists s. split; [done | lia].
    + done.
  - split; [done|]. by intros (s & Hs & _).
Qed.

Lemma validate_params_size_cases (v : dict) :
  validate_params_size json_dumps v = Valid v
  \/ exists m, validate_params_size json_dumps v = Invalid m.
Proof.
  unfold validate_params_size. destruct (json_dumps v) as [s|]; [|eauto].
  destruct (utf8_length s >? 64 * 1024); eauto.
Qed.

End Library.

(** Acceptance of a command, field by field. *)
Lemma accepted_iff_fields_valid (fromisoformat_ok : string -> bool)
      (json_dumps : dict -> option string) (i : command_input) :
  (exists e, validate_command fromisoformat_ok json_dumps i = inl e)
  <-> other_fields_valid fromisoformat_ok i = true
      /\ is_valid (field_params json_dumps i) = true.
Proof.
  unfold validate_command, other_fields_valid.
  destruct (field_req_id i), (field_actor i),
    (field_ts fromisoformat_ok i), (field_action i),
    (field_params json_dumps i); simpl;
    split; try (intros [e He]; discriminate); try (intros [? ?]; discriminate);
    eauto.
Qed.

Lemma field_params_valid (json_dumps : dict -> option string)
      (i : command_input) (v : dict) :
  in_params i = Some v ->
  is_valid (field_params json_dumps i) = true
  <-> exists s, json_dumps v = Some s /\ utf8_length s <= 64 * 1024.
Proof.
  intros Hv. rewrite <- validate_params_size_spec.
  unfold field_params. rewrite Hv.
  destruct (validate_params_size_cases json_dumps v) as [-> | [m ->]];
    simpl; split; done.
Qed.

(** C9: a command whose [params] are given is accepted exactly when its
    other four fields are valid and the serialised [params] take at most
    64 * 1024 bytes in UTF-8.  So a map that serialises to exactly 65536
    bytes passes and one that serialises to 65537 bytes is rejected. *)
Theorem params_size_decides_acceptance (fromisoformat_ok : string -> bool)
        (json_dumps : dict -> option string) (i : command_input) (v : dict) :
  in_params i = Some v ->
  (exists e, validate_command fromisoformat_ok json_dumps i = inl e)
  <-> other_fields_valid fromisoformat_ok i = true
      /\ exists s, json_dumps v = Some s /\ utf8_length s <= 64 * 1024.
Proof.
  intros Hv. rewrite accepted_iff_fields_valid.
  by rewrite (field_params_valid json_dumps i v Hv).
Qed.

Lemma params_size_decides_acceptance_witness :
  in_params (command_with (params_of_size 3)) = Some (params_of_size 3)
  /\ ((exists e, validate_command parses_new_year dumps
                   (command_with (params_of_size 3)) = inl e)
      <-> other_fields_valid parses_new_year
            (command_with (params_of_size 3)) = true
          /\ exists s, dumps (params_of_size 3) = Some s
                       /\ utf8_length s <= 64 * 1024).
Proof.
  split; [reflexivity|].
  exact (params_size_decides_acceptance parses_new_year dumps
           (command_with (params_of_size 3)) (params_of_size 3) eq_refl).
Defined.

(** The two boundary cases, with [dumps] as the serialiser: 65527
    letters serialise to 65536 bytes. *)
Example params_of_64_KiB_accepted :
  exists e, validate_command parses_new_year dumps
              (command_with (params_of_size 65527)) = inl e.
Proof.
  apply accepted_iff_fields_valid. split; [reflexivity|].
  apply (field_params_valid dumps (command_with (params_of_size 65527))
           (params_of_size 65527) eq_refl).
  destruct (dumps_params_of_size 65527) as (s & Hs & Hlen); [lia|].
  exists s. split; [done | lia].
Qed.

Example params_of_64_KiB_plus_1_rejected :
  ~ exists e, validate_command parses_new_year dumps
                (command_with (params_of_size 65528)) = inl e.
Proof.
  intros [_ H]%accepted_iff_fields_valid.
  apply (field_params_valid dumps (command_with (params_of_size 65528))
           (params_of_size 65528) eq_refl) in H as (s & Hs & Hle).
  destruct (dumps_params_of_size 65528) as (s' & Hs' & Hlen); [lia|].
  rewrite Hs in Hs'. inversion Hs'; subst. lia.
Qed.

(** A small command, serialised and validated. *)
Example small_command_accepted :
  dumps [("level", VInt 3); ("mode", VStr "fast")]%string
  = Some (String "{" (quote "level") ++ ": 3, " ++ quote "mode" ++ ": "
          ++ quote "fast" ++ "}")%string
  /\ validate_command parses_new_year dumps
       (mkCommandInput "r1" "host:bench-7" "2024-01-01T00:00:00Z" " start "
          (Some [("level", VInt 3)]%string))
     = inl (mkMQTTCommandEnvelope "r1" "host:bench-7" "2024-01-01T00:00:00Z"
              "start" [("level", VInt 3)]%string).
Proof. split; reflexivity. Qed.

Example bad_actor_and_object_rejected :
  validate_command parses_new_year dumps
    (mkCommandInput "r1" "root" "2024-01-01T00:00:00Z" "start"
       (Some [("when", VObject "datetime")]%string))
  = inr [("actor", "Invalid actor: root. Must be one of: api, orchestrator, user, or host:*");
         ("params", "Params must be JSON serializable")]%string.
Proof. reflexivity. Qed.

(** *** The stored action *)

Lemma lstrip_idem (l : list ascii) : lstrip (lstrip l) = lstrip l.
Proof.
  induction l as [|c l IH]; [done|]. simpl.
  destruct (isspace c) eqn:Hc; [done|]. simpl. by rewrite Hc.
Qed.

Lemma lstrip_head (l r : list ascii) (c : ascii) :
  lstrip l = c :: r -> isspace c = false.
Proof.
  induction l as [|a l IH]; [done|]. simpl.
  destruct (isspace a) eqn:Ha; [done|]. by intros [= <- _].
Qed.

Lemma lstrip_snoc (l : list ascii) (c : ascii) :
  isspace c = false -> exists a, lstrip (l ++ [c]) = a ++ [c].
Proof.
  intros Hc. induction l as [|x l IH]; simpl.
  - rewrite Hc. by exists [].
  - destruct (isspace x); [done|]. by exists (x :: l).
Qed.

Lemma lstrip_length (l : list ascii) : (length (lstrip l) <= length l)%nat.
Proof.
  induction l as [|c l IH]; [done|]. simpl.
  destruct (isspace c); simpl; lia.
Qed.

Lemma string_length_of_list (l : list ascii) :
  String.length (string_of_list_ascii l) = length l.
Proof. induction l as [|c l IH]; [done|]. simpl. by rewrite IH. Qed.

Lemma list_length_of_string (s : string) :
  length (list_ascii_of_string s) = String.length s.
Proof. induction s as [|c s IH]; [done|]. simpl. by rewrite IH. Qed.

(** Stripping twice is stripping once. *)
Lemma strip_idem (s : string) : strip (strip s) = strip s.
Proof.
  unfold strip. rewrite list_ascii_of_string_of_list_ascii.
  destruct (lstrip (list_ascii_of_string s)) as [|c r] eqn:Hl; [done|].
  apply lstrip_head in Hl as Hc.
  cbn [rev]. destruct (lstrip_snoc (rev r) c Hc) as [a Ha].
  assert (lstrip (a ++ [c]) = a ++ [c]) as Hfix
    by (rewrite <- Ha; apply lstrip_idem).
  rewrite Ha, rev_app_distr. cbn [rev app lstrip]. rewrite Hc.
  cbn [rev]. rewrite rev_involutive, Hfix, rev_app_distr. done.
Qed.

Lemma strip_length (s : string) :
  (String.length (strip s) <= String.length s)%nat.
Proof.
  unfold strip.
  rewrite string_length_of_list, length_rev, <- list_length_of_string.
  etrans; [apply lstrip_length|]. rewrite length_rev. apply lstrip_length.
Qed.

Lemma validate_action_valid (v act : string) :
  validate_action v = Valid act -> act = strip v /\ act <> ""%string.
Proof.
  unfold validate_action.
  destruct (String.eqb_spec (strip v) ""); [done|]. by intros [= <-].
Qed.

Lemma check_length_valid (lo hi : Z) (v w : string) :
  check_length lo hi v = Valid w ->
  w = v /\ lo <= Z.of_nat (String.length v) <= hi.
Proof.
  unfold check_length.
  destruct (Z.ltb_spec (Z.of_nat (String.length v)) lo); [done|].
  destruct (Z.ltb_spec hi (Z.of_nat (String.length v))); [done|].
  intros [= <-]. split; [done | lia].
Qed.

Lemma check_length_pass (lo hi : Z) (v : string) :
  lo <= Z.of_nat (String.length v) <= hi -> check_length lo hi v = Valid v.
Proof.
  intros H. unfold check_length.
  destruct (Z.ltb_spec (Z.of_nat (String.length v)) lo); [lia|].
  destruct (Z.ltb_spec hi (Z.of_nat (String.length v))); [lia|]. done.
Qed.

Lemma validate_actor_valid (v a : string) :
  validate_actor v = Valid a -> a = v.
Proof.
  unfold validate_actor. destruct (_ || _); [by intros [= <-]|].
  destruct (String.prefix _ _); [by intros [= <-] | done].
Qed.

(** X21: of the fields of an accepted command only [action] is changed
    by the validation: it is stored without the white space around it.
    The stored envelope is a fixed point: the same command with the
    stored action in place of the given one validates to the same
    envelope. *)
Theorem accepted_command_is_normalised (fromisoformat_ok : string -> bool)
        (json_dumps : dict -> option string)
        (i : command_input) (e : MQTTCommandEnvelope) :
  validate_command fromisoformat_ok json_dumps i = inl e ->
  req_id e = in_req_id i /\ actor e = in_actor i /\ ts e = in_ts i
  /\ action e = strip (in_action i)
  /\ action e <> ""%string
  /\ validate_command fromisoformat_ok json_dumps
       (mkCommandInput (req_id e) (actor e) (ts e) (action e) (in_params i))
     = inl e.
Proof.
  unfold validate_command, field_req_id, field_actor, field_ts, field_action,
    field_params.
  destruct i as [r a t act ps]. cbn [in_req_id in_actor in_ts in_action in_params].
  destruct (check_length 1 255 r) as [r'|] eqn:Hr;
    [|by repeat case_match].
  destruct (and_then (check_length 1 100 a) validate_actor) as [a'|] eqn:Ha;
    [|by repeat case_match].
  destruct (validate_timestamp fromisoformat_ok t) as [t'|] eqn:Ht;
    [|by repeat case_match].
  destruct (and_then (check_length 1 100 act) validate_action) as [act'|]
    eqn:Hact; [|by repeat case_match].
  destruct (match ps with Some v => _ | None => _ end) as [p'|] eqn:Hp;
    [|done].
  intros [= <-]. cbn [req_id actor ts action params].
  apply check_length_valid in Hr as Hr'. destruct Hr' as [-> Hrl].
  assert (t' = t) as ->.
  { unfold validate_timestamp in Ht. by destruct (fromisoformat_ok _); [injection Ht|]. }
  destruct (check_length 1 100 a) as [a0|] eqn:Ha0; [|done].
  apply check_length_valid in Ha0 as Ha0'. destruct Ha0' as [-> Hal].
  simpl in Ha. apply validate_actor_valid in Ha as Ha'. subst a'.
  destruct (check_length 1 100 act) as [act0|] eqn:Hact0; [|done].
  apply check_length_valid in Hact0 as H0'. destruct H0' as [-> Hactl].
  simpl in Hact. apply validate_action_valid in Hact as Hact'.
  destruct Hact' as [-> Hne].
  repeat split; try done.
  rewrite Hr, Ha0. simpl. rewrite Ha, Ht.
  assert (check_length 1 100 (strip act) = Valid (strip act)) as ->.
  { apply check_length_pass. pose proof (strip_length act).
    destruct (strip act) eqn:Hs; [done|].
    cbn [String.length] in *. lia. }
  simpl. unfold validate_action. rewrite strip_idem.
  destruct (String.eqb_spec (strip act) ""); [done|]. done.
Qed.

Lemma accepted_command_is_normalised_witness :
  validate_command parses_new_year dumps
    (mkCommandInput "r1" "host:pi-7" "2024-01-01T00:00:00Z" "  start "
                    None)
  = inl (mkMQTTCommandEnvelope "r1" "host:pi-7" "2024-01-01T00:00:00Z"
           "start" [])
  /\ action (mkMQTTCommandEnvelope "r1" "host:pi-7" "2024-01-01T00:00:00Z"
               "start" [])
     = strip "  start ".
Proof.
  assert (validate_command parses_new_year dumps
            (mkCommandInput "r1" "host:pi-7" "2024-01-01T00:00:00Z"
                            "  start " None)
          = inl (mkMQTTCommandEnvelope "r1" "host:pi-7"
                   "2024-01-01T00:00:00Z" "start" [])) as H
    by reflexivity.
  split; [exact H|].
  exact (proj1 (proj2 (proj2 (proj2
           (accepted_command_is_normalised parses_new_year dumps _ _ H))))).
Defined.

(** *** Projector parameters *)

Lemma error_of_In {A : Type} (name field m : string) (x : validation A) :
  In (field, m) (error_of name x) -> x = Invalid m.
Proof.
  destruct x as [a|m']; simpl; [done|]. by intros [[= _ ->]|[]].
Qed.

Lemma projector_errors (i : Projector.projector_input)
      (errs : list (string * string)) :
  Projector.validate_projector_params i = inr errs ->
  errs = error_of "device_id" (Projector.field_device_id i)
         ++ error_of "input" (Projector.field_input i)
         ++ error_of "ratio" (Projector.field_ratio i)
         ++ error_of "direction" (Projector.field_direction i)
         ++ error_of "adjustment" (Projector.field_adjustment i)
         ++ error_of "value" (Projector.field_value i)
         ++ error_of "command" (Projector.field_command i).
Proof.
  unfold Projector.validate_projector_params.
  destruct (Projector.field_device_id i), (Projector.field_input i),
    (Projector.field_ratio i), (Projector.field_direction i),
    (Projector.field_adjustment i), (Projector.field_value i),
    (Projector.field_command i); by intros [= <-].
Qed.

Lemma check_range_valid (lo hi v w : Z) :
  Projector.check_range lo hi v = Valid w -> w = v /\ lo <= v <= hi.
Proof.
  unfold Projector.check_range.
  destruct (Z.ltb_spec v lo); [done|].
  destruct (Z.ltb_spec hi v); [done|].
  intros [= <-]. split; [done | lia].
Qed.

(** The messages of the constraints of the fields begin with a small
    letter. *)
Lemma check_regex_message (alternatives : list string) (v : option string)
      (m : string) :
  Projector.check_regex alternatives v = Invalid m ->
  exists rest, m = String "s" rest.
Proof.
  unfold Projector.check_regex. destruct v as [s|]; [|done].
  destruct (Projector.matches_alternatives _ _); [done|]. intros [= <-].
  eexists. reflexivity.
Qed.

Lemma check_length_message (lo hi : Z) (v m : string) :
  check_length lo hi v = Invalid m -> exists rest, m = String "e" rest.
Proof.
  unfold check_length.
  destruct (_ <? _); [intros [= <-]; eexists; reflexivity|].
  destruct (_ <? _); [intros [= <-]; eexists; reflexivity | done].
Qed.

Lemma check_max_length_message (hi : Z) (v : option string) (m : string) :
  Projector.check_max_length hi v = Invalid m ->
  exists rest, m = String "e" rest.
Proof.
  unfold Projector.check_max_length. destruct v as [s|]; [|done].
  destruct (_ <? _); [intros [= <-]; eexists; reflexivity | done].
Qed.

(** The message of a rejected [value] is that of the bounds of the field
    or that of the keystone check. *)
Lemma field_value_message (i : Projector.projector_input) (m : string) :
  Projector.field_value i = Invalid m ->
  m = "ensure this value is greater than or equal to -100"%string
  \/ m = "ensure this value is less than or equal to 100"%string
  \/ m = "Keystone value must be between -40 and 40"%string.
Proof.
  unfold Projector.field_value. destruct (Projector.in_value i) as [v|]; [|done].
  destruct (Projector.check_range (-100) 100 v) as [w|m'] eqn:Hr.
  - apply check_range_valid in Hr as [-> Hv]. simpl.
    unfold Projector.validate_adjustment_value.
    destruct (Projector.is_one_of _ _).
    + destruct (negb _); simpl; [|done]. intros [= <-]. auto.
    + destruct (Projector.is_one_of _ _); [|done].
      destruct ((-100 <=? v) && (v <=? 100)) eqn:Hb; [done|].
      apply andb_false_iff in Hb as [Hb|Hb]; lia.
  - simpl. intros [= <-]. unfold Projector.check_range in Hr.
    destruct (_ <? _); [injection Hr; auto|].
    destruct (_ <? _); [injection Hr; auto | done].
Qed.

(** X22: a value stored by an accepted projector command is the given
    one, lies between -100 and 100, and lies between -40 and 40 when
    the stored adjustment is a keystone correction. *)
Theorem projector_value_in_range (i : Projector.projector_input)
        (p : Projector.ProjectorCommandParams) (v : Z) :
  Projector.validate_projector_params i = inl p ->
  Projector.value p = Some v ->
  Projector.in_value i = Some v
  /\ -100 <= v <= 100
  /\ (Projector.adjustment p = Some "H-KEYSTONE"%string
      \/ Projector.adjustment p = Some "V-KEYSTONE"%string ->
      -40 <= v <= 40).
Proof.
  unfold Projector.validate_projector_params.
  destruct (Projector.field_device_id i) as [d|]; [|by repeat case_match].
  destruct (Projector.field_input i) as [inp|]; [|by repeat case_match].
  destruct (Projector.field_ratio i) as [r|]; [|by repeat case_match].
  destruct (Projector.field_direction i) as [dir|]; [|by repeat case_match].
  destruct (Projector.field_adjustment i) as [adj|] eqn:Hadj;
    [|by repeat case_match].
  destruct (Projector.field_value i) as [val|] eqn:Hval;
    [|by repeat case_match].
  destruct (Projector.field_command i) as [c|]; [|done].
  intros [= <-]. cbn [Projector.value Projector.adjustment]. intros ->.
  unfold Projector.field_value, Projector.adjustment_seen in Hval.
  rewrite Hadj in Hval.
  destruct (Projector.in_value i) as [v0|]; [|done].
  destruct (Projector.check_range (-100) 100 v0) as [w|] eqn:Hr; [|done].
  apply check_range_valid in Hr as [-> Hv0]. simpl in Hval.
  unfold Projector.validate_adjustment_value in Hval.
  destruct (Projector.is_one_of adj _) eqn:Hkey.
  - destruct (negb _) eqn:Hb; [done|]. simpl in Hval. injection Hval as <-.
    apply negb_false_iff, andb_true_iff in Hb. split; [done|]. split; lia.
  - assert ((-100 <=? v0) && (v0 <=? 100) = true) as Hb
      by (apply andb_true_iff; lia).
    rewrite Hb in Hval.
    assert (v0 = v) as <-
      by (destruct (Projector.is_one_of adj ["H-IMAGE-SHIFT"; "V-IMAGE-SHIFT"]%string);
          simpl in Hval; congruence).
    split; [done|]. split; [done|].
    intros [-> | ->]; discriminate Hkey.
Qed.

Lemma projector_value_in_range_witness :
  Projector.validate_projector_params Projector.keystone_25
  = inl (Projector.mkProjectorCommandParams "proj-1" None None None
           (Some "H-KEYSTONE"%string) (Some 25) None)
  /\ -40 <= 25 <= 40.
Proof.
  assert (Projector.validate_projector_params Projector.keystone_25
          = inl (Projector.mkProjectorCommandParams "proj-1" None None None
                   (Some "H-KEYSTONE"%string) (Some 25) None)) as H
    by reflexivity.
  split; [exact H|].
  exact (proj2 (proj2 (projector_value_in_range _ _ 25 H eq_refl))
           (or_introl eq_refl)).
Defined.

(** X23: the image-shift error of [validate_adjustment_value] is never
    reported: a value outside -100..100 is rejected by the bounds of the
    field before the validator runs. *)
Theorem image_shift_error_is_never_reported
        (i : Projector.projector_input) (errs : list (string * string))
        (field : string) :
  Projector.validate_projector_params i = inr errs ->
  ~ In (field, "Image shift value must be between -100 and 100"%string) errs.
Proof.
  intros H Hin. apply projector_errors in H. subst errs.
  repeat (apply in_app_or in Hin as [Hin|Hin]);
    apply error_of_In in Hin.
  - by apply check_length_message in Hin as [rest Hm].
  - by apply check_regex_message in Hin as [rest Hm].
  - by apply check_regex_message in Hin as [rest Hm].
  - by apply check_regex_message in Hin as [rest Hm].
  - by apply check_regex_message in Hin as [rest Hm].
  - by apply field_value_message in Hin as [Hm|[Hm|Hm]].
  - by apply check_max_length_message in Hin as [rest Hm].
Qed.

Lemma image_shift_error_is_never_reported_witness :
  Projector.validate_projector_params Projector.shift_250
  = inr [("value", "ensure this value is less than or equal to 100")]%string
  /\ ~ In ("value", "Image shift value must be between -100 and 100")%string
          [("value", "ensure this value is less than or equal to 100")]%string.
Proof.
  assert (Projector.validate_projector_params Projector.shift_250
          = inr [("value", "ensure this value is less than or equal to 100")]%string)
    as H by reflexivity.
  split; [exact H|].
  exact (image_shift_error_is_never_reported _ _ "value" H).
Defined.

(** The bound of the keystone check depends on the stored adjustment
    being the very name: after a name that ends in a line feed, which
    the pattern of the field lets through, a value of 100 is stored. *)
Example keystone_with_line_feed :
  Projector.validate_projector_params
    (Projector.mkProjectorInput "proj-1" None None None
       (Some ("H-KEYSTONE" ++ Projector.line_feed)%string) (Some 100) None)
  = inl (Projector.mkProjectorCommandParams "proj-1" None None None
           (Some ("H-KEYSTONE" ++ Projector.line_feed)%string) (Some 100)
           None).
Proof. reflexivity. Qed.

(** *** Device metadata *)

Lemma chars_app (a b : string) :
  DeviceMeta.chars (a ++ b) = DeviceMeta.chars a ++ DeviceMeta.chars b.
Proof.
  induction a as [|c a IH]; [done|].
  change (String c a ++ b)%string with (String c (a ++ b)).
  unfold DeviceMeta.chars in *. simpl. by rewrite IH.
Qed.

Lemma append_empty_r (s : string) : (s ++ "")%string = s.
Proof.
  induction s as [|c s IH]; [done|].
  change (String c s ++ "")%string with (String c (s ++ "")).
  by rewrite IH.
Qed.

Lemma after_run_split (class : ascii -> bool) (s : string) :
  exists run, s = (run ++ DeviceMeta.after_run class s)%string
              /\ Forall (fun c => class c = true) (DeviceMeta.chars run).
Proof.
  induction s as [|c s (run & Hs & Hrun)].
  - exists ""%string. split; [done | constructor].
  - simpl. destruct (class c) eqn:Hc.
    + exists (String c run). split.
      * change (String c run ++ DeviceMeta.after_run class s)%string
          with (String c (run ++ DeviceMeta.after_run class s)).
        by rewrite <- Hs.
      * by constructor.
    + exists ""%string. split; [done | constructor].
Qed.

(** A text that matches is a run of characters of the class that is not
    empty, with at most a line feed after it. *)
Lemma matches_run_spec (class : ascii -> bool) (v : string) :
  DeviceMeta.matches_run class v = true ->
  exists core, core <> ""%string
    /\ Forall (fun c => class c = true) (DeviceMeta.chars core)
    /\ (v = core \/ v = (core ++ Projector.line_feed)%string).
Proof.
  destruct v as [|c v]; [done|]. unfold DeviceMeta.matches_run.
  intros [Hc Hrest]%andb_true_iff.
  destruct (after_run_split class v) as (run & Hv & Hrun).
  simpl in Hrest. rewrite Hc in Hrest.
  exists (String c run). split; [done|]. split; [by constructor|].
  apply orb_true_iff in Hrest as [Hr|Hr]; apply String.eqb_eq in Hr;
    rewrite Hr in Hv.
  - left. rewrite Hv at 1. by rewrite append_empty_r.
  - right. by rewrite Hv at 1.
Qed.

Lemma id_char_topic_safe (c : ascii) :
  DeviceMeta.id_char c = true \/ DeviceMeta.module_char c = true
  \/ c = "010"%char ->
  c <> "/"%char /\ c <> "+"%char /\ c <> "#"%char /\ c <> " "%char.
Proof.
  intros H. repeat split; intros ->;
    destruct H as [H|[H|H]]; vm_compute in H; discriminate H.
Qed.

Lemma matches_run_topic_safe (class : ascii -> bool) (v : string) (c : ascii) :
  (forall x, class x = true ->
             DeviceMeta.id_char x = true \/ DeviceMeta.module_char x = true) ->
  DeviceMeta.matches_run class v = true ->
  In c (DeviceMeta.chars v) ->
  c <> "/"%char /\ c <> "+"%char /\ c <> "#"%char /\ c <> " "%char.
Proof.
  intros Hclass (core & _ & Hcore & Hv)%matches_run_spec Hin.
  apply id_char_topic_safe.
  assert (In c (DeviceMeta.chars core) \/ c = "010"%char) as [Hc| ->].
  { destruct Hv as [-> | ->]; [by left|].
    rewrite chars_app in Hin. apply in_app_or in Hin as [Hin|Hin]; [by left|].
    right. by destruct Hin as [<-|[]]. }
  - rewrite List.Forall_forall in Hcore.
    destruct (Hclass c) as [H|H]; [by apply Hcore | |]; auto.
  - auto.
Qed.

Lemma validate_modules_valid (v ms : list string) :
  DeviceMeta.validate_modules v = Valid ms ->
  ms = v /\ forall module, In module v ->
                           DeviceMeta.matches_run DeviceMeta.module_char module
                           = true.
Proof.
  unfold DeviceMeta.validate_modules.
  destruct (find _ v) as [bad|] eqn:Hfind; [done|]. intros [= <-].
  split; [done|]. intros module Hin.
  eapply find_none in Hfind; [|exact Hin]. simpl in Hfind.
  by apply negb_false_iff in Hfind.
Qed.

Lemma field_labels_valid (i : DeviceMeta.meta_input) (ls : list string) :
  DeviceMeta.field_labels i = Valid ls ->
  Z.of_nat (length ls) <= 20
  /\ forall label, In label ls -> Z.of_nat (String.length label) <= 50.
Proof.
  unfold DeviceMeta.field_labels.
  destruct (DeviceMeta.in_labels i) as [v|];
    [|intros [= <-]; split; [simpl; lia | by intros ? []]].
  unfold DeviceMeta.check_max_items.
  destruct (Z.ltb_spec 20 (Z.of_nat (length v))) as [|Hlen]; [done|]. simpl.
  unfold DeviceMeta.validate_labels.
  destruct (existsb _ v) eqn:Hex; [done|]. intros [= <-].
  split; [done|]. intros label Hin.
  destruct (Z.ltb_spec 50 (Z.of_nat (String.length label))) as [Hlt|]; [|done].
  assert (existsb (fun label => 50 <? Z.of_nat (String.length label)) v = true)
    as Hyes by (apply existsb_exists; exists label; split; [done | lia]).
  congruence.
Qed.

(** X24: the names an accepted metadata message stores are safe in a
    topic: the device id is the given one, a run of letters, digits,
    underscores and hyphens that is not empty, with at most a line feed
    after it, so that neither it nor a module name holds a slash, a
    wildcard or a space; there are at most 20 labels of at most 50
    characters; [ts] is stored as given. *)
Theorem accepted_device_meta_is_topic_safe (i : DeviceMeta.meta_input)
        (m : DeviceMeta.DeviceMetaEnvelope) :
  DeviceMeta.validate_device_meta i = inl m ->
  DeviceMeta.device_id m = DeviceMeta.in_device_id i
  /\ DeviceMeta.ts m = DeviceMeta.in_ts i
  /\ (exists core, core <> ""%string
        /\ Forall (fun c => DeviceMeta.id_char c = true) (DeviceMeta.chars core)
        /\ (DeviceMeta.device_id m = core
            \/ DeviceMeta.device_id m = (core ++ Projector.line_feed)%string))
  /\ (forall c, In c (DeviceMeta.chars (DeviceMeta.device_id m)) ->
                c <> "/"%char /\ c <> "+"%char /\ c <> "#"%char
                /\ c <> " "%char)
  /\ (forall module c, In module (DeviceMeta.modules m) ->
                       In c (DeviceMeta.chars module) ->
                       c <> "/"%char /\ c <> "+"%char /\ c <> "#"%char
                       /\ c <> " "%char)
  /\ Z.of_nat (length (DeviceMeta.labels m)) <= 20
  /\ (forall label, In label (DeviceMeta.labels m) ->
                    Z.of_nat (String.length label) <= 50).
Proof.
  unfold DeviceMeta.validate_device_meta.
  destruct (DeviceMeta.field_device_id i) as [d|] eqn:Hd;
    [|by repeat case_match].
  destruct (DeviceMeta.field_modules i) as [ms|] eqn:Hms;
    [|by repeat case_match].
  destruct (DeviceMeta.field_labels i) as [ls|] eqn:Hls;
    [|by repeat case_match].
  destruct (DeviceMeta.field_version i) as [ver|]; [|done].
  intros [= <-]. simpl.
  unfold DeviceMeta.field_device_id in Hd.
  destruct (check_length 1 255 (DeviceMeta.in_device_id i)) as [d0|] eqn:Hlen;
    [|done].
  apply check_length_valid in Hlen as [-> _]. simpl in Hd.
  unfold DeviceMeta.validate_device_id in Hd.
  destruct (DeviceMeta.matches_run DeviceMeta.id_char
              (DeviceMeta.in_device_id i)) eqn:Hmatch; [|done].
  injection Hd as <-.
  apply field_labels_valid in Hls as [Hcount Hlabel].
  split; [done|]. split; [done|].
  split; [by apply matches_run_spec|].
  split; [intros c; apply (matches_run_topic_safe DeviceMeta.id_char); auto|].
  split; [|done].
  intros module c Hin. unfold DeviceMeta.field_modules in Hms.
  destruct (DeviceMeta.in_modules i) as [v|];
    [|by injection Hms as <-].
  apply validate_modules_valid in Hms as [-> Hall].
  apply (matches_run_topic_safe DeviceMeta.module_char); auto.
Qed.

Lemma accepted_device_meta_is_topic_safe_witness :
  DeviceMeta.validate_device_meta DeviceMeta.camera_meta
  = inl (DeviceMeta.mkDeviceMetaEnvelope "cam-01" ["ndi"; "projector"]%string
           [] ["studio"]%string "unknown" "yesterday")
  /\ DeviceMeta.ts (DeviceMeta.mkDeviceMetaEnvelope "cam-01"
                      ["ndi"; "projector"]%string [] ["studio"]%string
                      "unknown" "yesterday")
     = DeviceMeta.in_ts DeviceMeta.camera_meta.
Proof.
  assert (DeviceMeta.validate_device_meta DeviceMeta.camera_meta
          = inl (DeviceMeta.mkDeviceMetaEnvelope "cam-01"
                   ["ndi"; "projector"]%string [] ["studio"]%string
                   "unknown" "yesterday")) as H by reflexivity.
  split; [exact H|].
  exact (proj1 (proj2 (accepted_device_meta_is_topic_safe _ _ H))).
Defined.

(** *** Cron expressions *)

Lemma chars_of_list (l : list ascii) :
  Schedule.chars (string_of_list_ascii l) = l.
Proof. apply list_ascii_of_string_of_list_ascii. Qed.

(** The characters of the word being read end up in a word. *)
Lemma split_from_word (word l : list ascii) (c : ascii) :
  In c word ->
  exists w, In w (Schedule.split_from word l) /\ In c w.
Proof.
  revert word. induction l as [|x l IH]; intros word Hc.
  - destruct word as [|y word]; [done|]. exists (rev (y :: word)).
    split; [by left | by apply in_rev in Hc].
  - simpl. destruct (isspace x).
    + destruct word as [|y word]; [done|]. exists (rev (y :: word)).
      split; [by left | by apply in_rev in Hc].
    + apply IH. by right.
Qed.

(** [split] loses white space only. *)
Lemma split_from_chars (word l : list ascii) (c : ascii) :
  In c l ->
  isspace c = true
  \/ exists w, In w (Schedule.split_from word l) /\ In c w.
Proof.
  revert word. induction l as [|x l IH]; intros word Hc; [done|].
  simpl. destruct Hc as [->|Hc].
  - destruct (isspace c) eqn:Hs; [by left|]. right.
    apply split_from_word. by left.
  - destruct (isspace x).
    + destruct (IH [] Hc) as [Hs|(w & Hw & Hin)]; [by left|]. right.
      exists w. split; [|done]. destruct word; [done | by right].
    + apply IH, Hc.
Qed.

Lemma split_on_from_piece (sep : ascii) (piece l : list ascii) (c : ascii) :
  In c piece ->
  exists w, In w (Schedule.split_on_from sep piece l) /\ In c w.
Proof.
  revert piece. induction l as [|x l IH]; intros piece Hc; simpl.
  - exists (rev piece). split; [by left | by apply in_rev in Hc].
  - destruct (Ascii.eqb x sep).
    + exists (rev piece). split; [by left | by apply in_rev in Hc].
    + apply IH. by right.
Qed.

Lemma split_on_from_chars (sep : ascii) (piece l : list ascii) (c : ascii) :
  In c l ->
  c = sep \/ exists w, In w (Schedule.split_on_from sep piece l) /\ In c w.
Proof.
  revert piece. induction l as [|x l IH]; intros piece Hc; [done|].
  simpl. destruct Hc as [->|Hc].
  - destruct (Ascii.eqb_spec c sep) as [|Hne]; [by left|]. right.
    apply split_on_from_piece. by left.
  - destruct (Ascii.eqb x sep).
    + destruct (IH [] Hc) as [Hs|(w & Hw & Hin)]; [by left|]. right.
      exists w. split; [by right | done].
    + apply IH, Hc.
Qed.

Lemma split_once_chars (sep : ascii) (part before after : string) (c : ascii) :
  Schedule.split_once sep part = (before, after) ->
  In c (Schedule.chars part) ->
  In c (Schedule.chars before) \/ c = sep \/ In c (Schedule.chars after).
Proof.
  revert before. induction part as [|x part IH]; intros before; [done|].
  simpl. destruct (Ascii.eqb_spec x sep) as [->|Hne].
  - intros [= <- <-] [<-|Hc]; auto.
  - destruct (Schedule.split_once sep part) as [b a].
    intros [= <- <-] [<-|Hc]; [left; by left|].
    destruct (IH b eq_refl Hc) as [H|[H|H]]; auto. left. by right.
Qed.

Lemma isdigit_chars (s : string) (c : ascii) :
  Schedule.isdigit s = true -> In c (Schedule.chars s) ->
  Schedule.isdigit_char c = true.
Proof.
  destruct s as [|x s]; [done|]. unfold Schedule.isdigit.
  rewrite forallb_forall. auto.
Qed.

Lemma digit_is_cron_char (c : ascii) :
  Schedule.isdigit_char c = true -> Schedule.cron_char c = true.
Proof. unfold Schedule.cron_char. by intros ->. Qed.

(** A part that the loop lets through is written with digits, stars,
    commas, slashes and hyphens. *)
Lemma check_part_chars (part : string) (c : ascii) :
  Schedule.check_part part = None -> In c (Schedule.chars part) ->
  Schedule.cron_char c = true.
Proof.
  unfold Schedule.check_part.
  destruct (String.eqb_spec part "*") as [->|_].
  { intros _ [<-|[]]. done. }
  destruct (Schedule.contains "," part).
  { destruct (find _ _) as [bad|] eqn:Hfind; [done|]. intros _ Hc.
    destruct (split_on_from_chars "," [] _ c Hc) as [->|(w & Hw & Hin)];
      [done|].
    apply digit_is_cron_char.
    apply (isdigit_chars (string_of_list_ascii w));
      [|by rewrite chars_of_list].
    eapply find_none in Hfind;
      [|unfold Schedule.split_on; apply in_map, Hw].
    by apply negb_false_iff in Hfind. }
  destruct (Schedule.contains "/" part).
  { destruct (Schedule.split_once "/" part) as [base step] eqn:Hsplit.
    destruct (negb (String.eqb base "*") && negb (Schedule.isdigit base))
      eqn:Hbase; [done|].
    destruct (negb (Schedule.isdigit step)) eqn:Hstep; [done|]. intros _ Hc.
    apply negb_false_iff in Hstep.
    destruct (split_once_chars _ _ _ _ c Hsplit Hc) as [H|[->|H]]; [|done|].
    - apply andb_false_iff in Hbase as [Hb|Hb]; apply negb_false_iff in Hb.
      + apply String.eqb_eq in Hb as ->. by destruct H as [<-|[]].
      + by apply digit_is_cron_char, (isdigit_chars base).
    - by apply digit_is_cron_char, (isdigit_chars step). }
  destruct (Schedule.contains "-" part).
  { destruct (Schedule.split_once "-" part) as [start stop] eqn:Hsplit.
    destruct (negb (Schedule.isdigit start) || negb (Schedule.isdigit stop))
      eqn:Hends; [done|]. intros _ Hc.
    apply orb_false_iff in Hends as [H1 H2].
    apply negb_false_iff in H1, H2.
    destruct (split_once_chars _ _ _ _ c Hsplit Hc) as [H|[->|H]]; [|done|].
    - by apply digit_is_cron_char, (isdigit_chars start).
    - by apply digit_is_cron_char, (isdigit_chars stop). }
  destruct (negb (Schedule.isdigit part)) eqn:Hd; [done|]. intros _ Hc.
  apply negb_false_iff in Hd.
  by apply digit_is_cron_char, (isdigit_chars part).
Qed.

Lemma first_error_none (parts : list string) (part : string) :
  Schedule.first_error parts = None -> In part parts ->
  Schedule.check_part part = None.
Proof.
  induction parts as [|p parts IH]; [done|]. simpl.
  destruct (Schedule.check_part p) eqn:Hp; [done|].
  intros H [<-|Hin]; auto.
Qed.

(** X25: a cron expression that [validate_schedule_expression] accepts
    is returned as given, has exactly five fields, and is written with
    white space, digits, stars, commas, slashes and hyphens only: names
    of months or weekdays, question marks and macros are refused. *)
Theorem accepted_cron_is_numeric (fromisoformat_ok : string -> bool)
        (v w : string) :
  Schedule.validate_schedule_expression fromisoformat_ok v (Some "cron"%string)
  = Valid w ->
  w = v
  /\ length (Schedule.split v) = 5%nat
  /\ (forall part, In part (Schedule.split v) ->
                   Schedule.check_part part = None)
  /\ (forall c, In c (Schedule.chars v) ->
                isspace c = true \/ Schedule.cron_char c = true).
Proof.
  unfold Schedule.validate_schedule_expression. cbn [Schedule.type_is].
  change (String.eqb "cron" "once") with false.
  change (String.eqb "cron" "cron") with true. cbv iota.
  destruct (Z.eqb_spec (Z.of_nat (length (Schedule.split v))) 5) as [Hlen|];
    [|done]. simpl negb. cbv iota.
  destruct (Schedule.first_error (Schedule.split v)) eqn:Hfirst; [done|].
  intros [= <-]. split; [done|]. split; [lia|].
  split; [intros part; by apply first_error_none|].
  intros c Hc.
  destruct (split_from_chars [] _ c Hc) as [Hs|(word & Hw & Hin)]; [by left|].
  right. apply (check_part_chars (string_of_list_ascii word));
    [|by rewrite chars_of_list].
  apply (first_error_none (Schedule.split v)); [done|].
  unfold Schedule.split. by apply in_map.
Qed.

Lemma accepted_cron_is_numeric_witness :
  Schedule.validate_schedule_expression parses_new_year "*/15 0-6 1,15 * 1"
    (Some "cron"%string) = Valid "*/15 0-6 1,15 * 1"%string
  /\ length (Schedule.split "*/15 0-6 1,15 * 1") = 5%nat.
Proof.
  assert (Schedule.validate_schedule_expression parses_new_year
            "*/15 0-6 1,15 * 1" (Some "cron"%string)
          = Valid "*/15 0-6 1,15 * 1"%string) as H by reflexivity.
  split; [exact H|].
  exact (proj1 (proj2 (accepted_cron_is_numeric _ _ _ H))).
Defined.

(** Fields that a cron daemon reads and the validator refuses: a step
    over a range, a range in a list, a name. *)
Example refused_cron_fields :
  Schedule.check_part "1-5/2" = Some "Invalid cron step base: 1-5"%string
  /\ Schedule.check_part "1,3-5" = Some "Invalid cron value: 3-5"%string
  /\ Schedule.check_part "MON" = Some "Invalid cron value: MON"%string.
Proof. repeat split; reflexivity. Qed.

Lemma digit_not_space (c : ascii) :
  Schedule.isdigit_char c = true -> isspace c = false.
Proof.
  destruct c as [[] [] [] [] [] [] [] []]; vm_compute; by intros.
Qed.

Lemma split_from_run (word run rest : list ascii) :
  forallb (fun c => negb (isspace c)) run = true ->
  Schedule.split_from word (run ++ rest)
  = Schedule.split_from (rev run ++ word) rest.
Proof.
  revert word. induction run as [|c run IH]; intros word Hrun; [done|].
  simpl in Hrun. apply andb_true_iff in Hrun as [Hc Hrun].
  apply negb_true_iff in Hc. simpl. rewrite Hc, IH by done.
  by rewrite <- app_assoc.
Qed.

Lemma list_of_append (a b : string) :
  list_ascii_of_string (a ++ b)
  = list_ascii_of_string a ++ list_ascii_of_string b.
Proof.
  induction a as [|c a IH]; [done|].
  change (String c a ++ b)%string with (String c (a ++ b)).
  simpl. by rewrite IH.
Qed.

(** Splitting what [join_space] made of words gives the words back. *)
Lemma split_join_space (parts : list string) :
  Forall (fun part => part <> ""%string
                      /\ forallb (fun c => negb (isspace c))
                                 (Schedule.chars part) = true) parts ->
  Schedule.split (Schedule.join_space parts) = parts.
Proof.
  unfold Schedule.split, Schedule.chars.
  induction 1 as [|part parts [Hne Hrun] Hparts IH]; [done|].
  assert (rev (list_ascii_of_string part) <> []) as Hword.
  { destruct part as [|c part]; [done|]. simpl. by destruct (rev _). }
  destruct parts as [|next parts].
  - simpl.
    rewrite <- (app_nil_r (list_ascii_of_string part)), split_from_run by done.
    rewrite app_nil_r. simpl.
    destruct (rev (list_ascii_of_string part)) as [|c word] eqn:Hrev; [done|].
    rewrite <- Hrev, rev_involutive. simpl.
    by rewrite string_of_list_ascii_of_string.
  - change (Schedule.join_space (part :: next :: parts))
      with (part ++ String " " (Schedule.join_space (next :: parts)))%string.
    rewrite list_of_append, split_from_run by done.
    rewrite app_nil_r. cbn [list_ascii_of_string Schedule.split_from].
    change (isspace " ") with true. cbv iota.
    destruct (rev (list_ascii_of_string part)) as [|c word] eqn:Hrev; [done|].
    rewrite <- Hrev, rev_involutive. cbn [map].
    by rewrite string_of_list_ascii_of_string, IH.
Qed.

Lemma digits_hold_no (sep : ascii) (part : string) :
  Schedule.isdigit_char sep = false -> Schedule.isdigit part = true ->
  Schedule.contains sep part = false.
Proof.
  intros Hsep Hd. unfold Schedule.contains.
  destruct (existsb _ _) eqn:Hex; [|done].
  apply existsb_exists in Hex as (c & Hc & Heq).
  apply Ascii.eqb_eq in Heq as <-.
  apply (isdigit_chars part) in Hc; [congruence | done].
Qed.

Lemma star_or_number_passes (part : string) :
  Schedule.star_or_number part = true -> Schedule.check_part part = None.
Proof.
  unfold Schedule.star_or_number, Schedule.check_part.
  destruct (String.eqb part "*"); [done|]. simpl. intros Hd.
  rewrite !digits_hold_no by done. by rewrite Hd.
Qed.

Lemma star_or_number_word (part : string) :
  Schedule.star_or_number part = true ->
  part <> ""%string
  /\ forallb (fun c => negb (isspace c)) (Schedule.chars part) = true.
Proof.
  unfold Schedule.star_or_number.
  destruct (String.eqb_spec part "*") as [->|_]; [done|]. simpl. intros Hd.
  split; [by destruct part|].
  apply forallb_forall. intros c Hc. apply negb_true_iff, digit_not_space.
  by apply (isdigit_chars part).
Qed.

(** X26: the numbers of a cron expression are not checked against the
    range of their field: five fields that are stars or numbers, with
    single spaces between them, are accepted whatever the numbers. *)
Theorem cron_numbers_are_not_range_checked
        (fromisoformat_ok : string -> bool) (parts : list string) :
  length parts = 5%nat ->
  Forall (fun part => Schedule.star_or_number part = true) parts ->
  Schedule.validate_schedule_expression fromisoformat_ok
    (Schedule.join_space parts) (Some "cron"%string)
  = Valid (Schedule.join_space parts).
Proof.
  intros Hlen Hparts. unfold Schedule.validate_schedule_expression.
  cbn [Schedule.type_is].
  change (String.eqb "cron" "once") with false.
  change (String.eqb "cron" "cron") with true. cbv iota.
  rewrite split_join_space, Hlen.
  - change (negb (Z.of_nat 5 =? 5)) with false. cbv iota.
    assert (Schedule.first_error parts = None) as ->; [|done].
    clear Hlen. induction Hparts as [|part parts Hpart _ IH]; [done|].
    simpl. by rewrite star_or_number_passes.
  - eapply Forall_impl; [exact Hparts|]. intros part.
    apply star_or_number_word.
Qed.

Lemma cron_numbers_are_not_range_checked_witness :
  length ["61"; "25"; "32"; "13"; "8"]%string = 5%nat
  /\ Forall (fun part => Schedule.star_or_number part = true)
            ["61"; "25"; "32"; "13"; "8"]%string
  /\ Schedule.validate_schedule_expression parses_new_year "61 25 32 13 8"
       (Some "cron"%string)
     = Valid "61 25 32 13 8"%string.
Proof.
  assert (Forall (fun part => Schedule.star_or_number part = true)
                 ["61"; "25"; "32"; "13"; "8"]%string) as H
    by (repeat constructor).
  split; [reflexivity|]. split; [exact H|].
  exact (cron_numbers_are_not_range_checked parses_new_year
           ["61"; "25"; "32"; "13"; "8"]%string eq_refl H).
Defined.

End SchemaFacts.
